(** * cli-utils: inventory split, legacy-name guard, event printer and Destroyer

    A shallow embedding of the Go sources

      - [pkg/inventory]  (IsInventoryObject, retrieveInventoryLabel, SplitInfos,
        SplitUnstructureds, addSuffixToName, fixLegacyInventoryName),
      - [pkg/apply] basic printer (applyStats, BasicPrinter.Print and the
        process*Event functions),
      - [pkg/apply] Destroyer.Run, runPruneEventTransformer and
        transformPruneOperation,

    together with the properties of them that the design document states.

    Conventions.  A Go pointer [*T] is an [option T] ([None] is [nil]).  A Go
    [string] is a [string] of bytes.  A Go [int] is a 64-bit two's-complement
    integer, kept as a [Z] and wrapped on every increment.  A function that can
    [panic] returns a [result].  A function that mutates the struct behind a
    pointer returns the new content of the struct. *)

From Stdlib Require Import ZArith String Ascii List Lia DecimalString.
From stdpp Require Import base option list strings gmap.

Open Scope Z_scope.

(** ** Results of code that can panic *)

Inductive result (A : Type) : Type :=
| Ok (a : A)
| Panic (msg : string).
Arguments Ok {A} a.
Arguments Panic {A} msg.

Definition bindR {A B : Type} (r : result A) (k : A -> result B) : result B :=
  match r with
  | Ok a => k a
  | Panic msg => Panic msg
  end.

Notation "x <-! r ;; k" := (bindR r (fun x => k))
  (at level 100, r at next level, right associativity).

(** ** The Go library functions the sources call *)

Module GoStrings.

(** The byte string with the given byte values. *)
Definition bytes (l : list nat) : string :=
  string_of_list_ascii (map ascii_of_nat l).

(** [unicode.IsSpace]: the UTF-8 encodings of the white space code points
    U+0009..U+000D, U+0020, U+0085, U+00A0, U+1680, U+2000..U+200A, U+2028,
    U+2029, U+202F, U+205F and U+3000. *)
Definition spaceEncodings : list string :=
  map bytes
    [ [9]; [10]; [11]; [12]; [13]; [32];
      [194; 133]; [194; 160];
      [225; 154; 128];
      [226; 128; 128]; [226; 128; 129]; [226; 128; 130]; [226; 128; 131];
      [226; 128; 132]; [226; 128; 133]; [226; 128; 134]; [226; 128; 135];
      [226; 128; 136]; [226; 128; 137]; [226; 128; 138];
      [226; 128; 168]; [226; 128; 169]; [226; 128; 175];
      [226; 129; 159];
      [227; 128; 128] ]%nat.

(** [stripPrefix p s] is what follows [p] in [s], when [s] starts with [p]. *)
Fixpoint stripPrefix (p s : string) : option string :=
  match p, s with
  | EmptyString, _ => Some s
  | String a p', String b s' => if Ascii.eqb a b then stripPrefix p' s' else None
  | String _ _, EmptyString => None
  end.

(** What follows the first rune of [s], when that rune is white space. *)
Definition dropSpaceRune (s : string) : option string :=
  foldr (fun p acc => match stripPrefix p s with Some r => Some r | None => acc end)
        None spaceEncodings.

(** What precedes the last rune of the string whose reverse is [r], reversed,
    when that rune is white space. *)
Definition dropSpaceRuneRev (r : string) : option string :=
  foldr (fun p acc => match stripPrefix (String.rev p) r with Some t => Some t | None => acc end)
        None spaceEncodings.

Fixpoint trimLeftLoop (fuel : nat) (s : string) : string :=
  match fuel with
  | O => s
  | S n => match dropSpaceRune s with
           | Some r => trimLeftLoop n r
           | None => s
           end
  end.

Fixpoint trimRightLoopRev (fuel : nat) (r : string) : string :=
  match fuel with
  | O => r
  | S n => match dropSpaceRuneRev r with
           | Some t => trimRightLoopRev n t
           | None => r
           end
  end.

(** [strings.TrimLeftFunc(s, unicode.IsSpace)]. *)
Definition TrimLeftSpace (s : string) : string :=
  trimLeftLoop (String.length s) s.

(** [strings.TrimRightFunc(s, unicode.IsSpace)]. *)
Definition TrimRightSpace (s : string) : string :=
  String.rev (trimRightLoopRev (String.length s) (String.rev s)).

(** [strings.TrimSpace]: leading and trailing white space removed. *)
Definition TrimSpace (s : string) : string :=
  TrimRightSpace (TrimLeftSpace s).

(** [strings.HasSuffix(s, suffix)]:
    [len(s) >= len(suffix) && s[len(s)-len(suffix):] == suffix]. *)
Definition HasSuffix (s suffix : string) : bool :=
  (String.length suffix <=? String.length s)%nat
  && String.eqb
       (substring (String.length s - String.length suffix) (String.length suffix) s)
       suffix.

(** [strings.ToLower] on strings of ASCII characters: the letters A to Z
    are mapped to a to z.  Every other byte is kept, also where Go maps a
    letter outside ASCII to its lower case or replaces an invalid byte. *)
Definition lowerByte (c : ascii) : ascii :=
  let n := nat_of_ascii c in
  if ((65 <=? n) && (n <=? 90))%nat then ascii_of_nat (n + 32) else c.

Fixpoint ToLower (s : string) : string :=
  match s with
  | EmptyString => EmptyString
  | String c r => String (lowerByte c) (ToLower r)
  end.

(** An operand of a formatting call. *)
Inductive fmtArg : Type :=
| ArgInt (n : Z)
| ArgStr (s : string).

(** [%d] of a Go [int]: decimal, with a minus sign when negative. *)
Definition showInt (n : Z) : string := NilZero.string_of_int (Z.to_int n).

(** How [fmt] prints an operand under a verb that does not fit it. *)
Definition badVerb (verb : string) (a : fmtArg) : string :=
  match a with
  | ArgInt n => "%!" +:+ verb +:+ "(int=" +:+ showInt n +:+ ")"
  | ArgStr s => "%!" +:+ verb +:+ "(string=" +:+ s +:+ ")"
  end.

Definition extraArg (a : fmtArg) : string :=
  match a with
  | ArgInt n => "int=" +:+ showInt n
  | ArgStr s => "string=" +:+ s
  end.

Fixpoint joinComma (l : list string) : string :=
  match l with
  | [] => ""
  | [x] => x
  | x :: r => x +:+ ", " +:+ joinComma r
  end.

(** [fmt.Sprintf] for the verbs the sources use, [%d] and [%s]. *)
Fixpoint Sprintf (format : string) (args : list fmtArg) : string :=
  match format with
  | EmptyString =>
      match args with
      | [] => ""
      | _ => "%!(EXTRA " +:+ joinComma (map extraArg args) +:+ ")"
      end
  | String "%" (String "d" rest) =>
      match args with
      | [] => "%!d(MISSING)" +:+ Sprintf rest []
      | ArgInt n :: args' => showInt n +:+ Sprintf rest args'
      | a :: args' => badVerb "d" a +:+ Sprintf rest args'
      end
  | String "%" (String "s" rest) =>
      match args with
      | [] => "%!s(MISSING)" +:+ Sprintf rest []
      | ArgStr s :: args' => s +:+ Sprintf rest args'
      | a :: args' => badVerb "s" a +:+ Sprintf rest args'
      end
  | String c rest => String c (Sprintf rest args)
  end.

End GoStrings.

(** ** Objects, resource infos and errors *)

Module Objects.

(** [unstructured.Unstructured], through the accessors the sources use:
    [GetObjectKind().GroupVersionKind().GroupKind()], [GetName]/[SetName] and
    [GetLabels]. *)
Record Unstructured : Type := {
  uGroup : string;
  uKind : string;
  uNamespace : string;
  uName : string;
  uLabels : gmap string string
}.

(** [accessor.SetName(name)]. *)
Definition SetName (obj : Unstructured) (name : string) : Unstructured :=
  {| uGroup := uGroup obj; uKind := uKind obj; uNamespace := uNamespace obj;
     uName := name; uLabels := uLabels obj |}.

(** [resource.Info]: the fields the sources read or write, and the object. *)
Record Info : Type := {
  Namespace : string;
  Name : string;
  Source : string;
  Object : option Unstructured
}.

(** [object.InfoToUnstructured(info)], the object of [info] as an
    [*unstructured.Unstructured].  Every call site has checked [info] and
    [info.Object] for [nil] before. *)
Definition InfoToUnstructured (info : option Info) : option Unstructured :=
  match info with
  | Some i => Object i
  | None => None
  end.

(** The Go [error] values of the sources. *)
Inductive error : Type :=
| Errorf (msg : string)
| NoInventoryObjError
| MultipleInventoryObjError (InventoryObjectTemplates : list (option Unstructured))
| WrapPrefix (err : error) (prefix : string).

End Objects.

(** ** The inventory object among the input objects *)

Module Inventory.
Import GoStrings Objects.

(** The default inventory name stored in the inventory template. *)
Definition legacyInvName : string := "inventory".

Section WithLabel.

(** [common.InventoryLabel], the key of the label that marks an inventory
    object; the constant is declared in a package outside these sources. *)
Variable InventoryLabel : string.

(** [retrieveInventoryLabel]: the trimmed value of the inventory label, or an
    error when the object is nil or has no such label. *)
Definition retrieveInventoryLabel (obj : option Unstructured) : string * option error :=
  match obj with
  | None => ("", Some (Errorf "inventory info is nil"))
  | Some o =>
      match uLabels o !! InventoryLabel with
      | None =>
          ("", Some (Errorf (Sprintf "inventory label does not exist for inventory object: %s"
                                     [ArgStr InventoryLabel])))
      | Some inventoryLabel => (TrimSpace inventoryLabel, None)
      end
  end.

(** [IsInventoryObject]: true if the passed object has the inventory label. *)
Definition IsInventoryObject (obj : option Unstructured) : bool :=
  match obj with
  | None => false
  | Some _ =>
      match retrieveInventoryLabel obj with
      | (inventoryLabel, None) => (0 <? String.length inventoryLabel)%nat
      | (_, Some _) => false
      end
  end.

(** One iteration of the loop of [SplitInfos] over [invs] and [resources]. *)
Definition splitInfosStep (acc : list (option Info) * list (option Info))
    (info : option Info) : list (option Info) * list (option Info) :=
  match info with
  | None => acc
  | Some i =>
      match Object i with
      | None => acc
      | Some _ =>
          if IsInventoryObject (InfoToUnstructured info)
          then (fst acc ++ [info], snd acc)
          else (fst acc, snd acc ++ [info])
      end
  end.

(** [SplitInfos]: the inventory object, the remaining resources, the error. *)
Definition SplitInfos (infos : list (option Info))
  : option Info * list (option Info) * option error :=
  let '(invs, resources) := fold_left splitInfosStep infos ([], []) in
  if (length invs =? 0)%nat then
    (None, resources, Some NoInventoryObjError)
  else if (1 <? length invs)%nat then
    let invObjs := fold_left (fun invObjs inv => invObjs ++ [InfoToUnstructured inv]) invs [] in
    (None, resources, Some (MultipleInventoryObjError invObjs))
  else
    (mjoin (head invs), resources, None).

(** One iteration of the loop of [SplitUnstructureds]. *)
Definition splitUnstructuredsStep
    (acc : list (option Unstructured) * list (option Unstructured))
    (obj : option Unstructured) : list (option Unstructured) * list (option Unstructured) :=
  if IsInventoryObject obj
  then (fst acc ++ [obj], snd acc)
  else (fst acc, snd acc ++ [obj]).

(** [SplitUnstructureds]: the same split over unstructured objects. *)
Definition SplitUnstructureds (objs : list (option Unstructured))
  : option Unstructured * list (option Unstructured) * option error :=
  let '(invs, resources) := fold_left splitUnstructuredsStep objs ([], []) in
  if (length invs =? 0)%nat then
    (None, resources, Some NoInventoryObjError)
  else if (1 <? length invs)%nat then
    (None, resources, Some (MultipleInventoryObjError invs))
  else
    (mjoin (head invs), resources, None).

End WithLabel.

(** [addSuffixToName]: adds ["-" + suffix] to the name of the object and of the
    info.  The result holds the struct behind [info] after the call and the
    error returned.  With a nil [info.Object] the accessor is nil and the call
    of [GetName] on it panics. *)
Definition addSuffixToName (info : option Info) (suffix : string)
  : result (option Info * option error) :=
  match info with
  | None => Ok (None, Some (Errorf "nil resource.Info"))
  | Some i =>
      let suffix := TrimSpace suffix in
      if (String.length suffix =? 0)%nat then
        Ok (info, Some (Errorf "passed empty suffix"))
      else
        match Object i with
        | None =>
            Panic "runtime error: invalid memory address or nil pointer dereference"
        | Some obj =>
            let name := uName obj in
            if negb (String.eqb name (Name i)) then
              Ok (info,
                  Some (Errorf (Sprintf
                    "inventory object (%s) and resource.Info (%s) have different names"
                    [ArgStr name; ArgStr (Name i)])))
            else
              let suffix := "-" +:+ suffix in
              if HasSuffix name suffix then
                Ok (info, Some (Errorf (Sprintf "name already has suffix: %s" [ArgStr name])))
              else
                let name := name +:+ suffix in
                Ok (Some {| Namespace := Namespace i; Name := name; Source := Source i;
                            Object := Some (SetName obj name) |},
                    None)
        end
  end.

(** [fixLegacyInventoryName]: adds a random suffix to the legacy default name.
    [randomSuffix] is what [common.RandomStr(time.Now().UTC().UnixNano())]
    returns in this call. *)
Definition fixLegacyInventoryName (randomSuffix : string) (info : option Info)
  : result (option Info * option error) :=
  match info with
  | None => Ok (info, Some (Errorf "invalid inventory object is nil or info.Object is nil"))
  | Some i =>
      match Object i with
      | None => Ok (info, Some (Errorf "invalid inventory object is nil or info.Object is nil"))
      | Some obj =>
          let name := uName obj in
          if String.eqb (Name i) legacyInvName || String.eqb name legacyInvName then
            addSuffixToName info randomSuffix
          else
            Ok (info, None)
      end
  end.

End Inventory.

(** ** Events *)

Module Event.
Import GoStrings Objects.

(** Modelled from the spec: the [event] package is not among the sources.  The
    type of an event, a Go [int] enum, is declared as one of Init, Apply,
    Status, Prune, Delete, Error; [EventTypeUndeclared n] is an [int] that is
    none of the declared values. *)
Inductive EventType : Type :=
| InitType | ApplyType | StatusType | PruneType | DeleteType | ErrorType
| EventTypeUndeclared (n : Z).

(** Modelled from the spec: the operation of an apply event, a Go [int]
    enum.  The printer names ServersideApplied, Created, Unchanged and
    Configured; the data model of the spec lists Failed as well, a constant
    that these sources name in an e2e test only.  [ApplyOpUndeclared n] is
    an [int] that is none of these constants. *)
Inductive ApplyEventOperation : Type :=
| ServersideApplied | Created | Unchanged | Configured | Failed
| ApplyOpUndeclared (n : Z).

(** Modelled from the spec: the operation of a prune event, declared as Pruned,
    PruneSkipped; [PruneOpUndeclared n] is any other [int]. *)
Inductive PruneEventOperation : Type :=
| Pruned | PruneSkipped
| PruneOpUndeclared (n : Z).

(** Modelled from the spec: the operation of a delete event, declared as
    Deleted, DeleteSkipped; [DeleteOpUndeclared n] is any other [int]. *)
Inductive DeleteEventOperation : Type :=
| Deleted | DeleteSkipped
| DeleteOpUndeclared (n : Z).

(** A value of the enum is declared when it is one of its named constants. *)
Definition declaredPruneOp (op : PruneEventOperation) : bool :=
  match op with PruneOpUndeclared _ => false | _ => true end.

(** [op.String()] as [stringer] generates it. *)
Definition ApplyEventOperation_String (op : ApplyEventOperation) : string :=
  match op with
  | ServersideApplied => "ServersideApplied"
  | Created => "Created"
  | Unchanged => "Unchanged"
  | Configured => "Configured"
  | Failed => "Failed"
  | ApplyOpUndeclared n => "ApplyEventOperation(" +:+ showInt n +:+ ")"
  end.

Definition PruneEventOperation_String (op : PruneEventOperation) : string :=
  match op with
  | Pruned => "Pruned"
  | PruneSkipped => "PruneSkipped"
  | PruneOpUndeclared n => "PruneEventOperation(" +:+ showInt n +:+ ")"
  end.

(** Modelled from the spec: each variant is a terminal phase-completed marker
    or a per-object resource update; the last constructor of each type is an
    [int] that is neither. *)
Inductive ApplyEventType : Type :=
| ApplyEventResourceUpdate | ApplyEventCompleted | ApplyEventTypeUndeclared (n : Z).

Inductive PruneEventType : Type :=
| PruneEventResourceUpdate | PruneEventCompleted | PruneEventTypeUndeclared (n : Z).

Inductive DeleteEventType : Type :=
| DeleteEventResourceUpdate | DeleteEventCompleted | DeleteEventTypeUndeclared (n : Z).

(** Modelled from the spec: [object.ObjMetadata], the identity (group, kind,
    namespace, name) of an object; the sources read [GroupKind] and [Name]. *)
Record ObjMetadata : Type := {
  idGroup : string;
  idKind : string;
  idNamespace : string;
  idName : string
}.

#[global] Instance ObjMetadata_eq_dec : EqDecision ObjMetadata.
Proof. solve_decision. Defined.

#[global] Instance ObjMetadata_countable : Countable ObjMetadata.
Proof.
  refine (inj_countable'
            (fun id => (idGroup id, idKind id, idNamespace id, idName id))
            (fun t => let '(g, k, ns, n) := t in
                      {| idGroup := g; idKind := k; idNamespace := ns; idName := n |}) _).
  intros []; reflexivity.
Defined.

(** Modelled from the spec: the status evaluator's condition of an object. *)
Inductive Status : Type := InProgress | Current | StatusFailed | Unknown.

Definition Status_String (s : Status) : string :=
  match s with
  | InProgress => "InProgress"
  | Current => "Current"
  | StatusFailed => "Failed"
  | Unknown => "Unknown"
  end.

(** Modelled from the spec: the events of the status poller ([pollevent]), an
    update of one resource, an error, or the end of polling;
    [PollEventTypeUndeclared n] is an [int] that is none of them. *)
Inductive PollEventType : Type :=
| ResourceUpdateEvent | PollErrorEvent | CompletedEvent | AbortedEvent
| PollEventTypeUndeclared (n : Z).

(** [se.Resource]: the identifier, the condition and the human message. *)
Record ResourceStatus : Type := {
  Identifier : ObjMetadata;
  rsStatus : Status;
  Message : string
}.

(** [pollevent.Event], declared outside these sources, with the fields that
    the sources read.  [se.Resource] is a pointer, nil when [seResource] is
    [None]; [se.Error] is an error, nil when [seError] is [None] and else the
    text that [se.Error.Error()] returns. *)
Record StatusEvent : Type := {
  seEventType : PollEventType;
  seResource : option ResourceStatus;
  seError : option string
}.

Record ApplyEvent : Type := {
  aeType : ApplyEventType;
  aeOperation : ApplyEventOperation;
  aeObject : option Unstructured
}.

Record PruneEvent : Type := {
  peType : PruneEventType;
  peOperation : PruneEventOperation;
  peObject : option Unstructured
}.

Record DeleteEvent : Type := {
  deType : DeleteEventType;
  deOperation : DeleteEventOperation;
  deObject : option Unstructured
}.

Record ErrorEvent : Type := { Err : option error }.

(** [event.Event], declared outside these sources, with the fields that the
    sources read and write: a Go struct with the type of the event and one
    field for each kind of event; the fields of the other kinds hold zero
    values. *)
Record Event : Type := {
  eType : EventType;
  eApplyEvent : ApplyEvent;
  eStatusEvent : StatusEvent;
  ePruneEvent : PruneEvent;
  eDeleteEvent : DeleteEvent;
  eErrorEvent : ErrorEvent
}.

(** Zero values of the structs.  An enum's zero value is taken to be its first
    declared constant, as with Go's [iota]; an object or error is nil. *)
Definition zeroObjMetadata : ObjMetadata :=
  {| idGroup := ""; idKind := ""; idNamespace := ""; idName := "" |}.

Definition zeroStatusEvent : StatusEvent :=
  {| seEventType := ResourceUpdateEvent; seResource := None; seError := None |}.

Definition zeroApplyEvent : ApplyEvent :=
  {| aeType := ApplyEventResourceUpdate; aeOperation := ServersideApplied; aeObject := None |}.

Definition zeroPruneEvent : PruneEvent :=
  {| peType := PruneEventResourceUpdate; peOperation := Pruned; peObject := None |}.

Definition zeroDeleteEvent : DeleteEvent :=
  {| deType := DeleteEventResourceUpdate; deOperation := Deleted; deObject := None |}.

Definition zeroErrorEvent : ErrorEvent := {| Err := None |}.

(** [event.Event{Type: event.ErrorType, ErrorEvent: event.ErrorEvent{Err: err}}]. *)
Definition mkErrorEvent (err : option error) : Event :=
  {| eType := ErrorType; eApplyEvent := zeroApplyEvent; eStatusEvent := zeroStatusEvent;
     ePruneEvent := zeroPruneEvent; eDeleteEvent := zeroDeleteEvent;
     eErrorEvent := {| Err := err |} |}.

(** [event.Event{Type: event.DeleteType, DeleteEvent: de}]. *)
Definition mkDeleteEvent (de : DeleteEvent) : Event :=
  {| eType := DeleteType; eApplyEvent := zeroApplyEvent; eStatusEvent := zeroStatusEvent;
     ePruneEvent := zeroPruneEvent; eDeleteEvent := de; eErrorEvent := zeroErrorEvent |}.

(** [event.Event{Type: event.PruneType, PruneEvent: pe}]. *)
Definition mkPruneEvent (pe : PruneEvent) : Event :=
  {| eType := PruneType; eApplyEvent := zeroApplyEvent; eStatusEvent := zeroStatusEvent;
     ePruneEvent := pe; eDeleteEvent := zeroDeleteEvent; eErrorEvent := zeroErrorEvent |}.

(** [event.Event{Type: event.ApplyType, ApplyEvent: ae}]. *)
Definition mkApplyEvent (ae : ApplyEvent) : Event :=
  {| eType := ApplyType; eApplyEvent := ae; eStatusEvent := zeroStatusEvent;
     ePruneEvent := zeroPruneEvent; eDeleteEvent := zeroDeleteEvent;
     eErrorEvent := zeroErrorEvent |}.

(** [event.Event{Type: event.StatusType, StatusEvent: se}]. *)
Definition mkStatusEvent (se : StatusEvent) : Event :=
  {| eType := StatusType; eApplyEvent := zeroApplyEvent; eStatusEvent := se;
     ePruneEvent := zeroPruneEvent; eDeleteEvent := zeroDeleteEvent;
     eErrorEvent := zeroErrorEvent |}.

(** Modelled from the spec: the dry-run strategy, one of None, ClientOnly,
    ServerSide ([common.DryRunStrategy]). *)
Inductive DryRunStrategy : Type := DryRunNone | DryRunClient | DryRunServer.

Definition ClientDryRun (s : DryRunStrategy) : bool :=
  match s with DryRunClient => true | _ => false end.

Definition ServerDryRun (s : DryRunStrategy) : bool :=
  match s with DryRunServer => true | _ => false end.

End Event.

(** ** The basic printer *)

Module Printer.
Import GoStrings Objects Event.

(** A Go [int] after an arithmetic operation: 64-bit two's complement. *)
Definition wrapInt (z : Z) : Z := (z + 2 ^ 63) mod 2 ^ 64 - 2 ^ 63.

Definition intAdd (a b : Z) : Z := wrapInt (a + b).

Record applyStats : Type := {
  serversideApplied : Z;
  created : Z;
  unchanged : Z;
  configured : Z
}.

(** [applyStats.inc]: one more resource with the given operation. *)
Definition inc (a : applyStats) (op : ApplyEventOperation) : result applyStats :=
  match op with
  | ServersideApplied =>
      Ok {| serversideApplied := intAdd (serversideApplied a) 1; created := created a;
            unchanged := unchanged a; configured := configured a |}
  | Created =>
      Ok {| serversideApplied := serversideApplied a; created := intAdd (created a) 1;
            unchanged := unchanged a; configured := configured a |}
  | Unchanged =>
      Ok {| serversideApplied := serversideApplied a; created := created a;
            unchanged := intAdd (unchanged a) 1; configured := configured a |}
  | Configured =>
      Ok {| serversideApplied := serversideApplied a; created := created a;
            unchanged := unchanged a; configured := intAdd (configured a) 1 |}
  | _ => Panic (Sprintf "unknown apply operation %s" [ArgStr (ApplyEventOperation_String op)])
  end.

(** [applyStats.sum]. *)
Definition sum (a : applyStats) : Z :=
  intAdd (intAdd (intAdd (serversideApplied a) (configured a)) (unchanged a)) (created a).

Record pruneStats : Type := { pruned : Z; skipped : Z }.

Definition incPruned (p : pruneStats) : pruneStats :=
  {| pruned := intAdd (pruned p) 1; skipped := skipped p |}.

Definition incSkipped (p : pruneStats) : pruneStats :=
  {| pruned := pruned p; skipped := intAdd (skipped p) 1 |}.

Record deleteStats : Type := { deleted : Z; dskipped : Z }.

Definition incDeleted (d : deleteStats) : deleteStats :=
  {| deleted := intAdd (deleted d) 1; dskipped := dskipped d |}.

Definition incDeleteSkipped (d : deleteStats) : deleteStats :=
  {| deleted := deleted d; dskipped := intAdd (dskipped d) 1 |}.

Record statusCollector : Type := {
  latestStatus : gmap ObjMetadata StatusEvent;
  printStatus : bool
}.

Definition updateStatus (sc : statusCollector) (id : ObjMetadata) (se : StatusEvent)
  : statusCollector :=
  {| latestStatus := <[id := se]> (latestStatus sc); printStatus := printStatus sc |}.

Definition setPrintStatus (sc : statusCollector) (b : bool) : statusCollector :=
  {| latestStatus := latestStatus sc; printStatus := b |}.

(** What has been written to [IOStreams.Out], one entry for each write. *)
Definition output : Type := list string.

(** A [printFunc] writes one formatted line to the output. *)
Definition printFunc : Type := string -> list fmtArg -> output -> output.

Definition newline : string := String (ascii_of_nat 10) EmptyString.

(** [getPrintFunc]: the format gets a mark in a dry run, and a line end. *)
Definition getPrintFunc (previewStrategy : DryRunStrategy) : printFunc :=
  fun format a out =>
    let format :=
      if ClientDryRun previewStrategy then format +:+ " (preview)"
      else if ServerDryRun previewStrategy then format +:+ " (preview-server)"
      else format in
    out ++ [Sprintf (format +:+ newline) a].

(** [schema.GroupKind.String]. *)
Definition GroupKind_String (group kind : string) : string :=
  if (String.length group =? 0)%nat then kind else kind +:+ "." +:+ group.

(** [getName]: the name of the object, or a placeholder without one. *)
Definition getName (obj : option Unstructured) : string :=
  match obj with
  | Some o => if (0 <? String.length (uName o))%nat then uName o else "<unknown>"
  | None => "<unknown>"
  end.

(** [resourceIDToString]. *)
Definition resourceIDToString (group kind name : string) : string :=
  Sprintf "%s/%s" [ArgStr (ToLower (GroupKind_String group kind)); ArgStr name].

(** The panic of a method call on a nil object, or of a read through a nil
    pointer. *)
Definition nilDereference : string :=
  "runtime error: invalid memory address or nil pointer dereference".

(** [printResourceStatus]: it reads the status and the message through
    [se.Resource]. *)
Definition printResourceStatus (id : ObjMetadata) (se : StatusEvent) (p : printFunc)
    (out : output) : result output :=
  match seResource se with
  | None => Panic nilDereference
  | Some r =>
      Ok (p "%s is %s: %s"
            [ArgStr (resourceIDToString (idGroup id) (idKind id) (idName id));
             ArgStr (Status_String (rsStatus r));
             ArgStr (Message r)] out)
  end.

(** [for id, se := range c.latestStatus { printResourceStatus(id, se, p) }]
    over the entries of the map in the order [l]. *)
Fixpoint printLatestStatus (l : list (ObjMetadata * StatusEvent)) (p : printFunc)
    (out : output) : result output :=
  match l with
  | [] => Ok out
  | kv :: rest =>
      out <-! printResourceStatus (fst kv) (snd kv) p out ;;
      printLatestStatus rest p out
  end.

(** [processApplyEvent].  The loop over [latestStatus] visits the map in the
    order of [map_to_list]; Go leaves the order of a map's keys open. *)
Definition processApplyEvent (ae : ApplyEvent) (a : applyStats) (c : statusCollector)
    (p : printFunc) (out : output) : result (applyStats * statusCollector * output) :=
  match aeType ae with
  | ApplyEventCompleted =>
      let output :=
        Sprintf "%d resource(s) applied. %d created, %d unchanged, %d configured"
                [ArgInt (sum a); ArgInt (created a); ArgInt (unchanged a);
                 ArgInt (configured a)] in
      let output :=
        if 0 <? serversideApplied a
        then output +:+ Sprintf ", %d serverside applied" [ArgInt (serversideApplied a)]
        else output in
      let out := p output [] out in
      let c := setPrintStatus c true in
      out <-! printLatestStatus (map_to_list (latestStatus c)) p out ;;
      Ok (a, c, out)
  | ApplyEventResourceUpdate =>
      match aeObject ae with
      | None => Panic nilDereference
      | Some obj =>
          let name := getName (aeObject ae) in
          a' <-! inc a (aeOperation ae) ;;
          Ok (a', c,
              p "%s %s"
                [ArgStr (resourceIDToString (uGroup obj) (uKind obj) name);
                 ArgStr (ToLower (ApplyEventOperation_String (aeOperation ae)))] out)
      end
  | ApplyEventTypeUndeclared _ => Ok (a, c, out)
  end.

(** [processStatusEvent]: an update and an error read the identifier through
    [se.Resource], and an error calls [se.Error.Error()]. *)
Definition processStatusEvent (se : StatusEvent) (sc : statusCollector) (p : printFunc)
    (out : output) : result (statusCollector * output) :=
  match seEventType se with
  | ResourceUpdateEvent =>
      match seResource se with
      | None => Panic nilDereference
      | Some r =>
          let id := Identifier r in
          let sc := updateStatus sc id se in
          if printStatus sc
          then out <-! printResourceStatus id se p out ;; Ok (sc, out)
          else Ok (sc, out)
      end
  | PollErrorEvent =>
      match seResource se with
      | None => Panic nilDereference
      | Some r =>
          let id := Identifier r in
          match seError se with
          | None => Panic nilDereference
          | Some msg =>
              Ok (sc, p ("%s error: %s" +:+ newline)
                        [ArgStr (resourceIDToString (idGroup id) (idKind id) (idName id));
                         ArgStr msg] out)
          end
      end
  | CompletedEvent =>
      Ok (setPrintStatus sc false, p "all resources has reached the Current status" [] out)
  | AbortedEvent =>
      Ok (setPrintStatus sc false, p "resources failed to the reached Current status" [] out)
  | PollEventTypeUndeclared _ => Ok (sc, out)
  end.

(** [processPruneEvent]. *)
Definition processPruneEvent (pe : PruneEvent) (ps : pruneStats) (p : printFunc)
    (out : output) : result (pruneStats * output) :=
  match peType pe with
  | PruneEventCompleted =>
      Ok (ps, p "%d resource(s) pruned, %d skipped"
                [ArgInt (pruned ps); ArgInt (skipped ps)] out)
  | PruneEventResourceUpdate =>
      match peObject pe with
      | None => Panic nilDereference
      | Some obj =>
          let name := getName (peObject pe) in
          match peOperation pe with
          | Pruned =>
              Ok (incPruned ps,
                  p "%s %s" [ArgStr (resourceIDToString (uGroup obj) (uKind obj) name);
                             ArgStr "pruned"] out)
          | PruneSkipped =>
              Ok (incSkipped ps,
                  p "%s %s" [ArgStr (resourceIDToString (uGroup obj) (uKind obj) name);
                             ArgStr "prune skipped"] out)
          | PruneOpUndeclared _ => Ok (ps, out)
          end
      end
  | PruneEventTypeUndeclared _ => Ok (ps, out)
  end.

(** [processDeleteEvent]. *)
Definition processDeleteEvent (de : DeleteEvent) (ds : deleteStats) (p : printFunc)
    (out : output) : result (deleteStats * output) :=
  match deType de with
  | DeleteEventCompleted =>
      Ok (ds, p "%d resource(s) deleted, %d skipped"
                [ArgInt (deleted ds); ArgInt (dskipped ds)] out)
  | DeleteEventResourceUpdate =>
      match deObject de with
      | None => Panic nilDereference
      | Some obj =>
          let name := getName (deObject de) in
          match deOperation de with
          | Deleted =>
              Ok (incDeleted ds,
                  p "%s %s" [ArgStr (resourceIDToString (uGroup obj) (uKind obj) name);
                             ArgStr "deleted"] out)
          | DeleteSkipped =>
              Ok (incDeleteSkipped ds,
                  p "%s %s" [ArgStr (resourceIDToString (uGroup obj) (uKind obj) name);
                             ArgStr "delete skipped"] out)
          | DeleteOpUndeclared _ => Ok (ds, out)
          end
      end
  | DeleteEventTypeUndeclared _ => Ok (ds, out)
  end.

(** The local variables of [Print] and the output written so far. *)
Record PrinterState : Type := {
  stApply : applyStats;
  stStatus : statusCollector;
  stPrune : pruneStats;
  stDelete : deleteStats;
  stOut : output
}.

Definition initialState : PrinterState :=
  {| stApply := {| serversideApplied := 0; created := 0; unchanged := 0; configured := 0 |};
     stStatus := {| latestStatus := ∅; printStatus := false |};
     stPrune := {| pruned := 0; skipped := 0 |};
     stDelete := {| deleted := 0; dskipped := 0 |};
     stOut := [] |}.

(** The body of the loop of [Print] for an event that is not an error event. *)
Definition processEvent (p : printFunc) (st : PrinterState) (e : Event)
  : result PrinterState :=
  match eType e with
  | ApplyType =>
      r <-! processApplyEvent (eApplyEvent e) (stApply st) (stStatus st) p (stOut st) ;;
      Ok {| stApply := fst (fst r); stStatus := snd (fst r); stPrune := stPrune st;
            stDelete := stDelete st; stOut := snd r |}
  | StatusType =>
      r <-! processStatusEvent (eStatusEvent e) (stStatus st) p (stOut st) ;;
      Ok {| stApply := stApply st; stStatus := fst r; stPrune := stPrune st;
            stDelete := stDelete st; stOut := snd r |}
  | PruneType =>
      r <-! processPruneEvent (ePruneEvent e) (stPrune st) p (stOut st) ;;
      Ok {| stApply := stApply st; stStatus := stStatus st; stPrune := fst r;
            stDelete := stDelete st; stOut := snd r |}
  | DeleteType =>
      r <-! processDeleteEvent (eDeleteEvent e) (stDelete st) p (stOut st) ;;
      Ok {| stApply := stApply st; stStatus := stStatus st; stPrune := stPrune st;
            stDelete := fst r; stOut := snd r |}
  | InitType | ErrorType | EventTypeUndeclared _ => Ok st
  end.

(** How a call of [Print] ends: what it returns (or its panic), the state it
    has reached (at a panic, the state before the event that panicked), and
    the events of the channel it has not received. *)
Record PrintOutcome : Type := {
  returned : result (option error);
  final : PrinterState;
  unconsumed : list Event
}.

(** [for e := range ch] over the events the channel delivers before it is
    closed. *)
Fixpoint printLoop (p : printFunc) (st : PrinterState) (ch : list Event) : PrintOutcome :=
  match ch with
  | [] => {| returned := Ok None; final := st; unconsumed := [] |}
  | e :: rest =>
      match eType e with
      | ErrorType =>
          {| returned := Ok (Err (eErrorEvent e)); final := st; unconsumed := rest |}
      | _ =>
          match processEvent p st e with
          | Ok st' => printLoop p st' rest
          | Panic msg => {| returned := Panic msg; final := st; unconsumed := rest |}
          end
      end
  end.

(** [BasicPrinter.Print]. *)
Definition Print (ch : list Event) (previewStrategy : DryRunStrategy) : PrintOutcome :=
  printLoop (getPrintFunc previewStrategy) initialState ch.

End Printer.

(** ** The Destroyer *)

Module Destroy.
Import GoStrings Objects Event.

(** [transformPruneOperation]. *)
Definition transformPruneOperation (pruneOp : PruneEventOperation)
  : result DeleteEventOperation :=
  match pruneOp with
  | PruneSkipped => Ok DeleteSkipped
  | Pruned => Ok Deleted
  | _ => Panic (Sprintf "unknown prune operation %s" [ArgStr (PruneEventOperation_String pruneOp)])
  end.

(** The event that the goroutine of [runPruneEventTransformer] sends on
    [eventChannel] for a message of [tempEventChannel]. *)
Definition transformEvent (msg : Event) : result Event :=
  op <-! transformPruneOperation (peOperation (ePruneEvent msg)) ;;
  Ok (mkDeleteEvent {| deType := DeleteEventResourceUpdate;
                       deOperation := op;
                       deObject := peObject (ePruneEvent msg) |}).

(** [prune.Options]. *)
Record Options : Type := {
  optDryRunStrategy : DryRunStrategy;
  PropagationPolicy : string
}.

(** [metav1.DeletePropagationBackground]. *)
Definition DeletePropagationBackground : string := "Background".

(** The Destroyer: its dry-run strategy and what its collaborators do in this
    run.  [GetObjects] is the result of [d.ApplyOptions.GetObjects()]; [Prune]
    gives, for the infos and options passed to [d.PruneOptions.Prune], the
    events that the call sends on its channel, in order, and the error it
    returns; [DeleteInventoryObj] is the error that
    [d.invClient.DeleteInventoryObj] returns. *)
Record Destroyer : Type := {
  DryRunStrategy_ : DryRunStrategy;
  GetObjects : list (option Info) * option error;
  Prune : list (option Info) -> Options -> list Event * option error;
  DeleteInventoryObj : option Info -> option error
}.

(** The calls of the collaborators, as the goroutine of [Run] makes them. *)
Inductive Call : Type :=
| CallSetDryRunStrategy (s : DryRunStrategy)
| CallGetObjects
| CallPrune (infos : list (option Info)) (o : Options)
| CallDeleteInventoryObj (inv : option Info) (res : option error).

(** Where the goroutine of [Run] stands. *)
Inductive MainPC : Type :=
| MStart
    (* nothing done yet *)
| MPruning (pending : list Event) (err : option error) (invInfo : option Info)
    (* inside [Prune]: the events it has still to send, the error it will return *)
| MAfterPrune (err : option error) (invInfo : option Info)
    (* [Prune] has returned; next, the inventory object is deleted *)
| MCloseTemp (err : option error)
    (* next: [close(tempChannel)] *)
| MWaitCompleted (err : option error)
    (* blocked in [<-completedChannel] *)
| MSend (e : Event)
    (* next: [ch <- e], the last statement before the goroutine returns *)
| MReturn
    (* returning: the deferred [close(ch)] is next *)
| MDone.

(** Where the goroutine of [runPruneEventTransformer] stands. *)
Inductive TransPC : Type :=
| TNotStarted
| TRecv
    (* blocked in [range tempEventChannel] *)
| TSend (msg : Event)
    (* has received [msg]; next: transform it and send it on [eventChannel] *)
| TPanicking (msg : string)
    (* a panic unwinds; the deferred [close(completedChannel)] has run *)
| TDone.

(** The state of a run.  [chEvents] are the events delivered on the channel
    that [Run] returns. *)
Record State : Type := {
  main : MainPC;
  trans : TransPC;
  tempClosed : bool;
  completedClosed : bool;
  chEvents : list Event;
  chClosed : bool;
  calls : list Call;
  crashed : option string
}.

Definition initial : State :=
  {| main := MStart; trans := TNotStarted; tempClosed := false; completedClosed := false;
     chEvents := []; chClosed := false; calls := []; crashed := None |}.

Definition setMain (s : State) (m : MainPC) : State :=
  {| main := m; trans := trans s; tempClosed := tempClosed s;
     completedClosed := completedClosed s; chEvents := chEvents s;
     chClosed := chClosed s; calls := calls s; crashed := crashed s |}.

Definition setTrans (s : State) (t : TransPC) : State :=
  {| main := main s; trans := t; tempClosed := tempClosed s;
     completedClosed := completedClosed s; chEvents := chEvents s;
     chClosed := chClosed s; calls := calls s; crashed := crashed s |}.

Definition addCalls (s : State) (cs : list Call) : State :=
  {| main := main s; trans := trans s; tempClosed := tempClosed s;
     completedClosed := completedClosed s; chEvents := chEvents s;
     chClosed := chClosed s; calls := calls s ++ cs; crashed := crashed s |}.

(** [ch <- e], received by the reader of the channel. *)
Definition deliver (s : State) (e : Event) : State :=
  {| main := main s; trans := trans s; tempClosed := tempClosed s;
     completedClosed := completedClosed s; chEvents := chEvents s ++ [e];
     chClosed := chClosed s; calls := calls s; crashed := crashed s |}.

Definition closeTemp (s : State) : State :=
  {| main := main s; trans := trans s; tempClosed := true;
     completedClosed := completedClosed s; chEvents := chEvents s;
     chClosed := chClosed s; calls := calls s; crashed := crashed s |}.

Definition closeCompleted (s : State) : State :=
  {| main := main s; trans := trans s; tempClosed := tempClosed s;
     completedClosed := true; chEvents := chEvents s;
     chClosed := chClosed s; calls := calls s; crashed := crashed s |}.

Definition closeCh (s : State) : State :=
  {| main := main s; trans := trans s; tempClosed := tempClosed s;
     completedClosed := completedClosed s; chEvents := chEvents s;
     chClosed := true; calls := calls s; crashed := crashed s |}.

Definition crash (s : State) (msg : string) : State :=
  {| main := main s; trans := trans s; tempClosed := tempClosed s;
     completedClosed := completedClosed s; chEvents := chEvents s;
     chClosed := chClosed s; calls := calls s; crashed := Some msg |}.

(** The event that ends a run whose pruning returned [err]. *)
Definition lastEvent (err : option error) : Event :=
  match err with
  | Some e => mkErrorEvent (Some (WrapPrefix e "error pruning resources"))
  | None => mkDeleteEvent {| deType := DeleteEventCompleted;
                             deOperation := deOperation zeroDeleteEvent;
                             deObject := None |}
  end.

Section Run.

Variable InventoryLabel : string.
Variable d : Destroyer.

(** The goroutine of [Run] from its start to its first channel operation:
    it reads the objects, splits off the inventory object, starts the event
    transformer and calls [Prune]. *)
Definition start (s : State) : State :=
  let s := addCalls s [CallSetDryRunStrategy (DryRunStrategy_ d); CallGetObjects] in
  match GetObjects d with
  | (_, Some err) =>
      setMain s (MSend (mkErrorEvent (Some (WrapPrefix err "error reading resource manifests"))))
  | (infos, None) =>
      match Inventory.SplitInfos InventoryLabel infos with
      | (_, _, Some err) =>
          setMain s (MSend (mkErrorEvent (Some (WrapPrefix err "error clearing inventory object"))))
      | (invInfo, _, None) =>
          let infos := [invInfo] in
          let o := {| optDryRunStrategy := DryRunStrategy_ d;
                      PropagationPolicy := DeletePropagationBackground |} in
          let '(events, err) := Prune d infos o in
          setMain (setTrans (addCalls s [CallPrune infos o]) TRecv)
                  (MPruning events err invInfo)
      end
  end.

(** One step of the goroutine of [Run]; [None] when it is blocked or done. *)
Definition stepMain (s : State) : option State :=
  match main s with
  | MStart => Some (start s)
  | MPruning (msg :: pending) err invInfo =>
      (* [Prune] sends on the unbuffered [tempChannel]: the transformer receives *)
      match trans s with
      | TRecv => Some (setMain (setTrans s (TSend msg)) (MPruning pending err invInfo))
      | _ => None
      end
  | MPruning [] err invInfo => Some (setMain s (MAfterPrune err invInfo))
  | MAfterPrune err invInfo =>
      match invInfo with
      | Some _ =>
          Some (setMain (addCalls s [CallDeleteInventoryObj invInfo
                                       (DeleteInventoryObj d invInfo)])
                        (MCloseTemp err))
      | None => Some (setMain s (MCloseTemp err))
      end
  | MCloseTemp err => Some (setMain (closeTemp s) (MWaitCompleted err))
  | MWaitCompleted err =>
      if completedClosed s then Some (setMain s (MSend (lastEvent err))) else None
  | MSend e => Some (setMain (deliver s e) MReturn)
  | MReturn => Some (setMain (closeCh s) MDone)
  | MDone => None
  end.

(** One step of the goroutine of the event transformer. *)
Definition stepTrans (s : State) : option State :=
  match trans s with
  | TNotStarted => None
  | TRecv =>
      (* the loop ends when [tempEventChannel] is closed; then the deferred
         [close(completedChannel)] runs *)
      if tempClosed s then Some (setTrans (closeCompleted s) TDone) else None
  | TSend msg =>
      match transformEvent msg with
      | Ok e => Some (setTrans (deliver s e) TRecv)
      | Panic m => Some (setTrans (closeCompleted s) (TPanicking m))
      end
  | TPanicking m => Some (crash s m)
  | TDone => None
  end.

(** The goroutines of a run. *)
Inductive Goroutine : Type := GMain | GTransformer.

(** The goroutine [g] takes a step when it can; a process that has crashed
    takes no step. *)
Definition step (g : Goroutine) (s : State) : State :=
  match crashed s with
  | Some _ => s
  | None =>
      match g with
      | GMain => default s (stepMain s)
      | GTransformer => default s (stepTrans s)
      end
  end.

(** The state after the goroutines have run in the order of the schedule. *)
Definition exec (schedule : list Goroutine) (s : State) : State :=
  fold_left (fun s g => step g s) schedule s.

(** [Run] under a schedule: the state reached from the start of the run. *)
Definition Run (schedule : list Goroutine) : State := exec schedule initial.

End Run.

End Destroy.

(** * Properties *)

(** ** Strings *)

Section StringFacts.
Import GoStrings.

Lemma length_zero_iff_empty (s : string) :
  (String.length s =? 0)%nat = true <-> s = "".
Proof.
  destruct s as [|c s]; simpl; split; intros H; try reflexivity; discriminate H.
Qed.

Lemma length_pos_iff_nonempty (s : string) :
  (0 <? String.length s)%nat = true <-> s <> "".
Proof.
  destruct s as [|c s]; simpl; split; intros H; try discriminate H; try reflexivity.
  - contradiction H; reflexivity.
  - discriminate.
Qed.

Lemma length_append (s t : string) :
  String.length (s +:+ t) = (String.length s + String.length t)%nat.
Proof. induction s as [|c s IH]; simpl; [reflexivity | now rewrite IH]. Qed.

Lemma substring_all (t : string) : substring 0 (String.length t) t = t.
Proof. induction t as [|c t IH]; simpl; [reflexivity | now rewrite IH]. Qed.

Lemma substring_skip (s t : string) :
  substring (String.length s) (String.length t) (s +:+ t) = t.
Proof. induction s as [|c s IH]; simpl; [apply substring_all | exact IH]. Qed.

(** A string ends with what was appended to it. *)
Lemma HasSuffix_append (s t : string) : HasSuffix (s +:+ t) t = true.
Proof.
  unfold HasSuffix. rewrite length_append.
  replace (String.length s + String.length t - String.length t)%nat
    with (String.length s) by lia.
  rewrite substring_skip, String.eqb_refl, andb_true_r.
  apply Nat.leb_le. lia.
Qed.

(** A suffix is never longer than the string. *)
Lemma HasSuffix_length (s t : string) :
  HasSuffix s t = true -> (String.length t <= String.length s)%nat.
Proof.
  unfold HasSuffix. intros H. apply andb_true_iff in H as [H _].
  now apply Nat.leb_le in H.
Qed.

Lemma stripPrefix_append (p rest : string) : stripPrefix p (p +:+ rest) = Some rest.
Proof.
  induction p as [|c p IH]; simpl; [now destruct rest|].
  now rewrite Ascii.eqb_refl.
Qed.

(** A white space rune at the front of a string is dropped, whatever follows. *)
Lemma dropSpaceRune_space (p rest : string) :
  In p spaceEncodings -> dropSpaceRune (p +:+ rest) = Some rest.
Proof.
  intros Hin. unfold spaceEncodings in Hin. cbn in Hin.
  repeat (destruct Hin as [<-|Hin]; [reflexivity|]). destruct Hin.
Qed.

Fixpoint concatStrings (l : list string) : string :=
  match l with
  | [] => ""
  | x :: r => x +:+ concatStrings r
  end.

(** A string that consists of white space only: a sequence of white space
    runes (the empty string is one). *)
Definition onlySpace (s : string) : Prop :=
  exists runes, Forall (fun p => In p spaceEncodings) runes /\ s = concatStrings runes.

Lemma trimLeftLoop_spaces (runes : list string) (fuel : nat) :
  Forall (fun p => In p spaceEncodings) runes ->
  (length runes <= fuel)%nat ->
  trimLeftLoop fuel (concatStrings runes) = "".
Proof.
  intros Hall. revert fuel.
  induction Hall as [|p runes Hp _ IH]; intros fuel Hfuel.
  - destruct fuel; reflexivity.
  - destruct fuel as [|fuel]; [simpl in Hfuel; lia|].
    cbn [concatStrings trimLeftLoop]. rewrite (dropSpaceRune_space _ _ Hp).
    apply IH. simpl in Hfuel. lia.
Qed.

Lemma space_rune_length (p : string) :
  In p spaceEncodings -> (1 <= String.length p)%nat.
Proof.
  intros Hin. unfold spaceEncodings in Hin. cbn in Hin.
  repeat (destruct Hin as [<-|Hin]; [simpl; lia|]). destruct Hin.
Qed.

Lemma concatStrings_length (runes : list string) :
  Forall (fun p => In p spaceEncodings) runes ->
  (length runes <= String.length (concatStrings runes))%nat.
Proof.
  induction 1 as [|p runes Hp _ IH]; simpl; [lia|].
  rewrite length_append. apply space_rune_length in Hp. lia.
Qed.

(** Trimming a string of white space leaves nothing. *)
Lemma TrimSpace_onlySpace (s : string) : onlySpace s -> TrimSpace s = "".
Proof.
  intros (runes & Hall & ->). unfold TrimSpace, TrimLeftSpace.
  rewrite trimLeftLoop_spaces; [reflexivity | exact Hall |].
  now apply concatStrings_length.
Qed.

(** No suffix that starts with a dash ends the legacy name. *)
Lemma legacy_name_has_no_dash_suffix (t : string) :
  HasSuffix "inventory" ("-" +:+ t) = false.
Proof.
  do 9 (destruct t as [|? t]; [reflexivity|]). reflexivity.
Qed.

End StringFacts.

(** ** The split of the input objects *)

Section InventoryFacts.
Import GoStrings Objects Inventory.

Variable InventoryLabel : string.

(** An info that the split takes for an inventory object: it is not nil, it
    has an object, and the object is an inventory object. *)
Definition isMarkerInfo (info : option Info) : bool :=
  match info with
  | Some i => match Object i with
              | Some _ => IsInventoryObject InventoryLabel (Object i)
              | None => false
              end
  | None => false
  end.

(** An info that the split takes for a resource. *)
Definition isResourceInfo (info : option Info) : bool :=
  match info with
  | Some i => match Object i with
              | Some _ => negb (IsInventoryObject InventoryLabel (Object i))
              | None => false
              end
  | None => false
  end.

Definition isResourceObj (obj : option Unstructured) : bool :=
  negb (IsInventoryObject InventoryLabel obj).

Lemma splitInfosStep_filter (acc : list (option Info) * list (option Info))
    (info : option Info) :
  splitInfosStep InventoryLabel acc info =
  (fst acc ++ List.filter isMarkerInfo [info], snd acc ++ List.filter isResourceInfo [info]).
Proof.
  unfold splitInfosStep, isMarkerInfo, isResourceInfo, InfoToUnstructured.
  cbn [List.filter].
  destruct info as [i|]; [|now rewrite !app_nil_r; destruct acc].
  destruct (Object i) as [o|]; [|now rewrite !app_nil_r; destruct acc].
  destruct (IsInventoryObject InventoryLabel (Some o)); cbn [negb];
    now rewrite app_nil_r.
Qed.

Lemma splitInfos_loop (infos invs resources : list (option Info)) :
  fold_left (splitInfosStep InventoryLabel) infos (invs, resources) =
  (invs ++ List.filter isMarkerInfo infos, resources ++ List.filter isResourceInfo infos).
Proof.
  revert invs resources.
  induction infos as [|info infos IH]; intros invs resources; cbn [fold_left].
  - cbn [List.filter]. now rewrite !app_nil_r.
  - rewrite splitInfosStep_filter, IH. cbn [fst snd].
    change (info :: infos) with ([info] ++ infos).
    now rewrite !List.filter_app, !app_assoc.
Qed.

Lemma splitUnstructuredsStep_filter
    (acc : list (option Unstructured) * list (option Unstructured))
    (obj : option Unstructured) :
  splitUnstructuredsStep InventoryLabel acc obj =
  (fst acc ++ List.filter (IsInventoryObject InventoryLabel) [obj],
   snd acc ++ List.filter isResourceObj [obj]).
Proof.
  unfold splitUnstructuredsStep, isResourceObj. cbn [List.filter].
  destruct (IsInventoryObject InventoryLabel obj); cbn [negb]; now rewrite app_nil_r.
Qed.

Lemma splitUnstructureds_loop (objs invs resources : list (option Unstructured)) :
  fold_left (splitUnstructuredsStep InventoryLabel) objs (invs, resources) =
  (invs ++ List.filter (IsInventoryObject InventoryLabel) objs,
   resources ++ List.filter isResourceObj objs).
Proof.
  revert invs resources.
  induction objs as [|obj objs IH]; intros invs resources; cbn [fold_left].
  - cbn [List.filter]. now rewrite !app_nil_r.
  - rewrite splitUnstructuredsStep_filter, IH. cbn [fst snd].
    change (obj :: objs) with ([obj] ++ objs).
    now rewrite !List.filter_app, !app_assoc.
Qed.

Lemma append_loop {A B : Type} (f : A -> B) (l : list A) (acc : list B) :
  fold_left (fun acc x => acc ++ [f x]) l acc = acc ++ map f l.
Proof.
  revert acc. induction l as [|x l IH]; intros acc; simpl.
  - now rewrite app_nil_r.
  - now rewrite IH, <- app_assoc.
Qed.

(** [SplitInfos] in terms of the inventory objects and resources of its input. *)
Lemma SplitInfos_filter (infos : list (option Info)) :
  SplitInfos InventoryLabel infos =
  match List.filter isMarkerInfo infos with
  | [] => (None, List.filter isResourceInfo infos, Some NoInventoryObjError)
  | [m] => (m, List.filter isResourceInfo infos, None)
  | ms => (None, List.filter isResourceInfo infos,
           Some (MultipleInventoryObjError (map InfoToUnstructured ms)))
  end.
Proof.
  unfold SplitInfos. rewrite splitInfos_loop. cbn [app].
  destruct (List.filter isMarkerInfo infos) as [|m [|m' ms]]; try reflexivity.
  cbn [length Nat.eqb Nat.ltb Nat.leb]. rewrite append_loop. reflexivity.
Qed.

Lemma SplitUnstructureds_filter (objs : list (option Unstructured)) :
  SplitUnstructureds InventoryLabel objs =
  match List.filter (IsInventoryObject InventoryLabel) objs with
  | [] => (None, List.filter isResourceObj objs, Some NoInventoryObjError)
  | [m] => (m, List.filter isResourceObj objs, None)
  | ms => (None, List.filter isResourceObj objs, Some (MultipleInventoryObjError ms))
  end.
Proof.
  unfold SplitUnstructureds. rewrite splitUnstructureds_loop. cbn [app].
  destruct (List.filter (IsInventoryObject InventoryLabel) objs) as [|m [|m' ms]];
    reflexivity.
Qed.

(** C1. Split of a batch of objects: with exactly one inventory object the
    result is that object and all the resources of the batch, in their order,
    and no error; without an inventory object the error is
    NoInventoryObjError; with two or more the error is
    MultipleInventoryObjError and it carries every one of them.  This holds
    for [SplitInfos], where nil infos and infos without an object are passed
    over, and for [SplitUnstructureds]. *)
Theorem split_one_none_many
    (infos : list (option Info)) (objs : list (option Unstructured)) :
  let markers := List.filter isMarkerInfo infos in
  let resources := List.filter isResourceInfo infos in
  let umarkers := List.filter (IsInventoryObject InventoryLabel) objs in
  let uresources := List.filter isResourceObj objs in
  ((forall m, markers = [m] ->
      SplitInfos InventoryLabel infos = (m, resources, None) /\ m <> None)
   /\ (markers = [] ->
      SplitInfos InventoryLabel infos = (None, resources, Some NoInventoryObjError))
   /\ ((2 <= length markers)%nat ->
      SplitInfos InventoryLabel infos =
      (None, resources,
       Some (MultipleInventoryObjError (map InfoToUnstructured markers)))))
  /\
  ((forall m, umarkers = [m] ->
      SplitUnstructureds InventoryLabel objs = (m, uresources, None) /\ m <> None)
   /\ (umarkers = [] ->
      SplitUnstructureds InventoryLabel objs =
      (None, uresources, Some NoInventoryObjError))
   /\ ((2 <= length umarkers)%nat ->
      SplitUnstructureds InventoryLabel objs =
      (None, uresources, Some (MultipleInventoryObjError umarkers)))).
Proof.
  intros markers resources umarkers uresources. split.
  - pose proof (SplitInfos_filter infos) as H. fold markers resources in H.
    split; [|split].
    + intros m Hm. rewrite Hm in H. split; [exact H|].
      intros ->. assert (Hin : In None markers) by (rewrite Hm; now left).
      apply filter_In in Hin as [_ Hin]. discriminate Hin.
    + intros Hm. rewrite Hm in H. exact H.
    + intros Hlen. destruct markers as [|m [|m' ms]]; simpl in Hlen; try lia. exact H.
  - pose proof (SplitUnstructureds_filter objs) as H. fold umarkers uresources in H.
    split; [|split].
    + intros m Hm. rewrite Hm in H. split; [exact H|].
      intros ->. assert (Hin : In None umarkers) by (rewrite Hm; now left).
      apply filter_In in Hin as [_ Hin]. discriminate Hin.
    + intros Hm. rewrite Hm in H. exact H.
    + intros Hlen. destruct umarkers as [|m [|m' ms]]; simpl in Hlen; try lia. exact H.
Qed.

Lemma SplitInfos_resources (infos : list (option Info)) :
  snd (fst (SplitInfos InventoryLabel infos)) = List.filter isResourceInfo infos.
Proof.
  rewrite SplitInfos_filter.
  destruct (List.filter isMarkerInfo infos) as [|m [|m' ms]]; reflexivity.
Qed.

Lemma SplitUnstructureds_resources (objs : list (option Unstructured)) :
  snd (fst (SplitUnstructureds InventoryLabel objs)) = List.filter isResourceObj objs.
Proof.
  rewrite SplitUnstructureds_filter.
  destruct (List.filter (IsInventoryObject InventoryLabel) objs) as [|m [|m' ms]];
    reflexivity.
Qed.

(** The inventory object that a successful [SplitInfos] returns is not nil. *)
Lemma SplitInfos_ok_not_nil (infos resources : list (option Info)) (inv : option Info) :
  SplitInfos InventoryLabel infos = (inv, resources, None) -> inv <> None.
Proof.
  rewrite SplitInfos_filter.
  destruct (List.filter isMarkerInfo infos) as [|m [|m' ms]] eqn:Hm; intros H;
    try discriminate H.
  injection H as <- _. intros ->.
  assert (Hin : In None (List.filter isMarkerInfo infos)) by (rewrite Hm; now left).
  apply filter_In in Hin as [_ Hin]. discriminate Hin.
Qed.

Lemma IsInventoryObject_true (obj : option Unstructured) :
  IsInventoryObject InventoryLabel obj = true <->
  exists o v, obj = Some o /\ uLabels o !! InventoryLabel = Some v /\ TrimSpace v <> "".
Proof.
  unfold IsInventoryObject, retrieveInventoryLabel. split.
  - destruct obj as [o|]; [|discriminate].
    destruct (uLabels o !! InventoryLabel) as [v|] eqn:Hv; [|discriminate].
    intros H. apply length_pos_iff_nonempty in H. now exists o, v.
  - intros (o & v & -> & Hv & Hne). rewrite Hv.
    now apply length_pos_iff_nonempty.
Qed.

(** C9. An object is taken for the inventory object exactly when it is not
    nil and has the inventory label with a value that is not empty once
    trimmed.  An object whose label value is white space only is therefore no
    inventory object, and the split puts it among the resources. *)
Theorem inventory_object_iff_label_not_blank :
  (forall obj : option Unstructured,
     IsInventoryObject InventoryLabel obj = true <->
     exists o v, obj = Some o /\ uLabels o !! InventoryLabel = Some v /\ TrimSpace v <> "")
  /\
  (forall (o : Unstructured) (v : string),
     uLabels o !! InventoryLabel = Some v -> onlySpace v ->
     IsInventoryObject InventoryLabel (Some o) = false
     /\ (forall objs, In (Some o) objs ->
           In (Some o) (snd (fst (SplitUnstructureds InventoryLabel objs))))
     /\ (forall infos i, Object i = Some o -> In (Some i) infos ->
           In (Some i) (snd (fst (SplitInfos InventoryLabel infos))))).
Proof.
  split; [exact IsInventoryObject_true|].
  intros o v Hv Hblank.
  assert (Hno : IsInventoryObject InventoryLabel (Some o) = false).
  { destruct (IsInventoryObject InventoryLabel (Some o)) eqn:E; [|reflexivity].
    apply IsInventoryObject_true in E as (o' & v' & Ho & Hv' & Hne).
    injection Ho as <-. rewrite Hv in Hv'. injection Hv' as <-.
    contradiction Hne. now apply TrimSpace_onlySpace. }
  split; [exact Hno|]. split.
  - intros objs Hin. rewrite SplitUnstructureds_resources.
    apply filter_In. split; [exact Hin|]. unfold isResourceObj. now rewrite Hno.
  - intros infos i Hobj Hin. rewrite SplitInfos_resources.
    apply filter_In. split; [exact Hin|]. unfold isResourceInfo.
    rewrite Hobj. now rewrite Hno.
Qed.

End InventoryFacts.

(** ** The guard against the legacy inventory name *)

Section LegacyNameFacts.
Import GoStrings Objects Inventory.

(** The info [i] with object [obj], both under the name [name]. *)
Definition renamed (i : Info) (obj : Unstructured) (name : string) : Info :=
  {| Namespace := Namespace i; Name := name; Source := Source i;
     Object := Some (SetName obj name) |}.

Lemma addSuffixToName_empty (i : Info) (suffix : string) :
  TrimSpace suffix = "" ->
  addSuffixToName (Some i) suffix = Ok (Some i, Some (Errorf "passed empty suffix")).
Proof. intros H. unfold addSuffixToName. rewrite H. reflexivity. Qed.

Lemma addSuffixToName_has_suffix (i : Info) (obj : Unstructured) (suffix : string) :
  Object i = Some obj -> uName obj = Name i ->
  TrimSpace suffix <> "" ->
  HasSuffix (Name i) ("-" +:+ TrimSpace suffix) = true ->
  addSuffixToName (Some i) suffix =
  Ok (Some i, Some (Errorf (Sprintf "name already has suffix: %s" [ArgStr (Name i)]))).
Proof.
  intros Hobj Hname Hne Hsuf. unfold addSuffixToName.
  destruct (String.length (TrimSpace suffix) =? 0)%nat eqn:E.
  - apply length_zero_iff_empty in E. contradiction.
  - rewrite Hobj, Hname, String.eqb_refl. cbn [negb]. rewrite Hsuf. reflexivity.
Qed.

Lemma addSuffixToName_appends (i : Info) (obj : Unstructured) (suffix : string) :
  Object i = Some obj -> uName obj = Name i ->
  TrimSpace suffix <> "" ->
  HasSuffix (Name i) ("-" +:+ TrimSpace suffix) = false ->
  addSuffixToName (Some i) suffix =
  Ok (Some (renamed i obj (Name i +:+ "-" +:+ TrimSpace suffix)), None).
Proof.
  intros Hobj Hname Hne Hsuf. unfold addSuffixToName.
  destruct (String.length (TrimSpace suffix) =? 0)%nat eqn:E.
  - apply length_zero_iff_empty in E. contradiction.
  - rewrite Hobj, Hname, String.eqb_refl. cbn [negb]. rewrite Hsuf. reflexivity.
Qed.

Lemma fixLegacyInventoryName_other (suffix : string) (i : Info) (obj : Unstructured) :
  Object i = Some obj ->
  Name i <> legacyInvName -> uName obj <> legacyInvName ->
  fixLegacyInventoryName suffix (Some i) = Ok (Some i, None).
Proof.
  intros Hobj Hi Ho. unfold fixLegacyInventoryName. rewrite Hobj.
  destruct (String.eqb_spec (Name i) legacyInvName) as [E|_]; [contradiction|].
  destruct (String.eqb_spec (uName obj) legacyInvName) as [E|_]; [contradiction|].
  reflexivity.
Qed.

Lemma suffixed_name_not_legacy (t : string) : legacyInvName +:+ "-" +:+ t <> legacyInvName.
Proof. unfold legacyInvName. simpl. discriminate. Qed.

Lemma addSuffixToName_suffix_present (i : Info) (obj : Unstructured) (suffix : string) :
  Object i = Some obj ->
  TrimSpace suffix <> "" ->
  HasSuffix (uName obj) ("-" +:+ TrimSpace suffix) = true ->
  exists err, addSuffixToName (Some i) suffix = Ok (Some i, Some err).
Proof.
  intros Hobj Hne Hsuf. unfold addSuffixToName.
  destruct (String.length (TrimSpace suffix) =? 0)%nat eqn:E.
  - apply length_zero_iff_empty in E. contradiction.
  - rewrite Hobj. destruct (negb (uName obj =? Name i)%string); [eexists; reflexivity|].
    rewrite Hsuf. eexists; reflexivity.
Qed.

(** C5. For an inventory object under the legacy default name and a random
    suffix that is not blank, [fixLegacyInventoryName] appends a dash and the
    trimmed suffix to the name, once: the guard leaves the new name alone, and
    adding the same suffix again is an error.  Adding a suffix to a name that
    ends with it and adding a blank suffix are errors; both leave the info and
    its object as they were. *)
Theorem legacy_name_gets_suffix_once
    (i : Info) (obj : Unstructured) (suffix : string)
    (Hobj : Object i = Some obj) :
  (Name i = legacyInvName -> uName obj = legacyInvName -> TrimSpace suffix <> "" ->
     let i' := renamed i obj (legacyInvName +:+ "-" +:+ TrimSpace suffix) in
     fixLegacyInventoryName suffix (Some i) = Ok (Some i', None)
     /\ (forall suffix', fixLegacyInventoryName suffix' (Some i') = Ok (Some i', None))
     /\ addSuffixToName (Some i') suffix =
        Ok (Some i', Some (Errorf (Sprintf "name already has suffix: %s" [ArgStr (Name i')]))))
  /\ (TrimSpace suffix <> "" ->
      HasSuffix (uName obj) ("-" +:+ TrimSpace suffix) = true ->
      exists err, addSuffixToName (Some i) suffix = Ok (Some i, Some err))
  /\ (TrimSpace suffix = "" \/ onlySpace suffix ->
      addSuffixToName (Some i) suffix = Ok (Some i, Some (Errorf "passed empty suffix"))).
Proof.
  split; [|split].
  - intros Hlegacy Hname Hne i'. rewrite <- Hlegacy in Hname. split; [|split].
    + unfold fixLegacyInventoryName. rewrite Hobj, Hlegacy, String.eqb_refl.
      cbn [orb]. rewrite (addSuffixToName_appends i obj suffix Hobj Hname Hne).
      * now rewrite Hlegacy.
      * rewrite Hlegacy. apply legacy_name_has_no_dash_suffix.
    + intros suffix'. apply (fixLegacyInventoryName_other suffix' i' (SetName obj (Name i')));
        try reflexivity; apply suffixed_name_not_legacy.
    + apply (addSuffixToName_has_suffix i' (SetName obj (Name i'))); try reflexivity.
      * exact Hne.
      * apply HasSuffix_append.
  - intros Hne Hsuf. now apply (addSuffixToName_suffix_present i obj).
  - intros [H|H]; apply addSuffixToName_empty; [exact H | now apply TrimSpace_onlySpace].
Qed.

(** C10. For an info whose name and whose object's name both differ from the
    legacy default name, [fixLegacyInventoryName] returns nil and leaves the
    info and its object as they were. *)
Theorem other_names_left_unchanged
    (randomSuffix : string) (i : Info) (obj : Unstructured)
    (Hobj : Object i = Some obj)
    (Hinfo : Name i <> legacyInvName) (Hobject : uName obj <> legacyInvName) :
  fixLegacyInventoryName randomSuffix (Some i) = Ok (Some i, None).
Proof.
  unfold fixLegacyInventoryName. rewrite Hobj.
  assert (Hi : (Name i =? legacyInvName)%string = false)
    by now apply String.eqb_neq.
  assert (Ho : (uName obj =? legacyInvName)%string = false)
    by now apply String.eqb_neq.
  rewrite Hi, Ho. reflexivity.
Qed.

(** Without an object there is no name to look at: the guard fails. *)
Lemma fixLegacyInventoryName_no_object (randomSuffix : string) (i : Info) :
  Object i = None ->
  fixLegacyInventoryName randomSuffix (Some i) =
  Ok (Some i, Some (Errorf "invalid inventory object is nil or info.Object is nil")).
Proof. intros H. unfold fixLegacyInventoryName. now rewrite H. Qed.

End LegacyNameFacts.

(** Sample objects. *)
Definition sampleConfigMap (name : string) (labels : gmap string string)
  : Objects.Unstructured :=
  {| Objects.uGroup := ""; Objects.uKind := "ConfigMap"; Objects.uNamespace := "default";
     Objects.uName := name; Objects.uLabels := labels |}.

Definition sampleInfo (name : string) (labels : gmap string string) : Objects.Info :=
  {| Objects.Namespace := "default"; Objects.Name := name; Objects.Source := "cm.yaml";
     Objects.Object := Some (sampleConfigMap name labels) |}.

Lemma legacy_name_gets_suffix_once_witness :
  Inventory.fixLegacyInventoryName " 40861806 " (Some (sampleInfo "inventory" ∅)) =
  Ok (Some (sampleInfo "inventory-40861806" ∅), None)
  /\ (exists err,
        Inventory.addSuffixToName (Some (sampleInfo "inventory-40861806" ∅)) "40861806" =
        Ok (Some (sampleInfo "inventory-40861806" ∅), Some err))
  /\ Inventory.addSuffixToName (Some (sampleInfo "inventory" ∅)) "  " =
     Ok (Some (sampleInfo "inventory" ∅), Some (Objects.Errorf "passed empty suffix")).
Proof.
  pose proof (legacy_name_gets_suffix_once
                (sampleInfo "inventory" ∅) (sampleConfigMap "inventory" ∅) " 40861806 "
                eq_refl) as (H1 & _ & _).
  pose proof (legacy_name_gets_suffix_once
                (sampleInfo "inventory-40861806" ∅)
                (sampleConfigMap "inventory-40861806" ∅) "40861806"
                eq_refl) as (_ & H2 & _).
  pose proof (legacy_name_gets_suffix_once
                (sampleInfo "inventory" ∅) (sampleConfigMap "inventory" ∅) "  "
                eq_refl) as (_ & _ & H3).
  split; [|split].
  - apply H1; [reflexivity | reflexivity | vm_compute; discriminate].
  - apply H2; [vm_compute; discriminate | reflexivity].
  - apply H3. left. reflexivity.
Defined.

Lemma other_names_left_unchanged_witness :
  Inventory.fixLegacyInventoryName "40861806" (Some (sampleInfo "my-inventory" ∅)) =
  Ok (Some (sampleInfo "my-inventory" ∅), None).
Proof.
  apply (other_names_left_unchanged "40861806" (sampleInfo "my-inventory" ∅)
           (sampleConfigMap "my-inventory" ∅) eq_refl);
    vm_compute; discriminate.
Defined.

(** ** The printer *)

Section PrinterFacts.
Import GoStrings Objects Event Printer.

(** The apply operations that [applyStats.inc] has a case for. *)
Definition handledApplyOp (op : ApplyEventOperation) : bool :=
  match op with
  | ServersideApplied | Created | Unchanged | Configured => true
  | Failed | ApplyOpUndeclared _ => false
  end.

(** The event makes no function of the printer panic: a resource update has
    an object, the operation of an apply update is one that
    [applyStats.inc] has a case for, a status update has a resource, and a
    status error has a resource and an error. *)
Definition printable (e : Event) : bool :=
  match eType e with
  | ApplyType =>
      match aeType (eApplyEvent e) with
      | ApplyEventCompleted => true
      | ApplyEventResourceUpdate =>
          match aeObject (eApplyEvent e) with
          | Some _ => handledApplyOp (aeOperation (eApplyEvent e))
          | None => false
          end
      | ApplyEventTypeUndeclared _ => true
      end
  | PruneType =>
      match peType (ePruneEvent e) with
      | PruneEventCompleted => true
      | PruneEventResourceUpdate =>
          match peObject (ePruneEvent e) with Some _ => true | None => false end
      | PruneEventTypeUndeclared _ => true
      end
  | DeleteType =>
      match deType (eDeleteEvent e) with
      | DeleteEventCompleted => true
      | DeleteEventResourceUpdate =>
          match deObject (eDeleteEvent e) with Some _ => true | None => false end
      | DeleteEventTypeUndeclared _ => true
      end
  | StatusType =>
      match seEventType (eStatusEvent e) with
      | ResourceUpdateEvent =>
          match seResource (eStatusEvent e) with Some _ => true | None => false end
      | PollErrorEvent =>
          match seResource (eStatusEvent e), seError (eStatusEvent e) with
          | Some _, Some _ => true
          | _, _ => false
          end
      | CompletedEvent | AbortedEvent | PollEventTypeUndeclared _ => true
      end
  | InitType | ErrorType | EventTypeUndeclared _ => true
  end.

(** Every status event that the collector holds has a resource: the updates
    are stored under the identifier read through [se.Resource]. *)
Definition collected (st : PrinterState) : Prop :=
  map_Forall (fun _ se => seResource se <> None) (latestStatus (stStatus st)).

(** A prune event that reports a pruned, or a skipped, resource. *)
Definition isPrunedUpdate (e : Event) : bool :=
  match eType e, peType (ePruneEvent e), peOperation (ePruneEvent e) with
  | PruneType, PruneEventResourceUpdate, Pruned => true
  | _, _, _ => false
  end.

Definition isSkippedUpdate (e : Event) : bool :=
  match eType e, peType (ePruneEvent e), peOperation (ePruneEvent e) with
  | PruneType, PruneEventResourceUpdate, PruneSkipped => true
  | _, _, _ => false
  end.

(** How many events of the list satisfy [f]. *)
Definition countEvents (f : Event -> bool) (l : list Event) : Z :=
  Z.of_nat (length (List.filter f l)).

Lemma wrapInt_small (z : Z) : - 2 ^ 63 <= z < 2 ^ 63 -> wrapInt z = z.
Proof. intros H. unfold wrapInt. rewrite Z.mod_small; lia. Qed.

Lemma intAdd_wrapInt (z k : Z) : intAdd (wrapInt z) k = wrapInt (z + k).
Proof.
  unfold intAdd, wrapInt.
  replace ((z + 2 ^ 63) mod 2 ^ 64 - 2 ^ 63 + k + 2 ^ 63)
    with ((z + 2 ^ 63) mod 2 ^ 64 + k) by lia.
  rewrite Zplus_mod_idemp_l. f_equal. f_equal. lia.
Qed.

(** [inc] on an operation it has a case for returns, without a panic. *)
Lemma inc_handled (a : applyStats) (op : ApplyEventOperation) :
  handledApplyOp op = true -> exists a', inc a op = Ok a'.
Proof. destruct op; intros H; try discriminate H; eexists; reflexivity. Qed.

(** [inc] panics exactly on the operations it has no case for. *)
Lemma inc_panics_iff (a : applyStats) (op : ApplyEventOperation) :
  (exists msg, inc a op = Panic msg) <-> handledApplyOp op = false.
Proof.
  split.
  - intros [msg H]. destruct op; try reflexivity; discriminate H.
  - intros H. destruct op; try discriminate H; eexists; reflexivity.
Qed.


(** [transformPruneOperation] on the declared prune operations, and its panic
    on every other value. *)
Lemma transformPruneOperation_declared (op : PruneEventOperation) :
  Destroy.transformPruneOperation Pruned = Ok Deleted
  /\ Destroy.transformPruneOperation PruneSkipped = Ok DeleteSkipped
  /\ ((exists msg, Destroy.transformPruneOperation op = Panic msg)
      <-> declaredPruneOp op = false).
Proof.
  split; [reflexivity|]. split; [reflexivity|]. split.
  - intros [msg H]. destruct op; try reflexivity; discriminate H.
  - intros H. destruct op; try discriminate H; eexists; reflexivity.
Qed.


Lemma collected_initial : collected initialState.
Proof. unfold collected. cbn. apply map_Forall_empty. Qed.

(** The loop over the collected status events does not panic. *)
Lemma printLatestStatus_runs (p : printFunc) (l : list (ObjMetadata * StatusEvent))
    (out : output) :
  Forall (fun kv => seResource (snd kv) <> None) l ->
  exists out', printLatestStatus l p out = Ok out'.
Proof.
  revert out. induction l as [|kv l IH]; intros out Hl; [eexists; reflexivity|].
  inversion Hl as [|? ? Hkv Hl']; subst. cbn [printLatestStatus].
  unfold printResourceStatus. destruct (seResource (snd kv)); [|contradiction].
  cbn [bindR]. now apply IH.
Qed.

Lemma collected_entries (st : PrinterState) :
  collected st ->
  Forall (fun kv => seResource (snd kv) <> None) (map_to_list (latestStatus (stStatus st))).
Proof.
  intros Hc. apply List.Forall_forall. intros [id se] Hin.
  apply list_elem_of_In, elem_of_map_to_list in Hin. exact (Hc id se Hin).
Qed.

Lemma processEvent_printable (p : printFunc) (st : PrinterState) (e : Event) :
  collected st -> printable e = true ->
  exists st', processEvent p st e = Ok st' /\ collected st'.
Proof.
  intros Hc. unfold printable, processEvent.
  destruct (eType e); try (intros _; eexists; split; [reflexivity|exact Hc]).
  - unfold processApplyEvent.
    destruct (aeType (eApplyEvent e)).
    + destruct (aeObject (eApplyEvent e)); [|discriminate].
      intros H. destruct (inc_handled (stApply st) _ H) as [a' ->].
      eexists; split; [reflexivity|exact Hc].
    + intros _.
      match goal with
      | |- context [printLatestStatus ?l p ?out] =>
          destruct (printLatestStatus_runs p l out (collected_entries st Hc)) as [out' ->]
      end.
      eexists; split; [reflexivity|exact Hc].
    + intros _. eexists; split; [reflexivity|exact Hc].
  - unfold processStatusEvent.
    destruct (seEventType (eStatusEvent e));
      try (intros _; eexists; split; [reflexivity|exact Hc]).
    + destruct (seResource (eStatusEvent e)) as [r|] eqn:Hr; [|discriminate].
      intros _.
      assert (Hc' : map_Forall (fun _ se => seResource se <> None)
                      (<[Identifier r := eStatusEvent e]> (latestStatus (stStatus st)))).
      { apply map_Forall_insert_2; [rewrite Hr; discriminate | exact Hc]. }
      cbn [updateStatus printStatus]. destruct (printStatus (stStatus st)).
      * unfold printResourceStatus. rewrite Hr.
        eexists; split; [reflexivity|exact Hc'].
      * eexists; split; [reflexivity|exact Hc'].
    + destruct (seResource (eStatusEvent e)); [|discriminate].
      destruct (seError (eStatusEvent e)); [|discriminate].
      intros _. eexists; split; [reflexivity|exact Hc].
  - unfold processPruneEvent.
    destruct (peType (ePruneEvent e)); try (intros _; eexists; split; [reflexivity|exact Hc]).
    destruct (peObject (ePruneEvent e)); [|discriminate].
    intros _. destruct (peOperation (ePruneEvent e)); eexists; split; try reflexivity; exact Hc.
  - unfold processDeleteEvent.
    destruct (deType (eDeleteEvent e)); try (intros _; eexists; split; [reflexivity|exact Hc]).
    destruct (deObject (eDeleteEvent e)); [|discriminate].
    intros _. destruct (deOperation (eDeleteEvent e)); eexists; split; try reflexivity; exact Hc.
Qed.

(** Any other event makes the printer panic. *)
Lemma processEvent_not_printable (p : printFunc) (st : PrinterState) (e : Event) :
  printable e = false -> exists msg, processEvent p st e = Panic msg.
Proof.
  unfold printable, processEvent.
  destruct (eType e); try discriminate.
  - unfold processApplyEvent. destruct (aeType (eApplyEvent e)); try discriminate.
    destruct (aeObject (eApplyEvent e)); [|intros _; eexists; reflexivity].
    intros H. apply (inc_panics_iff (stApply st)) in H as [msg ->].
    eexists; reflexivity.
  - unfold processStatusEvent. destruct (seEventType (eStatusEvent e)); try discriminate.
    + destruct (seResource (eStatusEvent e)); [discriminate|].
      intros _; eexists; reflexivity.
    + destruct (seResource (eStatusEvent e)); [|intros _; eexists; reflexivity].
      destruct (seError (eStatusEvent e)); [discriminate|].
      intros _; eexists; reflexivity.
  - unfold processPruneEvent. destruct (peType (ePruneEvent e)); try discriminate.
    destruct (peObject (ePruneEvent e)); [discriminate|]. intros _; eexists; reflexivity.
  - unfold processDeleteEvent. destruct (deType (eDeleteEvent e)); try discriminate.
    destruct (deObject (eDeleteEvent e)); [discriminate|]. intros _; eexists; reflexivity.
Qed.

(** The loop over events that are no error events and make nothing panic
    comes to the end of the channel. *)
Lemma printLoop_runs (p : printFunc) (pre : list Event) :
  Forall (fun e => eType e <> ErrorType) pre ->
  Forall (fun e => printable e = true) pre ->
  forall (st : PrinterState) (rest : list Event),
    collected st ->
    printLoop p st (pre ++ rest) = printLoop p (final (printLoop p st pre)) rest
    /\ returned (printLoop p st pre) = Ok None
    /\ unconsumed (printLoop p st pre) = []
    /\ collected (final (printLoop p st pre)).
Proof.
  induction pre as [|e pre IH]; intros Hne Hok st rest Hc.
  - repeat split. exact Hc.
  - inversion Hne as [|? ? He Hne']; subst. inversion Hok as [|? ? Hp Hok']; subst.
    destruct (processEvent_printable p st e Hc Hp) as (st' & Hst' & Hc').
    cbn [app printLoop]. rewrite Hst'.
    destruct (eType e); try contradiction; apply IH; assumption.
Qed.

(** C6, as the code has it. Over events that make nothing in the printer
    panic ([printable]): when the channel is closed without an error event,
    [Print] returns nil; at an error event [Print] returns the error of the
    event at once, whatever came before, and receives nothing after it.  At
    an event that is not [printable] (an apply update without an object or
    with an operation that [inc] has no case for, a prune or delete update
    without an object, a status update without a resource, a status error
    without a resource or an error) [Print] does not return: it panics,
    having received nothing after that event. *)
Theorem Print_returns_nil_or_the_error
    (previewStrategy : DryRunStrategy) (pre : list Event)
    (Hpre : Forall (fun e => eType e <> ErrorType) pre)
    (Hok : Forall (fun e => printable e = true) pre) :
  (returned (Print pre previewStrategy) = Ok None
   /\ unconsumed (Print pre previewStrategy) = [])
  /\ (forall (e : Event) (post : list Event),
        eType e = ErrorType ->
        returned (Print (pre ++ e :: post) previewStrategy) = Ok (Err (eErrorEvent e))
        /\ unconsumed (Print (pre ++ e :: post) previewStrategy) = post
        /\ final (Print (pre ++ e :: post) previewStrategy)
           = final (Print pre previewStrategy))
  /\ (forall (e : Event) (post : list Event),
        printable e = false ->
        (exists msg, returned (Print (pre ++ e :: post) previewStrategy) = Panic msg)
        /\ unconsumed (Print (pre ++ e :: post) previewStrategy) = post
        /\ final (Print (pre ++ e :: post) previewStrategy)
           = final (Print pre previewStrategy)).
Proof.
  unfold Print. split; [|split].
  - destruct (printLoop_runs (getPrintFunc previewStrategy) pre Hpre Hok
                initialState [] collected_initial) as (_ & Hr & Hu & _).
    split; [exact Hr | exact Hu].
  - intros e post He.
    destruct (printLoop_runs (getPrintFunc previewStrategy) pre Hpre Hok
                initialState (e :: post) collected_initial) as (-> & _ & _ & _).
    cbn [printLoop]. rewrite He. repeat split.
  - intros e post He.
    destruct (printLoop_runs (getPrintFunc previewStrategy) pre Hpre Hok
                initialState (e :: post) collected_initial) as (-> & _ & _ & _).
    set (st := final (printLoop (getPrintFunc previewStrategy) initialState pre)).
    destruct (processEvent_not_printable (getPrintFunc previewStrategy) st e He)
      as [msg Hmsg].
    assert (Hty : eType e <> ErrorType).
    { intros Hty. unfold printable in He. rewrite Hty in He. discriminate He. }
    cbn [printLoop]. rewrite Hmsg.
    destruct (eType e); try contradiction; (split; [exists msg; reflexivity|]);
      split; reflexivity.
Qed.

Lemma getPrintFunc_appends (s : DryRunStrategy) (format : string) (a : list fmtArg)
    (out : output) :
  getPrintFunc s format a out = out ++ getPrintFunc s format a [].
Proof. reflexivity. Qed.

Lemma status_loop_appends (s : DryRunStrategy) (l : list (ObjMetadata * StatusEvent))
    (out out' : output) :
  printLatestStatus l (getPrintFunc s) out = Ok out' ->
  exists more, out' = out ++ more.
Proof.
  revert out. induction l as [|kv l IH]; intros out; cbn [printLatestStatus].
  - intros [= <-]. exists []. now rewrite app_nil_r.
  - unfold printResourceStatus. destruct (seResource (snd kv)); [|discriminate].
    cbn [bindR]. intros H. destruct (IH _ H) as [more ->].
    rewrite getPrintFunc_appends, <- app_assoc. eexists; reflexivity.
Qed.

(** The printer only adds to its output. *)
Lemma processEvent_output_grows (s : DryRunStrategy) (st st' : PrinterState) (e : Event) :
  processEvent (getPrintFunc s) st e = Ok st' ->
  exists more, stOut st' = stOut st ++ more.
Proof.
  assert (Hsame : exists more, stOut st = stOut st ++ more)
    by (exists []; now rewrite app_nil_r).
  unfold processEvent. destruct (eType e); try (intros [= <-]; exact Hsame).
  - unfold processApplyEvent. destruct (aeType (eApplyEvent e)).
    + destruct (aeObject (eApplyEvent e)); [|discriminate].
      destruct (inc (stApply st) (aeOperation (eApplyEvent e))); [|discriminate].
      intros [= <-]. cbn. eexists; reflexivity.
    + match goal with
      | |- context [printLatestStatus ?l ?p ?o] =>
          destruct (printLatestStatus l p o) as [out'|] eqn:Hloop; [|discriminate]
      end.
      destruct (status_loop_appends s _ _ _ Hloop) as [more ->].
      intros [= <-]. cbn [bindR fst snd stOut].
      rewrite getPrintFunc_appends, <- app_assoc. eexists; reflexivity.
    + intros [= <-]. exact Hsame.
  - unfold processStatusEvent.
    destruct (seEventType (eStatusEvent e)).
    + destruct (seResource (eStatusEvent e)) as [r|] eqn:Hr; [|discriminate].
      cbn [updateStatus printStatus]. destruct (printStatus (stStatus st)).
      * unfold printResourceStatus. rewrite Hr. intros [= <-]. cbn.
        eexists; reflexivity.
      * intros [= <-]. exact Hsame.
    + destruct (seResource (eStatusEvent e)); [|discriminate].
      destruct (seError (eStatusEvent e)); [|discriminate].
      intros [= <-]. cbn. eexists; reflexivity.
    + intros [= <-]. cbn. eexists; reflexivity.
    + intros [= <-]. cbn. eexists; reflexivity.
    + intros [= <-]. exact Hsame.
  - unfold processPruneEvent. destruct (peType (ePruneEvent e)).
    + destruct (peObject (ePruneEvent e)); [|discriminate].
      destruct (peOperation (ePruneEvent e)); intros [= <-]; cbn;
        try (eexists; reflexivity). exact Hsame.
    + intros [= <-]. cbn. eexists; reflexivity.
    + intros [= <-]. exact Hsame.
  - unfold processDeleteEvent. destruct (deType (eDeleteEvent e)).
    + destruct (deObject (eDeleteEvent e)); [|discriminate].
      destruct (deOperation (eDeleteEvent e)); intros [= <-]; cbn;
        try (eexists; reflexivity). exact Hsame.
    + intros [= <-]. cbn. eexists; reflexivity.
    + intros [= <-]. exact Hsame.
Qed.

Lemma printLoop_output_grows (s : DryRunStrategy) (ch : list Event) (st : PrinterState) :
  exists more, stOut (final (printLoop (getPrintFunc s) st ch)) = stOut st ++ more.
Proof.
  revert st. induction ch as [|e ch IH]; intros st; cbn [printLoop].
  - exists []. now rewrite app_nil_r.
  - assert (Hstep : exists more,
               stOut (final (match processEvent (getPrintFunc s) st e with
                             | Ok st' => printLoop (getPrintFunc s) st' ch
                             | Panic msg => {| returned := Panic msg; final := st;
                                               unconsumed := ch |}
                             end)) = stOut st ++ more).
    { destruct (processEvent (getPrintFunc s) st e) as [st'|msg] eqn:E.
      - destruct (processEvent_output_grows s st st' e E) as [m1 H1].
        destruct (IH st') as [m2 H2]. rewrite H2, H1, <- app_assoc.
        eexists; reflexivity.
      - exists []. now rewrite app_nil_r. }
    destruct (eType e); try exact Hstep.
    exists []. now rewrite app_nil_r.
Qed.

(** What an event does to the tally of pruned and skipped resources. *)
Lemma processEvent_tally (p : printFunc) (st st' : PrinterState) (e : Event) :
  processEvent p st e = Ok st' ->
  pruned (stPrune st') =
    (if isPrunedUpdate e then intAdd (pruned (stPrune st)) 1 else pruned (stPrune st))
  /\ skipped (stPrune st') =
    (if isSkippedUpdate e then intAdd (skipped (stPrune st)) 1 else skipped (stPrune st)).
Proof.
  unfold processEvent, isPrunedUpdate, isSkippedUpdate.
  destruct (eType e); try (intros [= <-]; split; reflexivity).
  - destruct (processApplyEvent _ _ _ _ _); [|discriminate].
    intros [= <-]. split; reflexivity.
  - destruct (processStatusEvent _ _ _ _); [|discriminate].
    intros [= <-]. split; reflexivity.
  - unfold processPruneEvent.
    destruct (peType (ePruneEvent e)); try (intros [= <-]; split; reflexivity).
    destruct (peObject (ePruneEvent e)); [|discriminate].
    destruct (peOperation (ePruneEvent e)); intros [= <-]; split; reflexivity.
  - destruct (processDeleteEvent _ _ _ _); [|discriminate].
    intros [= <-]. split; reflexivity.
Qed.

Lemma countEvents_cons (f : Event -> bool) (e : Event) (l : list Event) :
  countEvents f (e :: l) = (if f e then 1 else 0) + countEvents f l.
Proof.
  unfold countEvents. cbn [List.filter]. destruct (f e); cbn [length]; lia.
Qed.

Lemma printLoop_tally (p : printFunc) (pre : list Event) :
  Forall (fun e => eType e <> ErrorType) pre ->
  Forall (fun e => printable e = true) pre ->
  forall (st : PrinterState) (kp ks : Z),
    collected st ->
    pruned (stPrune st) = wrapInt kp ->
    skipped (stPrune st) = wrapInt ks ->
    pruned (stPrune (final (printLoop p st pre)))
      = wrapInt (kp + countEvents isPrunedUpdate pre)
    /\ skipped (stPrune (final (printLoop p st pre)))
      = wrapInt (ks + countEvents isSkippedUpdate pre).
Proof.
  induction pre as [|e pre IH]; intros Hne Hok st kp ks Hc Hp Hs.
  - unfold countEvents. cbn. now rewrite !Z.add_0_r.
  - inversion Hne as [|? ? He Hne']; subst. inversion Hok as [|? ? Hpr Hok']; subst.
    destruct (processEvent_printable p st e Hc Hpr) as (st' & Hst' & Hc').
    destruct (processEvent_tally p st st' e Hst') as [Hp' Hs'].
    rewrite Hp, intAdd_wrapInt in Hp'. rewrite Hs, intAdd_wrapInt in Hs'.
    assert (Hloop : printLoop p st (e :: pre) = printLoop p st' pre).
    { cbn [printLoop]. rewrite Hst'. destruct (eType e); try reflexivity. contradiction. }
    rewrite Hloop, !countEvents_cons.
    destruct (IH Hne' Hok' st'
                (kp + (if isPrunedUpdate e then 1 else 0))
                (ks + (if isSkippedUpdate e then 1 else 0)) Hc') as [H1 H2].
    + rewrite Hp'. now destruct (isPrunedUpdate e); rewrite ?Z.add_0_r.
    + rewrite Hs'. now destruct (isSkippedUpdate e); rewrite ?Z.add_0_r.
    + rewrite H1, H2. split; f_equal; lia.
Qed.

(** C7. The summary that [Print] writes at a completed prune event carries
    the number of the pruned and of the skipped resource updates among the
    events the printer has received before it, as Go [int]s; the numbers come
    from these events alone.  Below 2^63 events they are the counts
    themselves. *)
Theorem prune_summary_counts_the_events
    (previewStrategy : DryRunStrategy) (pre : list Event) (e : Event) (post : list Event)
    (Hpre : Forall (fun e => eType e <> ErrorType) pre)
    (Hok : Forall (fun e => printable e = true) pre)
    (He : eType e = PruneType)
    (Hcompleted : peType (ePruneEvent e) = PruneEventCompleted) :
  let np := countEvents isPrunedUpdate pre in
  let ns := countEvents isSkippedUpdate pre in
  let line a b :=
    getPrintFunc previewStrategy "%d resource(s) pruned, %d skipped" [ArgInt a; ArgInt b] [] in
  (exists more,
     stOut (final (Print (pre ++ e :: post) previewStrategy))
     = stOut (final (Print pre previewStrategy)) ++ line (wrapInt np) (wrapInt ns) ++ more)
  /\ (np < 2 ^ 63 -> ns < 2 ^ 63 ->
      exists more,
        stOut (final (Print (pre ++ e :: post) previewStrategy))
        = stOut (final (Print pre previewStrategy)) ++ line np ns ++ more).
Proof.
  intros np ns line.
  assert (Hmain : exists more,
             stOut (final (Print (pre ++ e :: post) previewStrategy))
             = stOut (final (Print pre previewStrategy))
               ++ line (wrapInt np) (wrapInt ns) ++ more).
  { unfold Print.
    destruct (printLoop_runs (getPrintFunc previewStrategy) pre Hpre Hok
                initialState (e :: post) collected_initial) as (-> & _ & _ & _).
    destruct (printLoop_tally (getPrintFunc previewStrategy) pre Hpre Hok
                initialState 0 0 collected_initial eq_refl eq_refl) as [Hp Hs].
    rewrite !Z.add_0_l in Hp, Hs. fold np in Hp. fold ns in Hs.
    set (st := final (printLoop (getPrintFunc previewStrategy) initialState pre)) in *.
    cbn [printLoop]. unfold processEvent. rewrite He. unfold processPruneEvent.
    rewrite Hcompleted. cbn [bindR fst snd].
    match goal with
    | |- context [printLoop _ ?st1 post] =>
        destruct (printLoop_output_grows previewStrategy post st1) as [more Hmore]
    end.
    rewrite Hmore. cbn [stOut]. rewrite getPrintFunc_appends, Hp, Hs, <- app_assoc.
    exists more. reflexivity. }
  split; [exact Hmain|].
  intros Hnp Hns. rewrite <- (wrapInt_small np), <- (wrapInt_small ns); [exact Hmain| |];
    unfold np, ns, countEvents in *; lia.
Qed.

End PrinterFacts.

(** Sample events. *)
Definition sampleDeployment (name : string) : Objects.Unstructured :=
  {| Objects.uGroup := "apps"; Objects.uKind := "Deployment"; Objects.uNamespace := "default";
     Objects.uName := name; Objects.uLabels := ∅ |}.

Definition applyUpdate (op : Event.ApplyEventOperation) (obj : Objects.Unstructured)
  : Event.Event :=
  Event.mkApplyEvent {| Event.aeType := Event.ApplyEventResourceUpdate;
                        Event.aeOperation := op; Event.aeObject := Some obj |}.

Definition pruneUpdate (op : Event.PruneEventOperation) (obj : Objects.Unstructured)
  : Event.Event :=
  Event.mkPruneEvent {| Event.peType := Event.PruneEventResourceUpdate;
                        Event.peOperation := op; Event.peObject := Some obj |}.

Definition pruneCompleted : Event.Event :=
  Event.mkPruneEvent {| Event.peType := Event.PruneEventCompleted;
                        Event.peOperation := Event.Pruned; Event.peObject := None |}.

Definition sampleEvents : list Event.Event :=
  [ applyUpdate Event.Created (sampleConfigMap "a" ∅);
    pruneUpdate Event.Pruned (sampleConfigMap "b" ∅);
    pruneUpdate Event.PruneSkipped (sampleDeployment "c");
    pruneUpdate Event.Pruned (sampleDeployment "d") ].

Lemma sampleEvents_no_error :
  Forall (fun e => Event.eType e <> Event.ErrorType) sampleEvents.
Proof. repeat constructor; discriminate. Qed.

Lemma sampleEvents_printable : Forall (fun e => printable e = true) sampleEvents.
Proof. repeat constructor. Qed.

(** A channel without an error event on which [Print] does not return nil:
    the apply operation is no declared value, and [inc] panics. *)
Lemma Print_panics_without_error_event :
  let ch := [applyUpdate (Event.ApplyOpUndeclared 7) (sampleConfigMap "a" ∅)] in
  Forall (fun e => Event.eType e <> Event.ErrorType) ch
  /\ Printer.returned (Printer.Print ch Event.DryRunNone)
     = Panic "unknown apply operation ApplyEventOperation(7)"
  /\ Printer.returned (Printer.Print ch Event.DryRunNone) <> Ok None.
Proof.
  split; [repeat constructor; discriminate|]. split; [reflexivity|]. discriminate.
Qed.

Lemma Print_returns_nil_or_the_error_witness :
  Printer.returned (Printer.Print sampleEvents Event.DryRunNone) = Ok None
  /\ Printer.returned
       (Printer.Print (sampleEvents
                         ++ Event.mkErrorEvent (Some (Objects.Errorf "connection refused"))
                         :: [pruneCompleted])
                      Event.DryRunNone)
     = Ok (Some (Objects.Errorf "connection refused"))
  /\ Printer.unconsumed
       (Printer.Print (sampleEvents
                         ++ Event.mkErrorEvent (Some (Objects.Errorf "connection refused"))
                         :: [pruneCompleted])
                      Event.DryRunNone)
     = [pruneCompleted]
  /\ (exists msg,
        Printer.returned
          (Printer.Print (sampleEvents ++ Event.mkStatusEvent Event.zeroStatusEvent
                            :: [pruneCompleted])
                         Event.DryRunNone)
        = Panic msg).
Proof.
  pose proof (Print_returns_nil_or_the_error Event.DryRunNone sampleEvents
                sampleEvents_no_error sampleEvents_printable) as ([H1 _] & H2 & H5).
  destruct (H2 (Event.mkErrorEvent (Some (Objects.Errorf "connection refused")))
               [pruneCompleted] eq_refl) as (H3 & H4 & _).
  destruct (H5 (Event.mkStatusEvent Event.zeroStatusEvent) [pruneCompleted] eq_refl)
    as (H6 & _ & _).
  split; [exact H1|]. split; [exact H3|]. split; [exact H4 | exact H6].
Defined.

Lemma prune_summary_counts_the_events_witness :
  exists more,
    Printer.stOut (Printer.final
      (Printer.Print (sampleEvents ++ pruneCompleted :: []) Event.DryRunClient))
    = Printer.stOut (Printer.final (Printer.Print sampleEvents Event.DryRunClient))
      ++ ["2 resource(s) pruned, 1 skipped (preview)" +:+ Printer.newline] ++ more.
Proof.
  destruct (prune_summary_counts_the_events Event.DryRunClient sampleEvents
              pruneCompleted [] sampleEvents_no_error sampleEvents_printable
              eq_refl eq_refl) as [_ H].
  apply H; vm_compute; reflexivity.
Defined.

(** ** The Destroyer *)

Section DestroyFacts.
Import GoStrings Objects Event Destroy.

Variable InventoryLabel : string.
Variable d : Destroyer.

(** The options [Run] passes to [Prune]. *)
Definition runOptions : Options :=
  {| optDryRunStrategy := DryRunStrategy_ d;
     PropagationPolicy := DeletePropagationBackground |}.

(** The calls [Run] makes before it splits the objects. *)
Definition firstCalls : list Call :=
  [CallSetDryRunStrategy (DryRunStrategy_ d); CallGetObjects].

(** The error that ends the run before the pruning, if there is one. *)
Definition earlyError : option error :=
  match GetObjects d with
  | (_, Some err) => Some (WrapPrefix err "error reading resource manifests")
  | (infos, None) =>
      match Inventory.SplitInfos InventoryLabel infos with
      | (_, _, Some err) => Some (WrapPrefix err "error clearing inventory object")
      | (_, _, None) => None
      end
  end.

Definition transformsTo (msg e : Event) : Prop := transformEvent msg = Ok e.

(** The events [Prune] has still to send. *)
Definition pendingOf (m : MainPC) : list Event :=
  match m with
  | MPruning pending _ _ => pending
  | _ => []
  end.

(** The goroutine of [Run] has sent its last event. *)
Definition hasSent (m : MainPC) : bool :=
  match m with
  | MReturn | MDone => true
  | _ => false
  end.

(** The states of a run that ends before the pruning, with the event [ev]. *)
Definition earlyInv (ev : Event) (s : State) : Prop :=
  trans s = TNotStarted /\ tempClosed s = false /\ completedClosed s = false
  /\ crashed s = None /\ calls s = firstCalls
  /\ match main s with
     | MSend e => e = ev /\ chEvents s = [] /\ chClosed s = false
     | MReturn => chEvents s = [ev] /\ chClosed s = false
     | MDone => chEvents s = [ev] /\ chClosed s = true
     | _ => False
     end.

Section Pruning.

Variables (evs : list Event) (err : option error) (invInfo : option Info).

Definition pruneCalls : list Call := firstCalls ++ [CallPrune [invInfo] runOptions].

Definition deleteCalls : list Call :=
  pruneCalls ++ [CallDeleteInventoryObj invInfo (DeleteInventoryObj d invInfo)].

Definition transFacts (done : list Event) (s : State) : Prop :=
  match trans s with
  | TNotStarted => False
  | TRecv => evs = done ++ pendingOf (main s) /\ completedClosed s = false
  | TSend msg => evs = done ++ msg :: pendingOf (main s) /\ completedClosed s = false
  | TPanicking m =>
      (exists msg, evs = done ++ msg :: pendingOf (main s) /\ transformEvent msg = Panic m)
      /\ completedClosed s = true
  | TDone => evs = done /\ completedClosed s = true /\ tempClosed s = true
  end.

Definition mainFacts (s : State) : Prop :=
  match main s with
  | MStart => False
  | MPruning _ e i =>
      e = err /\ i = invInfo /\ tempClosed s = false /\ calls s = pruneCalls
      /\ chClosed s = false
  | MAfterPrune e i =>
      e = err /\ i = invInfo /\ tempClosed s = false /\ calls s = pruneCalls
      /\ chClosed s = false
  | MCloseTemp e =>
      e = err /\ tempClosed s = false /\ calls s = deleteCalls /\ chClosed s = false
  | MWaitCompleted e =>
      e = err /\ tempClosed s = true /\ calls s = deleteCalls /\ chClosed s = false
  | MSend e =>
      e = lastEvent err /\ tempClosed s = true /\ completedClosed s = true
      /\ calls s = deleteCalls /\ chClosed s = false
  | MReturn =>
      tempClosed s = true /\ completedClosed s = true /\ calls s = deleteCalls
      /\ chClosed s = false
  | MDone =>
      tempClosed s = true /\ completedClosed s = true /\ calls s = deleteCalls
      /\ chClosed s = true
  end.

(** The states of a run that has come to the pruning: [done] are the events
    of [Prune] that the transformer has sent on, and [fwd] what it made of
    them. *)
Definition pruneInv (s : State) : Prop :=
  exists done fwd,
    Forall2 transformsTo done fwd
    /\ chEvents s = fwd ++ (if hasSent (main s) then [lastEvent err] else [])
    /\ transFacts done s
    /\ mainFacts s
    /\ (forall m, crashed s = Some m -> trans s = TPanicking m).

Hypothesis HinvInfo : invInfo <> None.

Ltac inv_facts :=
  unfold pruneInv, transFacts, mainFacts, pruneCalls, deleteCalls, firstCalls in *;
  cbn in *.

Ltac inv_done :=
  cbn in *; rewrite ?app_nil_r in *; intuition (try congruence; try discriminate).

Lemma stepMain_pruneInv (s s' : State) :
  pruneInv s -> crashed s = None -> stepMain InventoryLabel d s = Some s' -> pruneInv s'.
Proof.
  intros (done & fwd & HF & Hch & Ht & Hm & Hc) Hcr Hstep.
  destruct s as [m t tc cc ce chc cl cr].
  unfold stepMain in Hstep. inv_facts. subst cr. clear Hc.
  destruct m as [|pending e i|e i|e|e|e| |].
  - destruct Hm.
  - destruct pending as [|msg pending].
    + injection Hstep as <-. exists done, fwd. inv_done.
    + destruct t; try discriminate Hstep. injection Hstep as <-.
      exists done, fwd. inv_done.
  - destruct Hm as (-> & -> & -> & -> & ->).
    destruct invInfo as [inv|]; [|contradiction].
    injection Hstep as <-. exists done, fwd. destruct t; inv_done.
  - injection Hstep as <-. exists done, fwd. destruct t; inv_done.
  - destruct cc; [|discriminate Hstep]. injection Hstep as <-.
    exists done, fwd. destruct t; inv_done.
  - injection Hstep as <-. exists done, fwd. destruct t; inv_done.
  - injection Hstep as <-. exists done, fwd. destruct t; inv_done.
  - discriminate Hstep.
Qed.

Lemma stepTrans_pruneInv (s s' : State) :
  pruneInv s -> crashed s = None -> stepTrans s = Some s' -> pruneInv s'.
Proof.
  intros (done & fwd & HF & Hch & Ht & Hm & Hc) Hcr Hstep.
  destruct s as [m t tc cc ce chc cl cr].
  unfold stepTrans in Hstep. inv_facts. subst cr. clear Hc.
  destruct t as [| |msg|pm|].
  - destruct Ht.
  - destruct tc; [|discriminate Hstep]. injection Hstep as <-.
    exists done, fwd. destruct m; inv_done.
  - destruct Ht as [Hevs ->].
    assert (Hns : hasSent m = false) by (destruct m; inv_done).
    rewrite Hns, app_nil_r in Hch. subst ce.
    destruct (transformEvent msg) as [e|pm] eqn:Emsg; injection Hstep as <-.
    + exists (done ++ [msg]), (fwd ++ [e]). cbn. rewrite Hns, app_nil_r, <- app_assoc.
      split; [apply Forall2_app; [exact HF | repeat constructor; exact Emsg]|].
      destruct m; inv_done.
    + exists done, fwd. cbn. rewrite Hns.
      split; [exact HF|]. split; [now rewrite app_nil_r|].
      split; [split; [exists msg; tauto | reflexivity]|].
      destruct m; inv_done.
  - injection Hstep as <-. exists done, fwd. inv_done.
  - discriminate Hstep.
Qed.

End Pruning.

Lemma stepMain_earlyInv (ev : Event) (s s' : State) :
  earlyInv ev s -> stepMain InventoryLabel d s = Some s' -> earlyInv ev s'.
Proof.
  intros (Ht & Htc & Hcc & Hcr & Hcl & Hm) Hstep.
  destruct s as [m t tc cc ce chc cl cr]. unfold stepMain in Hstep.
  unfold earlyInv in *. cbn in *. subst.
  destruct m; try contradiction; try discriminate Hstep; injection Hstep as <-;
    cbn; intuition (subst; auto).
Qed.

(** Every state of a run is the initial state, a state of a run that ends
    before the pruning, or a state of a run that has come to the pruning. *)
Definition runInv (s : State) : Prop :=
  s = initial
  \/ (exists e, earlyError = Some e /\ earlyInv (mkErrorEvent (Some e)) s)
  \/ (exists infos invInfo resources evs err,
        GetObjects d = (infos, None)
        /\ Inventory.SplitInfos InventoryLabel infos = (invInfo, resources, None)
        /\ Prune d [invInfo] runOptions = (evs, err)
        /\ pruneInv evs err invInfo s).

Lemma start_runInv : runInv (start InventoryLabel d initial).
Proof.
  unfold runInv, start, earlyError.
  destruct (GetObjects d) as [infos [e|]] eqn:Hget.
  - right; left. eexists; split; [reflexivity|]. unfold earlyInv. cbn. tauto.
  - destruct (Inventory.SplitInfos InventoryLabel infos) as [[invInfo resources] [e|]] eqn:Hsplit.
    + right; left. eexists; split; [reflexivity|]. unfold earlyInv. cbn. tauto.
    + right; right. fold runOptions.
      destruct (Prune d [invInfo] runOptions) as [evs err] eqn:Hprune.
      exists infos, invInfo, resources, evs, err.
      split; [reflexivity|]. split; [exact Hsplit|]. split; [exact Hprune|].
      exists [], []. unfold transFacts, mainFacts, pruneCalls, firstCalls. cbn.
      intuition (try congruence; try discriminate). constructor.
Qed.

Lemma step_runInv (g : Goroutine) (s : State) :
  runInv s -> runInv (step InventoryLabel d g s).
Proof.
  intros Hinv. unfold step. destruct (crashed s) eqn:Hcr; [exact Hinv|].
  destruct Hinv as [->|[(e & He & Hinv)|(infos & invInfo & rs & evs & err & H1 & H2 & H3 & Hinv)]].
  - destruct g; cbn; [apply start_runInv | now left].
  - right; left. exists e. split; [exact He|].
    destruct g.
    + destruct (stepMain InventoryLabel d s) as [s'|] eqn:Hstep; cbn; [|exact Hinv].
      now apply (stepMain_earlyInv _ s).
    + destruct Hinv as (Ht & Hrest). unfold stepTrans. rewrite Ht. cbn.
      now split.
  - right; right. exists infos, invInfo, rs, evs, err.
    split; [exact H1|]. split; [exact H2|]. split; [exact H3|].
    pose proof (SplitInfos_ok_not_nil _ _ _ _ H2) as Hnn.
    destruct g.
    + destruct (stepMain InventoryLabel d s) as [s'|] eqn:Hstep; cbn; [|exact Hinv].
      now apply (stepMain_pruneInv evs err invInfo Hnn s).
    + destruct (stepTrans s) as [s'|] eqn:Hstep; cbn; [|exact Hinv].
      now apply (stepTrans_pruneInv evs err invInfo s).
Qed.

Lemma exec_runInv (schedule : list Goroutine) (s : State) :
  runInv s -> runInv (exec InventoryLabel d schedule s).
Proof.
  revert s. induction schedule as [|g schedule IH]; intros s Hinv; cbn; [exact Hinv|].
  apply IH. now apply step_runInv.
Qed.

Lemma Run_runInv (schedule : list Goroutine) : runInv (Run InventoryLabel d schedule).
Proof. apply exec_runInv. now left. Qed.

Lemma exec_app (a b : list Goroutine) (s : State) :
  exec InventoryLabel d (a ++ b) s = exec InventoryLabel d b (exec InventoryLabel d a s).
Proof. unfold exec. apply fold_left_app. Qed.

(** What [Run] makes of a message of [Prune]: a delete event for a resource,
    with the object of the message, Deleted for Pruned and DeleteSkipped for
    PruneSkipped. *)
Definition relabelled (msg e : Event) : Prop :=
  eType e = DeleteType
  /\ deType (eDeleteEvent e) = DeleteEventResourceUpdate
  /\ deObject (eDeleteEvent e) = peObject (ePruneEvent msg)
  /\ (peOperation (ePruneEvent msg) = Pruned -> deOperation (eDeleteEvent e) = Deleted)
  /\ (peOperation (ePruneEvent msg) = PruneSkipped ->
      deOperation (eDeleteEvent e) = DeleteSkipped).

Lemma transformEvent_relabelled (msg e : Event) :
  transformEvent msg = Ok e -> relabelled msg e.
Proof.
  unfold transformEvent, transformPruneOperation, relabelled.
  destruct (peOperation (ePruneEvent msg)); intros H; try discriminate H;
    injection H as <-; cbn; repeat split; intros; congruence.
Qed.

Lemma transformEvent_panics (msg : Event) (m : string) :
  transformEvent msg = Panic m -> declaredPruneOp (peOperation (ePruneEvent msg)) = false.
Proof.
  unfold transformEvent, transformPruneOperation.
  destruct (peOperation (ePruneEvent msg)); intros H; try discriminate H; reflexivity.
Qed.

Lemma forwarded_are_deletes (done fwd : list Event) :
  Forall2 transformsTo done fwd -> Forall (fun e => eType e = DeleteType) fwd.
Proof.
  induction 1 as [|msg e done fwd H _ IH]; constructor; [|exact IH].
  now destruct (transformEvent_relabelled msg e H).
Qed.

Lemma lastEvent_type (err : option error) :
  eType (lastEvent err) = match err with Some _ => ErrorType | None => DeleteType end.
Proof. destruct err; reflexivity. Qed.

(** With [GetObjects] and [SplitInfos] successful there is no early error. *)
Lemma earlyError_none (infos resources : list (option Info)) (invInfo : option Info) :
  GetObjects d = (infos, None) ->
  Inventory.SplitInfos InventoryLabel infos = (invInfo, resources, None) ->
  earlyError = None.
Proof. intros H1 H2. unfold earlyError. now rewrite H1, H2. Qed.

(** No event on the channel of [Run] is a prune event.  In a run that
    comes to the pruning, the events on the channel are, in order, what the
    messages of [Prune] have been relabelled to (a delete event for the same
    object, Deleted for Pruned, DeleteSkipped for PruneSkipped), followed at
    most by the last event of the run; once the goroutine of [Run] is done,
    every message with a declared operation has been relabelled and sent. *)
Lemma channel_holds_relabelled_events (schedule : list Goroutine) :
  let s := Run InventoryLabel d schedule in
  Forall (fun e => eType e <> PruneType) (chEvents s)
  /\ (forall infos invInfo resources evs err,
        GetObjects d = (infos, None) ->
        Inventory.SplitInfos InventoryLabel infos = (invInfo, resources, None) ->
        Prune d [invInfo] runOptions = (evs, err) ->
        exists done rest fwd last,
          evs = done ++ rest
          /\ Forall2 relabelled done fwd
          /\ chEvents s = fwd ++ last
          /\ (last = [] \/ last = [lastEvent err])
          /\ (main s = MDone ->
              Forall (fun msg => declaredPruneOp (peOperation (ePruneEvent msg)) = true) evs ->
              rest = [] /\ last = [lastEvent err])).
Proof.
  intros s. pose proof (Run_runInv schedule) as Hinv. fold s in Hinv.
  destruct Hinv as [Hs|[(e & He & Hinv)|(infos & invInfo & rs & evs & err & H1 & H2 & H3 & Hinv)]].
  - rewrite Hs. split; [constructor|].
    intros infos invInfo rs evs err _ _ _. exists [], evs, [], [].
    cbn. repeat split; try constructor; try tauto; discriminate.
  - split.
    + destruct Hinv as (_ & _ & _ & _ & _ & Hm).
      destruct (main s); try contradiction; destruct Hm as (Hm1 & Hm2);
        try destruct Hm2 as (Hm2 & Hm3); try rewrite Hm1; try rewrite Hm2;
        repeat constructor; discriminate.
    + intros infos invInfo rs evs err H1 H2 _.
      rewrite (earlyError_none _ _ _ H1 H2) in He. discriminate He.
  - destruct Hinv as (done & fwd & HF & Hch & Ht & Hm & Hc).
    pose proof (forwarded_are_deletes _ _ HF) as Hdel.
    split.
    + rewrite Hch. apply Forall_app. split.
      * eapply Forall_impl; [exact Hdel|]. cbn. intros a Ha. rewrite Ha. discriminate.
      * destruct (hasSent (main s)); repeat constructor.
        rewrite lastEvent_type. destruct err; discriminate.
    + intros infos' invInfo' rs' evs' err' H1' H2' H3'.
      rewrite H1 in H1'. injection H1' as <-.
      rewrite H2 in H2'. injection H2' as <- <-.
      rewrite H3 in H3'. injection H3' as <- <-.
      assert (Hrest : exists rest, evs = done ++ rest
                /\ (main s = MDone ->
                    Forall (fun msg => declaredPruneOp (peOperation (ePruneEvent msg)) = true) evs ->
                    rest = [])).
      { unfold transFacts in Ht. unfold mainFacts in Hm.
        destruct (trans s) as [| |msg|pm|].
        - contradiction.
        - exists (pendingOf (main s)). split; [tauto|]. intros Hd _. now rewrite Hd.
        - exists (msg :: pendingOf (main s)). split; [tauto|].
          intros Hd _. rewrite Hd in Hm. destruct Ht as [_ Ht]. destruct Hm as (_ & Hm & _).
          congruence.
        - destruct Ht as [(msg & Hevs & Hp) _].
          exists (msg :: pendingOf (main s)). split; [exact Hevs|].
          intros _ Hall. apply transformEvent_panics in Hp.
          rewrite Hevs in Hall. apply Forall_app in Hall as [_ Hall].
          inversion Hall as [|? ? Hmsg _]; subst. congruence.
        - exists []. split; [|reflexivity]. rewrite app_nil_r. tauto. }
      destruct Hrest as (rest & Hevs & Hrest).
      exists done, rest, fwd, (if hasSent (main s) then [lastEvent err] else []).
      split; [exact Hevs|]. split.
      { eapply Forall2_impl; [exact HF|]. exact transformEvent_relabelled. }
      split; [exact Hch|]. split; [destruct (hasSent (main s)); tauto|].
      intros Hd Hall. split; [now apply Hrest|]. now rewrite Hd.
Qed.

(** The error that makes the run fail, if there is one: the objects cannot be
    read, the inventory object cannot be split off, or the pruning fails. *)
Definition fatalError : option error :=
  match GetObjects d with
  | (_, Some err) => Some (WrapPrefix err "error reading resource manifests")
  | (infos, None) =>
      match Inventory.SplitInfos InventoryLabel infos with
      | (_, _, Some err) => Some (WrapPrefix err "error clearing inventory object")
      | (invInfo, _, None) =>
          match snd (Prune d [invInfo] runOptions) with
          | Some err => Some (WrapPrefix err "error pruning resources")
          | None => None
          end
      end
  end.

Lemma start_chEvents (s : State) : chEvents (start InventoryLabel d s) = chEvents s.
Proof.
  unfold start. destruct (GetObjects d) as [infos [e|]]; [reflexivity|].
  destruct (Inventory.SplitInfos InventoryLabel infos) as [[invInfo rs] [e|]]; [reflexivity|].
  destruct (Prune d [invInfo] _); reflexivity.
Qed.

(** A step only adds to the events on the channel. *)
Lemma step_chEvents (g : Goroutine) (s : State) :
  exists more, chEvents (step InventoryLabel d g s) = chEvents s ++ more.
Proof.
  assert (Hsame : exists more, chEvents s = chEvents s ++ more)
    by (exists []; now rewrite app_nil_r).
  unfold step. destruct (crashed s); [exact Hsame|]. destruct g.
  - unfold stepMain. destruct (main s) as [|pending e i|e i|e|e|e| |]; cbn;
      try exact Hsame.
    + rewrite start_chEvents. exact Hsame.
    + destruct pending; [exact Hsame|]. destruct (trans s); exact Hsame.
    + destruct i; exact Hsame.
    + destruct (completedClosed s); exact Hsame.
    + eexists; reflexivity.
  - unfold stepTrans. destruct (trans s) as [| |msg|pm|]; cbn; try exact Hsame.
    + destruct (tempClosed s); exact Hsame.
    + destruct (transformEvent msg); [eexists; reflexivity | exact Hsame].
Qed.

Lemma exec_cons (g : Goroutine) (schedule : list Goroutine) (s : State) :
  exec InventoryLabel d (g :: schedule) s
  = exec InventoryLabel d schedule (step InventoryLabel d g s).
Proof. reflexivity. Qed.

Lemma exec_chEvents (schedule : list Goroutine) (s : State) :
  exists more, chEvents (exec InventoryLabel d schedule s) = chEvents s ++ more.
Proof.
  revert s. induction schedule as [|g schedule IH]; intros s.
  - exists []. cbn. now rewrite app_nil_r.
  - rewrite exec_cons. destruct (IH (step InventoryLabel d g s)) as [m2 H2].
    destruct (step_chEvents g s) as [m1 H1].
    rewrite H2, H1, <- app_assoc. eexists; reflexivity.
Qed.

(** Where an event that none of [fwd] resembles stands in [fwd ++ last]. *)
Lemma find_in_tail {A : Type} (P : A -> Prop) (fwd last pre post : list A) (e : A) :
  Forall P fwd -> ~ P e ->
  pre ++ e :: post = fwd ++ last ->
  exists pre', pre = fwd ++ pre' /\ last = pre' ++ e :: post.
Proof.
  intros Hall Hne. revert pre. induction Hall as [|x fwd Hx _ IH]; intros pre Heq.
  - exists pre. now split.
  - destruct pre as [|y pre]; cbn in Heq; injection Heq as -> Heq.
    + contradiction.
    + destruct (IH pre Heq) as (pre' & -> & ->). exists pre'. now split.
Qed.

(** In every state of a run, an error event on the channel is its last
    event, the only error event, and comes from the goroutine of [Run], which
    has nothing left to do but to close the channel. *)
Lemma error_event_last (s : State) (pre post : list Event) (e : Event) :
  runInv s ->
  chEvents s = pre ++ e :: post -> eType e = ErrorType ->
  post = []
  /\ Forall (fun e' => eType e' <> ErrorType) pre
  /\ hasSent (main s) = true
  /\ (main s = MDone -> chClosed s = true).
Proof.
  intros Hinv Hch He.
  destruct Hinv as [Hs|[(e0 & He0 & Hinv)|(infos & invInfo & rs & evs & err & H1 & H2 & H3 & Hinv)]].
  - rewrite Hs in Hch. cbn in Hch. now destruct pre.
  - destruct Hinv as (_ & _ & _ & _ & _ & Hm).
    destruct (main s); try contradiction.
    + destruct Hm as (_ & Hm & _). rewrite Hm in Hch. now destruct pre.
    + destruct Hm as (Hm & _). rewrite Hm in Hch.
      destruct pre as [|? [|? ?]]; try discriminate Hch. injection Hch as _ <-.
      repeat split; try constructor; discriminate.
    + destruct Hm as (Hm & Hcl). rewrite Hm in Hch.
      destruct pre as [|? [|? ?]]; try discriminate Hch. injection Hch as _ <-.
      repeat split; try constructor; trivial.
  - destruct Hinv as (done & fwd & HF & Hch' & Ht & Hm & Hc).
    pose proof (forwarded_are_deletes _ _ HF) as Hdel.
    rewrite Hch' in Hch. symmetry in Hch.
    assert (Hne : eType e <> DeleteType) by (rewrite He; discriminate).
    destruct (find_in_tail _ fwd _ pre post e Hdel Hne Hch) as (pre' & -> & Htail).
    destruct (hasSent (main s)) eqn:Hsent; [|now destruct pre'].
    destruct pre' as [|? [|? ?]]; try discriminate Htail. injection Htail as _ <-.
    rewrite app_nil_r. split; [reflexivity|]. split.
    + eapply Forall_impl; [exact Hdel|]. cbn. intros a Ha. rewrite Ha. discriminate.
    + split; [reflexivity|]. intros Hd. unfold mainFacts in Hm. rewrite Hd in Hm. tauto.
Qed.

(** C3. In every run of the Destroyer, whatever the order in which its
    goroutines run: an error event on the channel is the last event, no other
    error event precedes it, no event follows it however the run goes on, and
    the channel is closed or the next step of the goroutine of [Run] closes
    it.  A run that has come to its end has closed the channel; after a fatal
    failure it has sent exactly one error event, as its last event, and
    otherwise none. *)
Theorem error_event_ends_the_run (schedule : list Goroutine) :
  let s := Run InventoryLabel d schedule in
  (forall pre e post,
     chEvents s = pre ++ e :: post -> eType e = ErrorType ->
     post = []
     /\ Forall (fun e' => eType e' <> ErrorType) pre
     /\ (forall more, chEvents (exec InventoryLabel d more s) = chEvents s)
     /\ (chClosed s = true
         \/ exists s', stepMain InventoryLabel d s = Some s' /\ chClosed s' = true))
  /\ (main s = MDone ->
      chClosed s = true
      /\ match fatalError with
         | Some err =>
             exists pre, chEvents s = pre ++ [mkErrorEvent (Some err)]
                         /\ Forall (fun e' => eType e' <> ErrorType) pre
         | None => Forall (fun e' => eType e' <> ErrorType) (chEvents s)
         end).
Proof.
  intros s. pose proof (Run_runInv schedule) as Hinv. fold s in Hinv. split.
  - intros pre e post Hch He.
    destruct (error_event_last s pre post e Hinv Hch He) as (-> & Hpre & Hsent & Hclosed).
    split; [reflexivity|]. split; [exact Hpre|]. split.
    + intros more.
      destruct (exec_chEvents more s) as [extra Hextra].
      assert (Hinv' : runInv (exec InventoryLabel d more s)) by now apply exec_runInv.
      rewrite Hch, <- app_assoc in Hextra. cbn in Hextra.
      destruct (error_event_last _ pre extra e Hinv' Hextra He) as (-> & _).
      now rewrite Hextra, Hch.
    + unfold stepMain. destruct (main s); try discriminate Hsent.
      * right. eexists. split; reflexivity.
      * left. now apply Hclosed.
  - intros Hd. unfold fatalError.
    destruct Hinv as [Hs|[(e0 & He0 & Hinv)|(infos & invInfo & rs & evs & err & H1 & H2 & H3 & Hinv)]].
    + rewrite Hs in Hd. discriminate Hd.
    + destruct Hinv as (_ & _ & _ & _ & _ & Hm). rewrite Hd in Hm. destruct Hm as [Hch Hcl].
      split; [exact Hcl|]. unfold earlyError in He0.
      destruct (GetObjects d) as [infos [e|]].
      * injection He0 as <-. exists []. now split.
      * destruct (Inventory.SplitInfos InventoryLabel infos) as [[invInfo rs] [e|]];
          [|discriminate He0].
        injection He0 as <-. exists []. now split.
    + destruct Hinv as (done & fwd & HF & Hch & Ht & Hm & Hc).
      pose proof (forwarded_are_deletes _ _ HF) as Hdel.
      assert (Hfwd : Forall (fun e' => eType e' <> ErrorType) fwd).
      { eapply Forall_impl; [exact Hdel|]. cbn. intros a Ha. rewrite Ha. discriminate. }
      unfold mainFacts in Hm. rewrite Hd in Hm, Hch. cbn in Hch.
      split; [tauto|]. rewrite H1, H2, H3. cbn [snd].
      destruct err as [e|]; cbn in Hch.
      * exists fwd. now split.
      * rewrite Hch. apply Forall_app. split; [exact Hfwd|].
        repeat constructor. discriminate.
Qed.







End DestroyFacts.

(** ** Every run comes to an end *)

Section DestroyProgress.
Import GoStrings Objects Event Destroy.

Variable InventoryLabel : string.
Variable d : Destroyer.

(** The events [Prune] sends in this run, when the run comes to the pruning. *)
Definition plannedEvents : list Event :=
  match GetObjects d with
  | (_, Some _) => []
  | (infos, None) =>
      match Inventory.SplitInfos InventoryLabel infos with
      | (_, _, Some _) => []
      | (invInfo, _, None) => fst (Prune d [invInfo] (runOptions d))
      end
  end.

(** A bound on the steps the goroutines can still take. *)
Definition rank (s : State) : nat :=
  match crashed s with
  | Some _ => 0
  | None =>
      (match main s with
       | MStart => 2 * length plannedEvents + 9
       | MPruning pending _ _ => 2 * length pending + 7
       | MAfterPrune _ _ => 6
       | MCloseTemp _ => 5
       | MWaitCompleted _ => 4
       | MSend _ => 3
       | MReturn => 2
       | MDone => 0
       end
       + match trans s with
         | TNotStarted => 0
         | TRecv => 1
         | TSend _ => 2
         | TPanicking _ => 1
         | TDone => 0
         end)%nat
  end.

(** The run is over: the goroutine of [Run] is done, or the process has
    crashed. *)
Definition terminal (s : State) : Prop := main s = MDone \/ crashed s <> None.

Lemma start_rank : (rank (start InventoryLabel d initial) < rank initial)%nat.
Proof.
  unfold rank, start, plannedEvents. cbn.
  destruct (GetObjects d) as [infos [e|]]; cbn; [lia|].
  destruct (Inventory.SplitInfos InventoryLabel infos) as [[invInfo rs] [e|]]; cbn; [lia|].
  fold (runOptions d). destruct (Prune d [invInfo] (runOptions d)) as [evs err]. cbn. lia.
Qed.

Lemma stepMain_rank (s s' : State) :
  runInv InventoryLabel d s -> crashed s = None ->
  stepMain InventoryLabel d s = Some s' -> (rank s' < rank s)%nat.
Proof.
  intros Hinv Hcr Hstep.
  destruct Hinv as [->|Hinv].
  - injection Hstep as <-. apply start_rank.
  - assert (Hns : main s <> MStart).
    { destruct Hinv as [(e & _ & Hinv)|(? & ? & ? & ? & ? & _ & _ & _ & Hinv)].
      - destruct Hinv as (_ & _ & _ & _ & _ & Hm). intros E. now rewrite E in Hm.
      - destruct Hinv as (? & ? & _ & _ & _ & Hm & _). unfold mainFacts in Hm.
        intros E. now rewrite E in Hm. }
    destruct s as [m t tc cc ce chc cl cr]. cbn in *. subst cr.
    unfold stepMain in Hstep. unfold rank. cbn in *.
    destruct m as [|pending e i|e i|e|e|e| |]; try contradiction.
    + destruct pending as [|msg pending].
      * injection Hstep as <-. cbn. lia.
      * destruct t; try discriminate Hstep. injection Hstep as <-. cbn. lia.
    + destruct i; injection Hstep as <-; cbn; lia.
    + injection Hstep as <-. cbn. lia.
    + destruct cc; [|discriminate Hstep]. injection Hstep as <-. cbn. lia.
    + injection Hstep as <-. cbn. lia.
    + injection Hstep as <-. cbn. lia.
    + discriminate Hstep.
Qed.

Lemma stepTrans_rank (s s' : State) :
  crashed s = None -> stepTrans s = Some s' -> (rank s' < rank s)%nat.
Proof.
  intros Hcr Hstep. destruct s as [m t tc cc ce chc cl cr]. cbn in *. subst cr.
  unfold stepTrans in Hstep. unfold rank. cbn in *.
  destruct t as [| |msg|pm|]; try discriminate Hstep.
  - destruct tc; [|discriminate Hstep]. injection Hstep as <-. cbn. lia.
  - destruct (transformEvent msg); injection Hstep as <-; cbn; lia.
  - injection Hstep as <-. cbn. lia.
Qed.

Lemma step_rank (g : Goroutine) (s : State) :
  runInv InventoryLabel d s -> (rank (step InventoryLabel d g s) <= rank s)%nat.
Proof.
  intros Hinv. unfold step. destruct (crashed s) eqn:Hcr; [lia|]. destruct g.
  - destruct (stepMain InventoryLabel d s) as [s'|] eqn:Hstep; cbn; [|lia].
    pose proof (stepMain_rank s s' Hinv Hcr Hstep). lia.
  - destruct (stepTrans s) as [s'|] eqn:Hstep; cbn; [|lia].
    pose proof (stepTrans_rank s s' Hcr Hstep). lia.
Qed.

(** No deadlock: while the run is not over, one of the goroutines can take a
    step. *)
Lemma some_goroutine_steps (s : State) :
  runInv InventoryLabel d s -> ~ terminal s ->
  stepMain InventoryLabel d s <> None \/ stepTrans s <> None.
Proof.
  intros Hinv Hnt. unfold terminal in Hnt.
  destruct Hinv as [->|[(e & _ & Hinv)|(? & ? & ? & evs & err & _ & _ & _ & Hinv)]].
  - left. discriminate.
  - left. destruct Hinv as (_ & _ & _ & _ & _ & Hm). unfold stepMain.
    destruct (main s); try contradiction; try discriminate. tauto.
  - destruct Hinv as (done & fwd & _ & _ & Ht & Hm & _).
    unfold transFacts in Ht. unfold mainFacts in Hm. unfold stepMain, stepTrans.
    destruct (main s) as [|pending e i|e i|e|e|e| |]; try contradiction;
      try (left; discriminate).
    + destruct pending as [|msg pending]; [left; discriminate|].
      destruct (trans s) as [| |msg'|pm|]; try contradiction.
      * left. discriminate.
      * right. destruct (transformEvent msg'); discriminate.
      * right. discriminate.
      * destruct Ht as (_ & _ & Htc). destruct Hm as (_ & _ & Htc' & _). congruence.
    + left. destruct i; discriminate.
    + destruct (completedClosed s) eqn:Hcc; [left; discriminate|].
      right. destruct (trans s) as [| |msg'|pm|]; try contradiction.
      * destruct Hm as (_ & -> & _). discriminate.
      * destruct (transformEvent msg'); discriminate.
      * destruct Ht as (_ & Ht). congruence.
      * destruct Ht as (_ & Ht & _). congruence.
    + tauto.
Qed.

Lemma terminal_step (g : Goroutine) (s : State) :
  terminal s -> terminal (step InventoryLabel d g s).
Proof.
  unfold terminal, step. intros [Hd|Hcr].
  - destruct (crashed s) eqn:E; [now left|]. destruct g.
    + unfold stepMain. rewrite Hd. cbn. now left.
    + left. unfold stepTrans.
      destruct (trans s) as [| |msg|pm|]; cbn; try exact Hd.
      * destruct (tempClosed s); exact Hd.
      * destruct (transformEvent msg); exact Hd.
  - destruct (crashed s) eqn:E; [right; rewrite E; discriminate | contradiction].
Qed.

(** One round of the two goroutines brings a run that is not over nearer to
    its end. *)
Lemma round_rank (s : State) :
  runInv InventoryLabel d s -> ~ terminal s ->
  (rank (exec InventoryLabel d [GMain; GTransformer] s) < rank s)%nat.
Proof.
  intros Hinv Hnt.
  assert (Hcr : crashed s = None).
  { destruct (crashed s) eqn:E; [|reflexivity]. contradiction Hnt. right. rewrite E. discriminate. }
  change (exec InventoryLabel d [GMain; GTransformer] s)
    with (step InventoryLabel d GTransformer (step InventoryLabel d GMain s)).
  pose proof (step_runInv InventoryLabel d GMain s Hinv) as Hinv'.
  pose proof (step_rank GTransformer _ Hinv') as Hle.
  destruct (stepMain InventoryLabel d s) as [s'|] eqn:Hmain.
  - pose proof (stepMain_rank s s' Hinv Hcr Hmain) as Hlt.
    assert (E : step InventoryLabel d GMain s = s') by (unfold step; now rewrite Hcr, Hmain).
    rewrite E in *. lia.
  - assert (E : step InventoryLabel d GMain s = s) by (unfold step; now rewrite Hcr, Hmain).
    rewrite E in *.
    destruct (some_goroutine_steps s Hinv Hnt) as [H|H]; [congruence|].
    destruct (stepTrans s) as [s'|] eqn:Htrans; [|congruence].
    pose proof (stepTrans_rank s s' Hcr Htrans) as Hlt.
    unfold step. rewrite Hcr, Htrans. cbn. exact Hlt.
Qed.

(** The schedule that lets the two goroutines take turns, [n] times. *)
Definition roundRobin (n : nat) : list Goroutine :=
  concat (repeat [GMain; GTransformer] n).

Lemma terminal_decidable (s : State) : terminal s \/ ~ terminal s.
Proof.
  unfold terminal. destruct (crashed s); [left; right; discriminate|].
  destruct (main s); try (right; intros [H|H]; [discriminate H | now apply H]).
  left. now left.
Qed.

Lemma roundRobin_terminal (n : nat) (s : State) :
  runInv InventoryLabel d s -> (rank s <= n)%nat ->
  terminal (exec InventoryLabel d (roundRobin n) s).
Proof.
  revert s. induction n as [|n IH]; intros s Hinv Hrank.
  - cbn. destruct (terminal_decidable s) as [H|H]; [exact H|].
    assert (Hcr : crashed s = None).
    { destruct (crashed s) eqn:E; [|reflexivity]. contradiction H. right. rewrite E. discriminate. }
    pose proof (round_rank s Hinv H). lia.
  - unfold roundRobin. cbn [repeat concat]. fold (roundRobin n).
    rewrite (exec_app InventoryLabel d).
    assert (Hinv' : runInv InventoryLabel d (exec InventoryLabel d [GMain; GTransformer] s))
      by now apply exec_runInv.
    destruct (terminal_decidable s) as [H|H].
    + clear IH Hrank. 
      assert (Hall : forall l s0, terminal s0 -> terminal (exec InventoryLabel d l s0)).
      { induction l as [|g l IHl]; intros s0 H0; [exact H0|].
        apply IHl. now apply terminal_step. }
      apply Hall. apply Hall. exact H.
    + apply IH; [exact Hinv'|]. pose proof (round_rank s Hinv H). lia.
Qed.

(** Every run of the Destroyer comes to an end when its goroutines take
    turns: the goroutine of [Run] closes the channel and is done, unless the
    event transformer has panicked on an operation that is not declared. *)
Lemma Run_comes_to_an_end :
  let s := Run InventoryLabel d (roundRobin (2 * length plannedEvents + 9)) in
  terminal s
  /\ (Forall (fun msg => declaredPruneOp (peOperation (ePruneEvent msg)) = true)
             plannedEvents ->
      main s = MDone /\ chClosed s = true /\ crashed s = None).
Proof.
  intros s.
  assert (Hinv : runInv InventoryLabel d s) by apply Run_runInv.
  assert (Hterm : terminal s).
  { apply roundRobin_terminal; [now left|]. unfold rank. cbn. lia. }
  split; [exact Hterm|]. intros Hall.
  assert (Hcr : crashed s = None).
  { destruct (crashed s) as [m|] eqn:E; [|reflexivity]. exfalso.
    destruct Hinv as [Hs|[(e & _ & Hinv)|(infos & invInfo & rs & evs & err & H1 & H2 & H3 & Hinv)]].
    - rewrite Hs in E. discriminate E.
    - destruct Hinv as (_ & _ & _ & Hc & _). congruence.
    - destruct Hinv as (done & fwd & _ & _ & Ht & _ & Hc).
      specialize (Hc m E). unfold transFacts in Ht. rewrite Hc in Ht.
      destruct Ht as [(msg & Hevs & Hp) _]. apply transformEvent_panics in Hp.
      unfold plannedEvents in Hall. rewrite H1, H2, H3 in Hall. cbn in Hall.
      rewrite Hevs in Hall. apply Forall_app in Hall as [_ Hall].
      inversion Hall as [|? ? Hmsg _]; subst. congruence. }
  destruct Hterm as [Hd|Hc]; [|contradiction].
  split; [exact Hd|]. split; [|exact Hcr].
  destruct Hinv as [Hs|[(e & _ & Hinv)|(infos & invInfo & rs & evs & err & H1 & H2 & H3 & Hinv)]].
  - rewrite Hs in Hd. discriminate Hd.
  - destruct Hinv as (_ & _ & _ & _ & _ & Hm). rewrite Hd in Hm. tauto.
  - destruct Hinv as (done & fwd & _ & _ & _ & Hm & _). unfold mainFacts in Hm.
    rewrite Hd in Hm. tauto.
Qed.

End DestroyProgress.

(** ** What every run does once its goroutines take turns *)

Section DestroyRuns.
Import GoStrings Objects Event Destroy.

Variable InventoryLabel : string.
Variable d : Destroyer.

Lemma exec_rank (schedule : list Goroutine) (s : State) :
  runInv InventoryLabel d s ->
  (rank InventoryLabel d (exec InventoryLabel d schedule s) <= rank InventoryLabel d s)%nat.
Proof.
  revert s. induction schedule as [|g schedule IH]; intros s Hinv; [cbn; lia|].
  rewrite exec_cons.
  pose proof (step_rank InventoryLabel d g s Hinv) as Hstep.
  pose proof (IH _ (step_runInv InventoryLabel d g s Hinv)) as Hrest. lia.
Qed.

(** A run that is over without a crash has closed the channel. *)
Lemma terminal_closed (s : State) :
  runInv InventoryLabel d s -> terminal s ->
  Forall (fun msg => declaredPruneOp (peOperation (ePruneEvent msg)) = true)
         (plannedEvents InventoryLabel d) ->
  main s = MDone /\ chClosed s = true /\ crashed s = None.
Proof.
  intros Hinv Hterm Hall.
  assert (Hcr : crashed s = None).
  { destruct (crashed s) as [m|] eqn:E; [|reflexivity]. exfalso.
    destruct Hinv as [Hs|[(e & _ & Hinv)|(infos & invInfo & rs & evs & err & H1 & H2 & H3 & Hinv)]].
    - rewrite Hs in E. discriminate E.
    - destruct Hinv as (_ & _ & _ & Hc & _). congruence.
    - destruct Hinv as (done & fwd & _ & _ & Ht & _ & Hc).
      specialize (Hc m E). unfold transFacts in Ht. rewrite Hc in Ht.
      destruct Ht as [(msg & Hevs & Hp) _]. apply transformEvent_panics in Hp.
      unfold plannedEvents in Hall. rewrite H1, H2, H3 in Hall. cbn in Hall.
      rewrite Hevs in Hall. apply Forall_app in Hall as [_ Hall].
      inversion Hall as [|? ? Hmsg _]; subst. congruence. }
  destruct Hterm as [Hd|Hc]; [|contradiction].
  split; [exact Hd|]. split; [|exact Hcr].
  destruct Hinv as [Hs|[(e & _ & Hinv)|(infos & invInfo & rs & evs & err & H1 & H2 & H3 & Hinv)]].
  - rewrite Hs in Hd. discriminate Hd.
  - destruct Hinv as (_ & _ & _ & _ & _ & Hm). rewrite Hd in Hm. tauto.
  - destruct Hinv as (done & fwd & _ & _ & _ & Hm & _). unfold mainFacts in Hm.
    rewrite Hd in Hm. tauto.
Qed.

(** A run that has come to the pruning is over, with the channel closed,
    once its goroutines have taken turns for two rounds for each message of
    [Prune] and nine more, however they have been scheduled before. *)
Lemma pruning_run_finishes (schedule : list Goroutine)
    (infos resources : list (option Info)) (invInfo : option Info)
    (evs : list Event) (err : option error) :
  GetObjects d = (infos, None) ->
  Inventory.SplitInfos InventoryLabel infos = (invInfo, resources, None) ->
  Prune d [invInfo] (runOptions d) = (evs, err) ->
  Forall (fun msg => declaredPruneOp (peOperation (ePruneEvent msg)) = true) evs ->
  let s := Run InventoryLabel d (schedule ++ roundRobin (2 * length evs + 9)) in
  main s = MDone /\ chClosed s = true /\ crashed s = None.
Proof.
  intros H1 H2 H3 Hall s.
  assert (Hplanned : plannedEvents InventoryLabel d = evs).
  { unfold plannedEvents. now rewrite H1, H2, H3. }
  assert (Hinv : runInv InventoryLabel d s) by apply Run_runInv.
  assert (Hterm : terminal s).
  { unfold s, Run. rewrite exec_app.
    apply roundRobin_terminal; [apply exec_runInv; now left|].
    etransitivity; [apply exec_rank; now left|].
    unfold rank. cbn. rewrite Hplanned. lia. }
  apply terminal_closed; [exact Hinv | exact Hterm | now rewrite Hplanned].
Qed.

(** C2. No event on the channel of [Run] is a prune event.  In a run that
    comes to the pruning, the events on the channel are at every moment, in
    order, what the first messages of [Prune] have been relabelled to (a
    delete event for the same object, Deleted for Pruned, DeleteSkipped for
    PruneSkipped), followed at most by the last event of the run.  And the
    messages do reach the channel: from every such moment on, when the
    goroutines take turns, the run ends with every message of [Prune]
    relabelled on the channel, in order, before the last event. *)
Theorem prune_events_relabelled_as_delete_events (schedule : list Goroutine) :
  let s := Run InventoryLabel d schedule in
  Forall (fun e => eType e <> PruneType) (chEvents s)
  /\ (forall infos invInfo resources evs err,
        GetObjects d = (infos, None) ->
        Inventory.SplitInfos InventoryLabel infos = (invInfo, resources, None) ->
        Prune d [invInfo] (runOptions d) = (evs, err) ->
        (exists done rest fwd last,
           evs = done ++ rest
           /\ Forall2 relabelled done fwd
           /\ chEvents s = fwd ++ last
           /\ (last = [] \/ last = [lastEvent err])
           /\ (main s = MDone ->
               Forall (fun msg => declaredPruneOp (peOperation (ePruneEvent msg)) = true)
                      evs ->
               rest = [] /\ last = [lastEvent err]))
        /\ (Forall (fun msg => declaredPruneOp (peOperation (ePruneEvent msg)) = true) evs ->
            let s' := Run InventoryLabel d (schedule ++ roundRobin (2 * length evs + 9)) in
            main s' = MDone /\ chClosed s' = true
            /\ exists fwd,
                 Forall2 relabelled evs fwd
                 /\ chEvents s' = fwd ++ [lastEvent err])).
Proof.
  intros s.
  destruct (channel_holds_relabelled_events InventoryLabel d schedule) as [Hnone Hsafe].
  split; [exact Hnone|].
  intros infos invInfo resources evs err H1 H2 H3.
  split; [exact (Hsafe infos invInfo resources evs err H1 H2 H3)|].
  intros Hall s'.
  destruct (pruning_run_finishes schedule infos resources invInfo evs err H1 H2 H3 Hall)
    as (Hdone & Hclosed & _).
  fold s' in Hdone, Hclosed.
  destruct (channel_holds_relabelled_events InventoryLabel d
              (schedule ++ roundRobin (2 * length evs + 9))) as [_ Hsafe'].
  destruct (Hsafe' infos invInfo resources evs err H1 H2 H3)
    as (done & rest & fwd & last & Hevs & HF & Hch & _ & Hend).
  fold s' in Hch, Hend.
  destruct (Hend Hdone Hall) as [-> ->]. rewrite app_nil_r in Hevs. subst done.
  split; [exact Hdone|]. split; [exact Hclosed|].
  exists fwd. split; [exact HF | exact Hch].
Qed.


End DestroyRuns.

(** ** Sample runs of the Destroyer *)

Definition sampleLabel : string := "cli-utils.sigs.k8s.io/inventory-id".

Definition sampleInventory : Objects.Info :=
  sampleInfo "inventory-1f2e" {[ sampleLabel := "test-app" ]}.

Definition sampleInfos : list (option Objects.Info) :=
  [Some sampleInventory; Some (sampleInfo "b" ∅)].

Definition samplePruned : list Event.Event :=
  [ pruneUpdate Event.Pruned (sampleConfigMap "b" ∅);
    pruneUpdate Event.PruneSkipped (sampleDeployment "c") ].

(** A Destroyer whose pruning returns [err] and whose inventory object cannot
    be deleted. *)
Definition sampleDestroyer (err : option Objects.error) : Destroy.Destroyer :=
  {| Destroy.DryRunStrategy_ := Event.DryRunNone;
     Destroy.GetObjects := (sampleInfos, None);
     Destroy.Prune := fun _ _ => (samplePruned, err);
     Destroy.DeleteInventoryObj := fun _ => Some (Objects.Errorf "not found") |}.

Definition deleteUpdate (op : Event.DeleteEventOperation) (obj : Objects.Unstructured)
  : Event.Event :=
  Event.mkDeleteEvent {| Event.deType := Event.DeleteEventResourceUpdate;
                         Event.deOperation := op; Event.deObject := Some obj |}.

Definition sampleDeleted : list Event.Event :=
  [ deleteUpdate Event.Deleted (sampleConfigMap "b" ∅);
    deleteUpdate Event.DeleteSkipped (sampleDeployment "c") ].

Example sample_run_succeeds :
  let s := Destroy.Run sampleLabel (sampleDestroyer None) (roundRobin 9) in
  Destroy.main s = Destroy.MDone
  /\ Destroy.chClosed s = true
  /\ Destroy.chEvents s = sampleDeleted ++ [Destroy.lastEvent None].
Proof. vm_compute. repeat split. Qed.

Example sample_run_fails :
  let s := Destroy.Run sampleLabel
             (sampleDestroyer (Some (Objects.Errorf "connection refused"))) (roundRobin 9) in
  Destroy.main s = Destroy.MDone
  /\ Destroy.chClosed s = true
  /\ Destroy.chEvents s =
     sampleDeleted
     ++ [Event.mkErrorEvent
           (Some (Objects.WrapPrefix (Objects.Errorf "connection refused")
                                     "error pruning resources"))].
Proof. vm_compute. repeat split. Qed.

Lemma prune_events_relabelled_as_delete_events_witness :
  let s' := Destroy.Run sampleLabel (sampleDestroyer None)
              (roundRobin 2 ++ roundRobin (2 * length samplePruned + 9)) in
  Destroy.main s' = Destroy.MDone
  /\ exists e1 e2,
       Destroy.chEvents s' = [e1; e2; Destroy.lastEvent None]
       /\ relabelled (pruneUpdate Event.Pruned (sampleConfigMap "b" ∅)) e1
       /\ relabelled (pruneUpdate Event.PruneSkipped (sampleDeployment "c")) e2.
Proof.
  destruct (prune_events_relabelled_as_delete_events sampleLabel (sampleDestroyer None)
              (roundRobin 2)) as [_ H].
  destruct (H sampleInfos (Some sampleInventory) [Some (sampleInfo "b" ∅)] samplePruned None)
    as [_ Hlive].
  - reflexivity.
  - vm_compute. reflexivity.
  - reflexivity.
  - destruct Hlive as (Hdone & _ & fwd & HF & Hch); [repeat constructor|].
    split; [exact Hdone|].
    destruct fwd as [|e1 [|e2 [|e3 fwd]]];
      try (apply Forall2_length in HF; discriminate HF).
    exists e1, e2. split; [exact Hch|].
    apply Forall2_cons_1 in HF as [H1 HF]. apply Forall2_cons_1 in HF as [H2 _].
    split; [exact H1 | exact H2].
Defined.

Lemma error_event_ends_the_run_witness :
  let d := sampleDestroyer (Some (Objects.Errorf "connection refused")) in
  let s := Destroy.Run sampleLabel d (roundRobin 8) in
  (forall more, Destroy.chEvents (Destroy.exec sampleLabel d more s) = Destroy.chEvents s)
  /\ (Destroy.chClosed s = true
      \/ exists s', Destroy.stepMain sampleLabel d s = Some s'
                    /\ Destroy.chClosed s' = true).
Proof.
  intros d s.
  destruct (error_event_ends_the_run sampleLabel d (roundRobin 8)) as [H _].
  destruct (H sampleDeleted
              (Event.mkErrorEvent
                 (Some (Objects.WrapPrefix (Objects.Errorf "connection refused")
                                           "error pruning resources")))
              []) as (_ & _ & Hmore & Hclose).
  - vm_compute. reflexivity.
  - reflexivity.
  - split; [exact Hmore | exact Hclose].
Defined.




(** ** Sample splits *)

Definition sampleSecondInventory : Objects.Info :=
  sampleInfo "inventory-77aa" {[ sampleLabel := "other-app" ]}.

(** A ConfigMap whose inventory label is two spaces. *)
Definition sampleBlankLabelled : Objects.Unstructured :=
  sampleConfigMap "blank" {[ sampleLabel := "  " ]}.

Lemma split_one_none_many_witness :
  Inventory.SplitInfos sampleLabel sampleInfos
  = (Some sampleInventory, [Some (sampleInfo "b" ∅)], None)
  /\ Inventory.SplitInfos sampleLabel [None; Some (sampleInfo "b" ∅)]
     = (None, [Some (sampleInfo "b" ∅)], Some Objects.NoInventoryObjError)
  /\ Inventory.SplitUnstructureds sampleLabel
       [Objects.Object sampleInventory; Some (sampleConfigMap "b" ∅);
        Objects.Object sampleSecondInventory]
     = (None, [Some (sampleConfigMap "b" ∅)],
        Some (Objects.MultipleInventoryObjError
                [Objects.Object sampleInventory; Objects.Object sampleSecondInventory])).
Proof.
  destruct (split_one_none_many sampleLabel sampleInfos []) as [(H1 & _ & _) _].
  destruct (split_one_none_many sampleLabel [None; Some (sampleInfo "b" ∅)] [])
    as [(_ & H2 & _) _].
  destruct (split_one_none_many sampleLabel []
              [Objects.Object sampleInventory; Some (sampleConfigMap "b" ∅);
               Objects.Object sampleSecondInventory]) as [_ (_ & _ & H3)].
  split; [|split].
  - apply H1. vm_compute. reflexivity.
  - apply H2. vm_compute. reflexivity.
  - apply H3. vm_compute. lia.
Defined.

Lemma inventory_object_iff_label_not_blank_witness :
  Inventory.IsInventoryObject sampleLabel (Some sampleBlankLabelled) = false
  /\ In (Some sampleBlankLabelled)
        (snd (fst (Inventory.SplitUnstructureds sampleLabel
                     [Objects.Object sampleInventory; Some sampleBlankLabelled]))).
Proof.
  destruct (inventory_object_iff_label_not_blank sampleLabel) as [_ H].
  destruct (H sampleBlankLabelled "  ") as (H1 & H2 & _).
  - vm_compute. reflexivity.
  - exists [" "; " "]%string. split; [|reflexivity].
    repeat constructor; vm_compute; tauto.
  - split; [exact H1|]. apply H2. right. left. reflexivity.
Defined.

(** * Further functions and their properties *)

(** ** [FindInventoryObj] *)

Module FindInventory.
Import Objects Inventory.

Section WithLabel.

Variable InventoryLabel : string.

(** [FindInventoryObj]: the first info with the inventory label, or nil if
    there is none; nil infos and infos without an object are passed over. *)
Fixpoint FindInventoryObj (infos : list (option Info)) : option Info :=
  match infos with
  | [] => None
  | info :: rest =>
      match info with
      | None => FindInventoryObj rest
      | Some i =>
          match Object i with
          | None => FindInventoryObj rest
          | Some _ =>
              if IsInventoryObject InventoryLabel (InfoToUnstructured info)
              then info
              else FindInventoryObj rest
          end
      end
  end.

End WithLabel.

End FindInventory.

Section FindInventoryFacts.
Import GoStrings Objects Inventory FindInventory.

Variable InventoryLabel : string.

Lemma FindInventoryObj_first_marker (infos : list (option Info)) :
  FindInventoryObj InventoryLabel infos
  = mjoin (head (List.filter (isMarkerInfo InventoryLabel) infos)).
Proof.
  induction infos as [|info infos IH]; [reflexivity|].
  cbn [FindInventoryObj List.filter]. unfold isMarkerInfo at 1, InfoToUnstructured.
  destruct info as [i|]; [|exact IH].
  destruct (Object i) as [o|] eqn:Ho; [|exact IH].
  destruct (IsInventoryObject InventoryLabel (Some o)); [reflexivity | exact IH].
Qed.

(** X1. [FindInventoryObj] and [SplitInfos] agree on the inventory object:
    what a successful [SplitInfos] returns is what [FindInventoryObj] finds;
    [FindInventoryObj] finds nothing exactly when [SplitInfos] fails with
    NoInventoryObjError; and where [SplitInfos] fails with
    MultipleInventoryObjError, [FindInventoryObj] returns the first of the
    conflicting infos without an error. *)
Theorem FindInventoryObj_agrees_with_SplitInfos (infos : list (option Info)) :
  (forall inv resources,
     SplitInfos InventoryLabel infos = (inv, resources, None) ->
     FindInventoryObj InventoryLabel infos = inv)
  /\ (FindInventoryObj InventoryLabel infos = None
      <-> snd (SplitInfos InventoryLabel infos) = Some NoInventoryObjError)
  /\ (forall templates,
        snd (SplitInfos InventoryLabel infos) = Some (MultipleInventoryObjError templates) ->
        exists first,
          FindInventoryObj InventoryLabel infos = Some first
          /\ head templates = Some (Object first)).
Proof.
  rewrite FindInventoryObj_first_marker, SplitInfos_filter.
  destruct (List.filter (isMarkerInfo InventoryLabel) infos) as [|m [|m' ms]] eqn:Hm.
  - split; [intros inv rs H; discriminate H|]. split; [now split|].
    intros templates H. discriminate H.
  - assert (Hin : In m (List.filter (isMarkerInfo InventoryLabel) infos))
      by (rewrite Hm; now left).
    apply filter_In in Hin as [_ Hin]. destruct m as [i|]; [|discriminate Hin].
    split; [intros inv rs [= <- _]; reflexivity|].
    split; [split; intros H; discriminate H|].
    intros templates H. discriminate H.
  - assert (Hin : In m (List.filter (isMarkerInfo InventoryLabel) infos))
      by (rewrite Hm; now left).
    apply filter_In in Hin as [_ Hin]. destruct m as [i|]; [|discriminate Hin].
    split; [intros inv rs H; discriminate H|].
    split; [split; intros H; discriminate H|].
    intros templates [= <-]. exists i. split; reflexivity.
Qed.

End FindInventoryFacts.

(** ** More on the split and on the suffix *)

Section SplitFacts.
Import GoStrings Objects Inventory.

Variable InventoryLabel : string.

(** An info that the loop of [SplitInfos] does not pass over. *)
Definition hasObject (info : option Info) : bool :=
  match info with
  | Some i => match Object i with Some _ => true | None => false end
  | None => false
  end.

Lemma filter_partition {A : Type} (f g : A -> bool) (l : list A) :
  (forall x, In x l -> g x = negb (f x)) ->
  Permutation (List.filter f l ++ List.filter g l) l.
Proof.
  induction l as [|x l IH]; intros H; [constructor|].
  assert (IH' : Permutation (List.filter f l ++ List.filter g l) l)
    by (apply IH; intros y Hy; apply H; now right).
  cbn [List.filter]. rewrite (H x (or_introl eq_refl)).
  destruct (f x); cbn [negb app].
  - now constructor.
  - rewrite <- Permutation_middle. now constructor.
Qed.

Lemma filter_all {A : Type} (f : A -> bool) (l : list A) :
  (forall x, In x l -> f x = true) -> List.filter f l = l.
Proof.
  induction l as [|x l IH]; intros H; [reflexivity|].
  cbn [List.filter]. rewrite (H x (or_introl eq_refl)). f_equal.
  apply IH. intros y Hy. apply H. now right.
Qed.

Lemma filter_filter_markers (infos : list (option Info)) :
  List.filter (isMarkerInfo InventoryLabel) (List.filter hasObject infos)
  = List.filter (isMarkerInfo InventoryLabel) infos
  /\ List.filter (isResourceInfo InventoryLabel) (List.filter hasObject infos)
     = List.filter (isResourceInfo InventoryLabel) infos.
Proof.
  induction infos as [|info infos [IH1 IH2]]; [now split|].
  cbn [List.filter]. destruct (hasObject info) eqn:Hv; cbn [List.filter].
  - now rewrite IH1, IH2.
  - rewrite IH1, IH2. unfold hasObject in Hv. unfold isMarkerInfo, isResourceInfo.
    destruct info as [i|]; [|now split].
    destruct (Object i); [discriminate Hv | now split].
Qed.

(** X2. The split loses and invents nothing.  For [SplitUnstructureds] the
    inventory objects of the input together with the resources returned are
    the objects of the input (nil entries among them), each once; no
    resource returned is an inventory object; without an inventory object
    the resources returned are the input itself, in its order.  For
    [SplitInfos] the same holds of the infos that are not nil and have an
    object; the others are in neither part. *)
Theorem split_keeps_every_object
    (infos : list (option Info)) (objs : list (option Unstructured)) :
  let uresources := snd (fst (SplitUnstructureds InventoryLabel objs)) in
  let resources := snd (fst (SplitInfos InventoryLabel infos)) in
  (Permutation (List.filter (IsInventoryObject InventoryLabel) objs ++ uresources) objs
   /\ Forall (fun obj => IsInventoryObject InventoryLabel obj = false) uresources
   /\ (snd (SplitUnstructureds InventoryLabel objs) = Some NoInventoryObjError ->
       uresources = objs))
  /\ (Permutation (List.filter (isMarkerInfo InventoryLabel) infos ++ resources)
                  (List.filter hasObject infos)
      /\ Forall (fun info => hasObject info = true
                             /\ IsInventoryObject InventoryLabel (InfoToUnstructured info)
                                = false) resources
      /\ (snd (SplitInfos InventoryLabel infos) = Some NoInventoryObjError ->
          resources = List.filter hasObject infos)).
Proof.
  intros uresources resources. subst uresources resources.
  rewrite SplitUnstructureds_resources, SplitInfos_resources. split.
  - split; [apply filter_partition; reflexivity|]. split.
    + apply List.Forall_forall. intros obj Hin. apply filter_In in Hin as [_ Hin].
      unfold isResourceObj in Hin. now destruct (IsInventoryObject InventoryLabel obj).
    + rewrite SplitUnstructureds_filter.
      destruct (List.filter (IsInventoryObject InventoryLabel) objs) as [|m [|m' ms]] eqn:Hm;
        intros H; try discriminate H.
      apply filter_all. intros obj Hin. unfold isResourceObj.
      destruct (IsInventoryObject InventoryLabel obj) eqn:E; [|reflexivity].
      assert (Hobj : In obj (List.filter (IsInventoryObject InventoryLabel) objs))
        by (apply filter_In; now split).
      rewrite Hm in Hobj. destruct Hobj.
  - destruct (filter_filter_markers infos) as [Hm Hr]. split; [|split].
    + rewrite <- Hm, <- Hr. apply filter_partition.
      intros info Hin. apply filter_In in Hin as [_ Hv].
      unfold hasObject in Hv. unfold isMarkerInfo, isResourceInfo.
      destruct info as [i|]; [|discriminate Hv]. now destruct (Object i).
    + apply List.Forall_forall. intros info Hin. apply filter_In in Hin as [_ Hin].
      unfold isResourceInfo in Hin. unfold hasObject, InfoToUnstructured.
      destruct info as [i|]; [|discriminate Hin].
      destruct (Object i) as [o|]; [|discriminate Hin].
      split; [reflexivity|]. now destruct (IsInventoryObject InventoryLabel (Some o)).
    + rewrite SplitInfos_filter.
      destruct (List.filter (isMarkerInfo InventoryLabel) infos) as [|m [|m' ms]] eqn:Hmk;
        intros H; try discriminate H.
      rewrite <- Hr. apply filter_all. intros info Hin.
      apply filter_In in Hin as [Hin Hv].
      destruct (isResourceInfo InventoryLabel info) eqn:E; [reflexivity|].
      assert (Hmarker : isMarkerInfo InventoryLabel info = true).
      { unfold hasObject in Hv. unfold isMarkerInfo. unfold isResourceInfo in E.
        destruct info as [i|]; [|discriminate Hv].
        destruct (Object i); [|discriminate Hv].
        now destruct (IsInventoryObject InventoryLabel (Some u)). }
      assert (Hobj : In info (List.filter (isMarkerInfo InventoryLabel) infos))
        by (apply filter_In; now split).
      rewrite Hmk in Hobj. destruct Hobj.
Qed.

End SplitFacts.

Section SuffixFacts.
Import GoStrings Objects Inventory.

(** X3. When [addSuffixToName] succeeds, the info was not nil and had an
    object under the same name, the suffix was not blank, the name of both
    is now the old name, a dash and the trimmed suffix, nothing else has
    changed, and a second call with the same suffix is rejected and changes
    nothing. *)
Theorem addSuffixToName_success (info info' : option Info) (suffix : string)
    (Hok : addSuffixToName info suffix = Ok (info', None)) :
  exists i obj,
    info = Some i /\ Object i = Some obj /\ uName obj = Name i
    /\ TrimSpace suffix <> ""
    /\ info' = Some (renamed i obj (Name i +:+ "-" +:+ TrimSpace suffix))
    /\ HasSuffix (Name i +:+ "-" +:+ TrimSpace suffix) ("-" +:+ TrimSpace suffix) = true
    /\ exists err, addSuffixToName info' suffix = Ok (info', Some err).
Proof.
  unfold addSuffixToName in Hok. destruct info as [i|]; [|discriminate Hok].
  destruct (String.length (TrimSpace suffix) =? 0)%nat eqn:Hlen; [discriminate Hok|].
  destruct (Object i) as [obj|] eqn:Hobj; [|discriminate Hok].
  destruct (String.eqb_spec (uName obj) (Name i)) as [Hname|Hname];
    cbn [negb] in Hok; [|discriminate Hok].
  destruct (HasSuffix (uName obj) ("-" +:+ TrimSpace suffix)) eqn:Hsuf; [discriminate Hok|].
  injection Hok as <-.
  assert (Hne : TrimSpace suffix <> "").
  { intros E. apply length_zero_iff_empty in E. congruence. }
  exists i, obj. rewrite Hname. repeat split; try assumption.
  - apply HasSuffix_append.
  - eexists.
    apply (addSuffixToName_has_suffix
             (renamed i obj (Name i +:+ "-" +:+ TrimSpace suffix))
             (SetName obj (Name i +:+ "-" +:+ TrimSpace suffix)));
      try reflexivity; [exact Hne | apply HasSuffix_append].
Qed.

(** X4. An error of [addSuffixToName] or of [fixLegacyInventoryName] leaves
    the info and its object as they were. *)
Theorem suffix_errors_change_nothing
    (info info' : option Info) (suffix : string) (err : error) :
  (addSuffixToName info suffix = Ok (info', Some err) -> info' = info)
  /\ (fixLegacyInventoryName suffix info = Ok (info', Some err) -> info' = info).
Proof.
  assert (Hadd : addSuffixToName info suffix = Ok (info', Some err) -> info' = info).
  { unfold addSuffixToName. destruct info as [i|]; [|now intros [= <- _]].
    destruct (String.length (TrimSpace suffix) =? 0)%nat; [now intros [= <- _]|].
    destruct (Object i) as [obj|]; [|discriminate].
    destruct (negb (uName obj =? Name i)%string); [now intros [= <- _]|].
    destruct (HasSuffix (uName obj) ("-" +:+ TrimSpace suffix)); [now intros [= <- _]|].
    discriminate. }
  split; [exact Hadd|].
  unfold fixLegacyInventoryName. destruct info as [i|]; [|now intros [= <- _]].
  destruct (Object i) as [obj|] eqn:Hobj; [|now intros [= <- _]].
  destruct ((Name i =? legacyInvName)%string || (uName obj =? legacyInvName)%string);
    [exact Hadd | discriminate].
Qed.

(** X5. [fixLegacyInventoryName] never panics: it checks the info and its
    object for nil first.  [addSuffixToName] panics exactly on an info that
    is not nil and has no object, with a suffix that is not blank. *)
Theorem suffix_panics (info : option Info) (suffix : string) :
  (exists r, fixLegacyInventoryName suffix info = Ok r)
  /\ ((exists msg, addSuffixToName info suffix = Panic msg)
      <-> exists i, info = Some i /\ Object i = None /\ TrimSpace suffix <> "").
Proof.
  split.
  - unfold fixLegacyInventoryName. destruct info as [i|]; [|eexists; reflexivity].
    destruct (Object i) as [obj|] eqn:Hobj; [|eexists; reflexivity].
    destruct ((Name i =? legacyInvName)%string || (uName obj =? legacyInvName)%string);
      [|eexists; reflexivity].
    unfold addSuffixToName. rewrite Hobj.
    destruct (String.length (TrimSpace suffix) =? 0)%nat; [eexists; reflexivity|].
    destruct (negb (uName obj =? Name i)%string); [eexists; reflexivity|].
    destruct (HasSuffix (uName obj) ("-" +:+ TrimSpace suffix)); eexists; reflexivity.
  - unfold addSuffixToName. split.
    + intros [msg H]. destruct info as [i|]; [|discriminate H].
      destruct (String.length (TrimSpace suffix) =? 0)%nat eqn:Hlen; [discriminate H|].
      destruct (Object i) as [obj|] eqn:Hobj.
      * destruct (negb (uName obj =? Name i)%string); [discriminate H|].
        destruct (HasSuffix (uName obj) ("-" +:+ TrimSpace suffix)); discriminate H.
      * exists i. split; [reflexivity|]. split; [exact Hobj|].
        intros E. apply length_zero_iff_empty in E. congruence.
    + intros (i & -> & Hobj & Hne). rewrite Hobj.
      destruct (String.length (TrimSpace suffix) =? 0)%nat eqn:Hlen.
      * apply length_zero_iff_empty in Hlen. contradiction.
      * eexists; reflexivity.
Qed.

(** X6. An info whose name and whose object's name differ is never renamed:
    when one of the two names is the legacy name, [fixLegacyInventoryName]
    returns an error (for the different names, or for a blank suffix), and
    the info and its object stay as they were. *)
Theorem legacy_name_mismatch_is_an_error
    (randomSuffix : string) (i : Info) (obj : Unstructured)
    (Hobj : Object i = Some obj)
    (Hlegacy : Name i = legacyInvName \/ uName obj = legacyInvName)
    (Hdiff : uName obj <> Name i) :
  fixLegacyInventoryName randomSuffix (Some i)
  = Ok (Some i,
        Some (Errorf
          (if (String.length (TrimSpace randomSuffix) =? 0)%nat
           then "passed empty suffix"
           else Sprintf "inventory object (%s) and resource.Info (%s) have different names"
                        [ArgStr (uName obj); ArgStr (Name i)]))).
Proof.
  unfold fixLegacyInventoryName. rewrite Hobj.
  assert (Hcond : (Name i =? legacyInvName)%string || (uName obj =? legacyInvName)%string
                  = true).
  { destruct Hlegacy as [H|H]; rewrite H, String.eqb_refl; [reflexivity|].
    apply orb_true_r. }
  rewrite Hcond. unfold addSuffixToName. rewrite Hobj.
  destruct (String.length (TrimSpace randomSuffix) =? 0)%nat; [reflexivity|].
  apply String.eqb_neq in Hdiff. rewrite Hdiff. reflexivity.
Qed.

End SuffixFacts.

(** ** More on the printer *)

Section PrinterSummaries.
Import GoStrings Objects Event Printer.

(** A delete event that reports a deleted, or a skipped, resource. *)
Definition isDeletedUpdate (e : Event) : bool :=
  match eType e, deType (eDeleteEvent e), deOperation (eDeleteEvent e) with
  | DeleteType, DeleteEventResourceUpdate, Deleted => true
  | _, _, _ => false
  end.

Definition isDeleteSkippedUpdate (e : Event) : bool :=
  match eType e, deType (eDeleteEvent e), deOperation (eDeleteEvent e) with
  | DeleteType, DeleteEventResourceUpdate, DeleteSkipped => true
  | _, _, _ => false
  end.

(** An apply event that reports a resource with the operation [op]. *)
Definition isApplyUpdate (op : ApplyEventOperation) (e : Event) : bool :=
  match eType e, aeType (eApplyEvent e) with
  | ApplyType, ApplyEventResourceUpdate =>
      match op, aeOperation (eApplyEvent e) with
      | ServersideApplied, ServersideApplied => true
      | Created, Created => true
      | Unchanged, Unchanged => true
      | Configured, Configured => true
      | _, _ => false
      end
  | _, _ => false
  end.

(** An apply event that reports a resource, whatever the operation. *)
Definition isAnyApplyUpdate (e : Event) : bool :=
  match eType e, aeType (eApplyEvent e) with
  | ApplyType, ApplyEventResourceUpdate => true
  | _, _ => false
  end.

Lemma wrapInt_mod (z : Z) : wrapInt z mod 2 ^ 64 = z mod 2 ^ 64.
Proof.
  unfold wrapInt. rewrite Zminus_mod, Z.mod_mod by lia.
  rewrite <- Zminus_mod. f_equal. lia.
Qed.

Lemma wrapInt_eq_mod (a b : Z) : a mod 2 ^ 64 = b mod 2 ^ 64 -> wrapInt a = wrapInt b.
Proof.
  intros H. unfold wrapInt. f_equal.
  rewrite (Zplus_mod a), (Zplus_mod b), H. reflexivity.
Qed.

Lemma intAdd_wrapInt_both (a b : Z) : intAdd (wrapInt a) (wrapInt b) = wrapInt (a + b).
Proof.
  unfold intAdd. apply wrapInt_eq_mod.
  rewrite Zplus_mod, !wrapInt_mod, <- Zplus_mod. reflexivity.
Qed.

Lemma processEvent_delete_tally (p : printFunc) (st st' : PrinterState) (e : Event) :
  processEvent p st e = Ok st' ->
  deleted (stDelete st') =
    (if isDeletedUpdate e then intAdd (deleted (stDelete st)) 1 else deleted (stDelete st))
  /\ dskipped (stDelete st') =
    (if isDeleteSkippedUpdate e then intAdd (dskipped (stDelete st)) 1
     else dskipped (stDelete st)).
Proof.
  unfold processEvent, isDeletedUpdate, isDeleteSkippedUpdate.
  destruct (eType e); try (intros [= <-]; split; reflexivity).
  - destruct (processApplyEvent _ _ _ _ _); [|discriminate].
    intros [= <-]. split; reflexivity.
  - destruct (processStatusEvent _ _ _ _); [|discriminate].
    intros [= <-]. split; reflexivity.
  - destruct (processPruneEvent _ _ _ _); [|discriminate].
    intros [= <-]. split; reflexivity.
  - unfold processDeleteEvent.
    destruct (deType (eDeleteEvent e)); try (intros [= <-]; split; reflexivity).
    destruct (deObject (eDeleteEvent e)); [|discriminate].
    destruct (deOperation (eDeleteEvent e)); intros [= <-]; split; reflexivity.
Qed.

Lemma printLoop_delete_tally (p : printFunc) (pre : list Event) :
  Forall (fun e => eType e <> ErrorType) pre ->
  Forall (fun e => printable e = true) pre ->
  forall (st : PrinterState) (kd ks : Z),
    collected st ->
    deleted (stDelete st) = wrapInt kd ->
    dskipped (stDelete st) = wrapInt ks ->
    deleted (stDelete (final (printLoop p st pre)))
      = wrapInt (kd + countEvents isDeletedUpdate pre)
    /\ dskipped (stDelete (final (printLoop p st pre)))
      = wrapInt (ks + countEvents isDeleteSkippedUpdate pre).
Proof.
  induction pre as [|e pre IH]; intros Hne Hok st kd ks Hc Hd Hs.
  - unfold countEvents. cbn. now rewrite !Z.add_0_r.
  - inversion Hne as [|? ? He Hne']; subst. inversion Hok as [|? ? Hpr Hok']; subst.
    destruct (processEvent_printable p st e Hc Hpr) as (st' & Hst' & Hc').
    destruct (processEvent_delete_tally p st st' e Hst') as [Hd' Hs'].
    rewrite Hd, intAdd_wrapInt in Hd'. rewrite Hs, intAdd_wrapInt in Hs'.
    assert (Hloop : printLoop p st (e :: pre) = printLoop p st' pre).
    { cbn [printLoop]. rewrite Hst'. destruct (eType e); try reflexivity. contradiction. }
    rewrite Hloop, !countEvents_cons.
    destruct (IH Hne' Hok' st'
                (kd + (if isDeletedUpdate e then 1 else 0))
                (ks + (if isDeleteSkippedUpdate e then 1 else 0)) Hc') as [H1 H2].
    + rewrite Hd'. now destruct (isDeletedUpdate e); rewrite ?Z.add_0_r.
    + rewrite Hs'. now destruct (isDeleteSkippedUpdate e); rewrite ?Z.add_0_r.
    + rewrite H1, H2. split; f_equal; lia.
Qed.

(** X7. The summary that [Print] writes at a completed delete event carries
    the number of the deleted and of the skipped resource updates among the
    delete events received before it, as Go [int]s: below 2^63 events, the
    counts themselves. *)
Theorem delete_summary_counts_the_events
    (previewStrategy : DryRunStrategy) (pre : list Event) (e : Event) (post : list Event)
    (Hpre : Forall (fun e => eType e <> ErrorType) pre)
    (Hok : Forall (fun e => printable e = true) pre)
    (He : eType e = DeleteType)
    (Hcompleted : deType (eDeleteEvent e) = DeleteEventCompleted) :
  let nd := countEvents isDeletedUpdate pre in
  let ns := countEvents isDeleteSkippedUpdate pre in
  let line a b :=
    getPrintFunc previewStrategy "%d resource(s) deleted, %d skipped" [ArgInt a; ArgInt b] [] in
  (exists more,
     stOut (final (Print (pre ++ e :: post) previewStrategy))
     = stOut (final (Print pre previewStrategy)) ++ line (wrapInt nd) (wrapInt ns) ++ more)
  /\ (nd < 2 ^ 63 -> ns < 2 ^ 63 ->
      exists more,
        stOut (final (Print (pre ++ e :: post) previewStrategy))
        = stOut (final (Print pre previewStrategy)) ++ line nd ns ++ more).
Proof.
  intros nd ns line.
  assert (Hmain : exists more,
             stOut (final (Print (pre ++ e :: post) previewStrategy))
             = stOut (final (Print pre previewStrategy))
               ++ line (wrapInt nd) (wrapInt ns) ++ more).
  { unfold Print.
    destruct (printLoop_runs (getPrintFunc previewStrategy) pre Hpre Hok
                initialState (e :: post) collected_initial) as (-> & _ & _ & _).
    destruct (printLoop_delete_tally (getPrintFunc previewStrategy) pre Hpre Hok
                initialState 0 0 collected_initial eq_refl eq_refl) as [Hd Hs].
    rewrite !Z.add_0_l in Hd, Hs. fold nd in Hd. fold ns in Hs.
    set (st := final (printLoop (getPrintFunc previewStrategy) initialState pre)) in *.
    cbn [printLoop]. unfold processEvent. rewrite He. unfold processDeleteEvent.
    rewrite Hcompleted. cbn [bindR fst snd].
    match goal with
    | |- context [printLoop _ ?st1 post] =>
        destruct (printLoop_output_grows previewStrategy post st1) as [more Hmore]
    end.
    rewrite Hmore. cbn [stOut]. rewrite getPrintFunc_appends, Hd, Hs, <- app_assoc.
    exists more. reflexivity. }
  split; [exact Hmain|].
  intros Hnd Hns. rewrite <- (wrapInt_small nd), <- (wrapInt_small ns); [exact Hmain| |];
    unfold nd, ns, countEvents in *; lia.
Qed.

(** The counter of [applyStats] for an operation. *)
Definition opCount (op : ApplyEventOperation) (a : applyStats) : Z :=
  match op with
  | ServersideApplied => serversideApplied a
  | Created => created a
  | Unchanged => unchanged a
  | Configured => configured a
  | Failed | ApplyOpUndeclared _ => 0
  end.

Lemma processEvent_apply_tally (p : printFunc) (st st' : PrinterState) (e : Event)
    (op : ApplyEventOperation) :
  processEvent p st e = Ok st' ->
  opCount op (stApply st') =
    (if isApplyUpdate op e then intAdd (opCount op (stApply st)) 1
     else opCount op (stApply st)).
Proof.
  unfold processEvent, isApplyUpdate.
  destruct (eType e); try (intros [= <-]; reflexivity).
  - unfold processApplyEvent.
    destruct (aeType (eApplyEvent e)).
    + destruct (aeObject (eApplyEvent e)); [|discriminate].
      destruct (aeOperation (eApplyEvent e)); cbn; try discriminate;
        intros [= <-]; destruct op; reflexivity.
    + destruct (printLatestStatus _ _ _); [|discriminate].
      intros [= <-]. reflexivity.
    + intros [= <-]. reflexivity.
  - destruct (processStatusEvent _ _ _ _); [|discriminate].
    intros [= <-]. reflexivity.
  - destruct (processPruneEvent _ _ _ _); [|discriminate].
    intros [= <-]. reflexivity.
  - destruct (processDeleteEvent _ _ _ _); [|discriminate].
    intros [= <-]. reflexivity.
Qed.

Lemma printLoop_apply_tally (p : printFunc) (op : ApplyEventOperation) (pre : list Event) :
  Forall (fun e => eType e <> ErrorType) pre ->
  Forall (fun e => printable e = true) pre ->
  forall (st : PrinterState) (k : Z),
    collected st ->
    opCount op (stApply st) = wrapInt k ->
    opCount op (stApply (final (printLoop p st pre)))
      = wrapInt (k + countEvents (isApplyUpdate op) pre).
Proof.
  induction pre as [|e pre IH]; intros Hne Hok st k Hc Hk.
  - unfold countEvents. cbn. now rewrite Z.add_0_r.
  - inversion Hne as [|? ? He Hne']; subst. inversion Hok as [|? ? Hpr Hok']; subst.
    destruct (processEvent_printable p st e Hc Hpr) as (st' & Hst' & Hc').
    pose proof (processEvent_apply_tally p st st' e op Hst') as Hk'.
    rewrite Hk, intAdd_wrapInt in Hk'.
    assert (Hloop : printLoop p st (e :: pre) = printLoop p st' pre).
    { cbn [printLoop]. rewrite Hst'. destruct (eType e); try reflexivity. contradiction. }
    rewrite Hloop, countEvents_cons.
    rewrite (IH Hne' Hok' st' (k + (if isApplyUpdate op e then 1 else 0)) Hc').
    + f_equal. lia.
    + rewrite Hk'. now destruct (isApplyUpdate op e); rewrite ?Z.add_0_r.
Qed.

(** Every apply update that the printer takes has one of the four operations. *)
Lemma apply_updates_by_operation (pre : list Event) :
  Forall (fun e => printable e = true) pre ->
  countEvents isAnyApplyUpdate pre
  = countEvents (isApplyUpdate ServersideApplied) pre
    + countEvents (isApplyUpdate Configured) pre
    + countEvents (isApplyUpdate Unchanged) pre
    + countEvents (isApplyUpdate Created) pre.
Proof.
  induction 1 as [|e pre He _ IH]; [reflexivity|].
  rewrite !countEvents_cons, IH.
  unfold printable in He. unfold isAnyApplyUpdate, isApplyUpdate.
  destruct (eType e); try lia.
  destruct (aeType (eApplyEvent e)); try lia.
  destruct (aeObject (eApplyEvent e)); [|discriminate He].
  destruct (aeOperation (eApplyEvent e)); try discriminate He; lia.
Qed.

Lemma countEvents_bounds (f : Event -> bool) (l : list Event) :
  0 <= countEvents f l <= Z.of_nat (length l).
Proof.
  unfold countEvents. pose proof (List.filter_length_le f l). lia.
Qed.

Lemma append_empty (s : string) : s +:+ "" = s.
Proof.
  induction s as [|c s IH]; [reflexivity|].
  change (String c (s +:+ "") = String c s). now rewrite IH.
Qed.

(** The text of the apply summary for the given numbers of resources. *)
Definition applySummary (total ssa cr un cf : Z) : string :=
  Sprintf "%d resource(s) applied. %d created, %d unchanged, %d configured"
          [ArgInt total; ArgInt cr; ArgInt un; ArgInt cf]
  +:+ (if 0 <? ssa then Sprintf ", %d serverside applied" [ArgInt ssa] else "").

(** X8. The summary that [Print] writes at a completed apply event carries
    the number of the apply resource updates received before it and, of
    these, the numbers created, unchanged and configured; it names the
    number applied server-side only when there is one.  (Fewer than 2^63
    events, so that no counter wraps.) *)
Theorem apply_summary_counts_the_events
    (previewStrategy : DryRunStrategy) (pre : list Event) (e : Event) (post : list Event)
    (Hpre : Forall (fun e => eType e <> ErrorType) pre)
    (Hok : Forall (fun e => printable e = true) pre)
    (Hsmall : Z.of_nat (length pre) < 2 ^ 63)
    (He : eType e = ApplyType)
    (Hcompleted : aeType (eApplyEvent e) = ApplyEventCompleted) :
  let n op := countEvents (isApplyUpdate op) pre in
  let summary :=
    applySummary (countEvents isAnyApplyUpdate pre) (n ServersideApplied)
                 (n Created) (n Unchanged) (n Configured) in
  exists more,
    stOut (final (Print (pre ++ e :: post) previewStrategy))
    = stOut (final (Print pre previewStrategy))
      ++ getPrintFunc previewStrategy summary [] [] ++ more.
Proof.
  intros n summary. unfold Print.
  destruct (printLoop_runs (getPrintFunc previewStrategy) pre Hpre Hok
              initialState (e :: post) collected_initial) as (-> & _ & _ & Hc).
  assert (Hcount : forall op,
             opCount op (stApply (final (printLoop (getPrintFunc previewStrategy)
                                                   initialState pre)))
             = wrapInt (n op)).
  { intros op.
    rewrite (printLoop_apply_tally _ op pre Hpre Hok initialState 0);
      [now rewrite Z.add_0_l | exact collected_initial | now destruct op]. }
  set (st := final (printLoop (getPrintFunc previewStrategy) initialState pre)) in *.
  pose proof (Hcount ServersideApplied) as Hssa. pose proof (Hcount Created) as Hcr.
  pose proof (Hcount Unchanged) as Hun. pose proof (Hcount Configured) as Hcf.
  cbn [opCount] in Hssa, Hcr, Hun, Hcf.
  assert (Hsum : sum (stApply st) = wrapInt (countEvents isAnyApplyUpdate pre)).
  { unfold sum. rewrite Hssa, Hcr, Hun, Hcf, !intAdd_wrapInt_both.
    now rewrite (apply_updates_by_operation pre Hok). }
  assert (Hsmall' : forall f, wrapInt (countEvents f pre) = countEvents f pre).
  { intros f. apply wrapInt_small. pose proof (countEvents_bounds f pre). lia. }
  unfold n in Hssa, Hcr, Hun, Hcf. rewrite Hsmall' in Hssa, Hcr, Hun, Hcf, Hsum.
  cbn [printLoop]. unfold processEvent. rewrite He. unfold processApplyEvent.
  rewrite Hcompleted. cbn [setPrintStatus latestStatus].
  match goal with
  | |- context [printLatestStatus ?l ?p ?o] =>
      destruct (printLatestStatus_runs p l o (collected_entries st Hc)) as [out' Hloop];
        rewrite Hloop;
        destruct (status_loop_appends previewStrategy l o out' Hloop) as [lines ->]
  end.
  cbn [bindR fst snd].
  match goal with
  | |- context [printLoop _ ?st1 post] =>
      destruct (printLoop_output_grows previewStrategy post st1) as [more Hmore]
  end.
  rewrite Hmore. cbn [stOut].
  rewrite getPrintFunc_appends, Hsum, Hssa, Hcr, Hun, Hcf, <- !app_assoc.
  exists (lines ++ more). f_equal. f_equal.
  unfold summary, applySummary, n.
  destruct (0 <? countEvents (isApplyUpdate ServersideApplied) pre);
    [reflexivity | now rewrite append_empty].
Qed.

End PrinterSummaries.

Section PrinterStrategy.
Import GoStrings Objects Event Printer.

(** The state of the printer without the text of its output: the counters,
    the status collector and the number of lines written. *)
Definition counters (st : PrinterState)
  : applyStats * statusCollector * pruneStats * deleteStats * nat :=
  (stApply st, stStatus st, stPrune st, stDelete st, length (stOut st)).

Lemma getPrintFunc_length (s : DryRunStrategy) (format : string) (a : list fmtArg)
    (out : output) :
  length (getPrintFunc s format a out) = S (length out).
Proof. unfold getPrintFunc. rewrite length_app. cbn. lia. Qed.

Lemma status_loop_length (s1 s2 : DryRunStrategy) (l : list (ObjMetadata * StatusEvent))
    (out1 out2 : output) :
  length out1 = length out2 ->
  match printLatestStatus l (getPrintFunc s1) out1,
        printLatestStatus l (getPrintFunc s2) out2 with
  | Ok out1', Ok out2' => length out1' = length out2'
  | Panic m1, Panic m2 => m1 = m2
  | _, _ => False
  end.
Proof.
  revert out1 out2. induction l as [|kv l IH]; intros out1 out2 Hlen; [exact Hlen|].
  cbn [printLatestStatus]. unfold printResourceStatus.
  destruct (seResource (snd kv)); [|reflexivity].
  cbn [bindR]. apply IH. now rewrite !getPrintFunc_length, Hlen.
Qed.

Lemma processEvent_strategy (s1 s2 : DryRunStrategy) (st1 st2 : PrinterState) (e : Event) :
  counters st1 = counters st2 ->
  match processEvent (getPrintFunc s1) st1 e, processEvent (getPrintFunc s2) st2 e with
  | Ok st1', Ok st2' => counters st1' = counters st2'
  | Panic m1, Panic m2 => m1 = m2
  | _, _ => False
  end.
Proof.
  destruct st1 as [a1 c1 p1 d1 o1], st2 as [a2 c2 p2 d2 o2]. unfold counters. cbn.
  intros [= <- <- <- <- Hlen]. unfold processEvent. cbn.
  destruct (eType e); cbn; try (now rewrite Hlen).
  - unfold processApplyEvent. destruct (aeType (eApplyEvent e)); cbn.
    + destruct (aeObject (eApplyEvent e)); [|reflexivity].
      destruct (inc a1 (aeOperation (eApplyEvent e))); cbn; [|reflexivity].
      now rewrite !getPrintFunc_length, Hlen.
    + match goal with
      | |- context [printLatestStatus ?l (getPrintFunc s1) ?o1] =>
          match goal with
          | |- context [printLatestStatus l (getPrintFunc s2) ?o2] =>
              pose proof (status_loop_length s1 s2 l o1 o2) as Hloop;
                destruct (printLatestStatus l (getPrintFunc s1) o1),
                         (printLatestStatus l (getPrintFunc s2) o2)
          end
      end; cbn;
        rewrite !getPrintFunc_length, Hlen in Hloop; specialize (Hloop eq_refl);
        try contradiction; [now rewrite Hloop | exact Hloop].
    + now rewrite Hlen.
  - unfold processStatusEvent.
    destruct (seEventType (eStatusEvent e)); cbn;
      rewrite ?getPrintFunc_length, ?Hlen; try reflexivity.
    + destruct (seResource (eStatusEvent e)) as [r|] eqn:Hr; [|reflexivity].
      destruct (printStatus c1); unfold printResourceStatus; rewrite ?Hr; cbn;
        now rewrite ?getPrintFunc_length, ?Hlen.
    + destruct (seResource (eStatusEvent e)); [|reflexivity].
      destruct (seError (eStatusEvent e)); [|reflexivity]. cbn.
      now rewrite !getPrintFunc_length, Hlen.
  - unfold processPruneEvent. destruct (peType (ePruneEvent e)); cbn.
    + destruct (peObject (ePruneEvent e)); [|reflexivity].
      destruct (peOperation (ePruneEvent e)); cbn;
        now rewrite ?getPrintFunc_length, ?Hlen.
    + now rewrite !getPrintFunc_length, Hlen.
    + now rewrite Hlen.
  - unfold processDeleteEvent. destruct (deType (eDeleteEvent e)); cbn.
    + destruct (deObject (eDeleteEvent e)); [|reflexivity].
      destruct (deOperation (eDeleteEvent e)); cbn;
        now rewrite ?getPrintFunc_length, ?Hlen.
    + now rewrite !getPrintFunc_length, Hlen.
    + now rewrite Hlen.
Qed.

Lemma printLoop_strategy (s1 s2 : DryRunStrategy) (ch : list Event)
    (st1 st2 : PrinterState) :
  counters st1 = counters st2 ->
  returned (printLoop (getPrintFunc s1) st1 ch) = returned (printLoop (getPrintFunc s2) st2 ch)
  /\ unconsumed (printLoop (getPrintFunc s1) st1 ch)
     = unconsumed (printLoop (getPrintFunc s2) st2 ch)
  /\ counters (final (printLoop (getPrintFunc s1) st1 ch))
     = counters (final (printLoop (getPrintFunc s2) st2 ch)).
Proof.
  revert st1 st2. induction ch as [|e ch IH]; intros st1 st2 Hc; [now repeat split|].
  pose proof (processEvent_strategy s1 s2 st1 st2 e Hc) as Hstep.
  cbn [printLoop].
  destruct (processEvent (getPrintFunc s1) st1 e) as [st1'|m1],
           (processEvent (getPrintFunc s2) st2 e) as [st2'|m2];
    try contradiction.
  - destruct (eType e); try (apply IH; exact Hstep); now repeat split.
  - subst m2. destruct (eType e); now repeat split.
Qed.

(** X9. The dry-run strategy changes the text of the lines that [Print]
    writes and nothing else: what [Print] returns (or its panic), the events
    it leaves on the channel, its counters and the number of lines it writes
    are the same for every strategy. *)
Theorem Print_same_for_every_strategy (ch : list Event) (s1 s2 : DryRunStrategy) :
  returned (Print ch s1) = returned (Print ch s2)
  /\ unconsumed (Print ch s1) = unconsumed (Print ch s2)
  /\ counters (final (Print ch s1)) = counters (final (Print ch s2)).
Proof.
  unfold Print.
  destruct (printLoop_strategy s1 s2 ch initialState initialState eq_refl)
    as (Hreturned & Hunconsumed & Hcounters).
  split; [exact Hreturned|]. split; [exact Hunconsumed | exact Hcounters].
Qed.

End PrinterStrategy.

Section PrinterStatus.
Import GoStrings Objects Event Printer.

(** The line that [printResourceStatus] writes for the object [id] with the
    status [r]. *)
Definition statusLine (s : DryRunStrategy) (id : ObjMetadata) (r : ResourceStatus)
  : string :=
  Sprintf ((if ClientDryRun s then "%s is %s: %s" +:+ " (preview)"
            else if ServerDryRun s then "%s is %s: %s" +:+ " (preview-server)"
            else "%s is %s: %s") +:+ newline)
    [ArgStr (resourceIDToString (idGroup id) (idKind id) (idName id));
     ArgStr (Status_String (rsStatus r));
     ArgStr (Message r)].

(** The identifier that a status event carries, if it has a resource. *)
Definition identifierOf (se : StatusEvent) : option ObjMetadata :=
  match seResource se with
  | Some r => Some (Identifier r)
  | None => None
  end.

(** The last status event of the list for the object [id]. *)
Definition latestFor (id : ObjMetadata) (updates : list StatusEvent) : option StatusEvent :=
  last (List.filter (fun se => bool_decide (identifierOf se = Some id)) updates).

(** The status collector after the updates. *)
Definition collect (updates : list StatusEvent) (m : gmap ObjMetadata StatusEvent)
  : gmap ObjMetadata StatusEvent :=
  fold_left (fun m se => match seResource se with
                         | Some r => <[Identifier r := se]> m
                         | None => m
                         end) updates m.

Lemma collect_lookup (updates : list StatusEvent) (m : gmap ObjMetadata StatusEvent)
    (id : ObjMetadata) :
  collect updates m !! id
  = match latestFor id updates with
    | Some se => Some se
    | None => m !! id
    end.
Proof.
  revert m. induction updates as [|se updates IH]; intros m; [reflexivity|].
  unfold collect, latestFor in *. cbn [fold_left List.filter]. rewrite IH.
  destruct (seResource se) as [r|] eqn:Hr.
  - assert (Hid : identifierOf se = Some (Identifier r))
      by (unfold identifierOf; now rewrite Hr).
    rewrite Hid.
    destruct (bool_decide (Some (Identifier r) = Some id)) eqn:E.
    + apply bool_decide_eq_true in E. injection E as E.
      destruct (List.filter _ updates) as [|se' rest] eqn:Hf.
      * cbn. subst id. apply lookup_insert_eq.
      * change (last (se :: se' :: rest)) with (last (se' :: rest)).
        destruct (last (se' :: rest)) eqn:L; [reflexivity|].
        apply last_None in L. discriminate L.
    + apply bool_decide_eq_false in E.
      destruct (last (List.filter _ updates)); [reflexivity|].
      apply lookup_insert_ne. intros Heq. apply E. now rewrite Heq.
  - assert (Hid : identifierOf se = None) by (unfold identifierOf; now rewrite Hr).
    rewrite Hid, bool_decide_eq_false_2 by discriminate. reflexivity.
Qed.

Lemma status_loop_lines (s : DryRunStrategy) (l : list (ObjMetadata * StatusEvent))
    (out : output) :
  Forall (fun kv => seResource (snd kv) <> None) l ->
  exists lines,
    printLatestStatus l (getPrintFunc s) out = Ok (out ++ lines)
    /\ Forall2 (fun kv line => exists r, seResource (snd kv) = Some r
                                         /\ line = statusLine s (fst kv) r) l lines.
Proof.
  revert out. induction l as [|kv l IH]; intros out Hl.
  - exists []. split; [cbn; now rewrite app_nil_r | constructor].
  - inversion Hl as [|? ? Hkv Hl']; subst. cbn [printLatestStatus].
    unfold printResourceStatus.
    destruct (seResource (snd kv)) as [r|] eqn:Hr; [|contradiction].
    cbn [bindR].
    destruct (IH (getPrintFunc s "%s is %s: %s"
                    [ArgStr (resourceIDToString (idGroup (fst kv)) (idKind (fst kv))
                                                (idName (fst kv)));
                     ArgStr (Status_String (rsStatus r)); ArgStr (Message r)] out) Hl')
      as (lines & -> & HF).
    exists (statusLine s (fst kv) r :: lines). split.
    + rewrite getPrintFunc_appends, <- app_assoc. reflexivity.
    + constructor; [|exact HF]. exists r. now split.
Qed.

Lemma printLoop_status_updates (p : printFunc) (updates : list StatusEvent) :
  Forall (fun se => seEventType se = ResourceUpdateEvent /\ seResource se <> None) updates ->
  forall st : PrinterState,
    printStatus (stStatus st) = false ->
    printLoop p st (map mkStatusEvent updates)
    = {| returned := Ok None;
         final := {| stApply := stApply st;
                     stStatus := {| latestStatus := collect updates (latestStatus (stStatus st));
                                    printStatus := false |};
                     stPrune := stPrune st; stDelete := stDelete st; stOut := stOut st |};
         unconsumed := [] |}.
Proof.
  induction 1 as [|se updates [Hse Hres] _ IH]; intros st Hps.
  - destruct st as [a [m ps] pr dl o]. cbn in *. now subst ps.
  - cbn [map printLoop]. unfold processEvent. cbn [mkStatusEvent eType eStatusEvent].
    unfold processStatusEvent. rewrite Hse.
    destruct (seResource se) as [r|] eqn:Hr; [|contradiction].
    unfold updateStatus. cbn [printStatus]. rewrite Hps. cbn [bindR fst snd].
    rewrite IH; [|reflexivity].
    unfold collect. cbn [fold_left stApply stStatus stPrune stDelete stOut latestStatus
                          updateStatus]. now rewrite Hr.
Qed.

(** X10. Status updates that arrive before the apply summary are held back:
    [Print] writes nothing for them.  At the completed apply event it writes
    the summary and then one line for every object that had an update, with
    the latest status of the object (in an order that is left open). *)
Theorem status_updates_are_replayed_after_the_summary
    (s : DryRunStrategy) (updates : list StatusEvent) (e : Event)
    (Hupdates : Forall (fun se => seEventType se = ResourceUpdateEvent
                                  /\ seResource se <> None) updates)
    (He : eType e = ApplyType)
    (Hcompleted : aeType (eApplyEvent e) = ApplyEventCompleted) :
  let pre := map mkStatusEvent updates in
  stOut (final (Print pre s)) = []
  /\ exists lines,
       stOut (final (Print (pre ++ [e]) s))
       = getPrintFunc s (applySummary 0 0 0 0 0) [] [] ++ lines
       /\ (forall id se r,
             latestFor id updates = Some se -> seResource se = Some r ->
             In (statusLine s id r) lines)
       /\ length lines = size (collect updates ∅).
Proof.
  intros pre. unfold Print.
  pose proof (printLoop_status_updates (getPrintFunc s) updates Hupdates
                initialState eq_refl) as Hloop.
  fold pre in Hloop. split; [now rewrite Hloop|].
  assert (Hne : Forall (fun e => eType e <> ErrorType) pre).
  { apply List.Forall_forall. intros x Hx. apply in_map_iff in Hx as (se & <- & _).
    discriminate. }
  assert (Hok : Forall (fun e => printable e = true) pre).
  { apply List.Forall_forall. intros x Hx. apply in_map_iff in Hx as (se & <- & Hin).
    rewrite List.Forall_forall in Hupdates. destruct (Hupdates se Hin) as [Hty Hres].
    unfold printable. cbn [eType mkStatusEvent eStatusEvent]. rewrite Hty.
    destruct (seResource se); [reflexivity | contradiction]. }
  destruct (printLoop_runs (getPrintFunc s) pre Hne Hok initialState [e] collected_initial)
    as (-> & _ & _ & Hc).
  rewrite Hloop in Hc |- *. cbn [final printLoop]. unfold processEvent. rewrite He.
  unfold processApplyEvent. rewrite Hcompleted.
  cbn [stApply stStatus stOut initialState final latestStatus setPrintStatus].
  pose proof (collected_entries _ Hc) as Hentries.
  cbn [stStatus latestStatus initialState] in Hentries.
  match goal with
  | |- context [printLatestStatus ?l ?p ?o] =>
      destruct (status_loop_lines s l o Hentries) as (lines & -> & HF)
  end.
  cbn [bindR fst snd final stOut printLoop].
  exists lines. split; [reflexivity|]. split.
  - intros id se r Hlatest Hr.
    assert (Hin : (id, se) ∈ map_to_list (collect updates ∅)).
    { apply elem_of_map_to_list. rewrite collect_lookup, Hlatest. reflexivity. }
    apply list_elem_of_lookup_1 in Hin as [i Hi].
    destruct (Forall2_lookup_l _ _ _ _ _ HF Hi) as (line & Hline & r' & Hr' & ->).
    cbn [fst snd] in Hr'. rewrite Hr in Hr'. injection Hr' as <-.
    apply list_elem_of_In. eapply list_elem_of_lookup_2. exact Hline.
  - rewrite <- (Forall2_length _ _ _ HF). apply length_map_to_list.
Qed.

End PrinterStatus.

(** ** More on the Destroyer *)

Section DestroyMore.
Import GoStrings Objects Event Destroy.

Variable InventoryLabel : string.
Variable d : Destroyer.

(** X11. The Destroyer does not deadlock: in every state of a run that is
    not over, with a reader that takes the events of the channel, the
    goroutine of [Run] or the event transformer can take a step. *)
Theorem Destroyer_never_deadlocks (schedule : list Goroutine) :
  let s := Run InventoryLabel d schedule in
  terminal s
  \/ stepMain InventoryLabel d s <> None
  \/ stepTrans s <> None.
Proof.
  intros s.
  assert (Hinv : runInv InventoryLabel d s) by apply Run_runInv.
  destruct (terminal_decidable s) as [Hterm|Hterm]; [now left|].
  right. now apply some_goroutine_steps.
Qed.

(** X13. A run that fails before the pruning touches nothing: when the
    objects cannot be read or the inventory object cannot be split off, the
    run calls neither [Prune] nor [DeleteInventoryObj], never starts the
    event transformer, and the only event it sends is the error event. *)
Theorem early_failure_prunes_nothing (schedule : list Goroutine) (e : error)
    (Hearly : earlyError InventoryLabel d = Some e) :
  let s := Run InventoryLabel d schedule in
  (forall c, In c (calls s) ->
     c = CallSetDryRunStrategy (DryRunStrategy_ d) \/ c = CallGetObjects)
  /\ trans s = TNotStarted
  /\ (chEvents s = [] \/ chEvents s = [mkErrorEvent (Some e)])
  /\ (main s = MDone -> chEvents s = [mkErrorEvent (Some e)] /\ chClosed s = true).
Proof.
  intros s. pose proof (Run_runInv InventoryLabel d schedule) as Hinv. fold s in Hinv.
  destruct Hinv as [Hs|[(e0 & He0 & Hinv)|(infos & invInfo & rs & evs & err & H1 & H2 & _)]].
  - rewrite Hs. cbn. repeat split; try tauto; discriminate.
  - rewrite Hearly in He0. injection He0 as <-.
    destruct Hinv as (Ht & _ & _ & _ & Hcl & Hm). rewrite Hcl.
    split; [intros c [<-|[<-|[]]]; tauto|]. split; [exact Ht|].
    destruct (main s); try contradiction.
    + split; [tauto|]. discriminate.
    + split; [tauto|]. discriminate.
    + split; [tauto|]. intros _. exact Hm.
  - rewrite (earlyError_none InventoryLabel d _ _ _ H1 H2) in Hearly. discriminate Hearly.
Qed.

(** X14. [Prune] is called with the inventory object alone, whatever other
    resources have been read: its only argument is the inventory object that
    [SplitInfos] found among the objects of [GetObjects], and its options are
    the dry-run strategy of the Destroyer and background propagation. *)
Theorem Prune_gets_the_inventory_object_alone
    (schedule : list Goroutine) (infos : list (option Info)) (o : Options) :
  let s := Run InventoryLabel d schedule in
  In (CallPrune infos o) (calls s) ->
  o = {| optDryRunStrategy := DryRunStrategy_ d;
         PropagationPolicy := DeletePropagationBackground |}
  /\ exists objs invInfo resources,
       GetObjects d = (objs, None)
       /\ Inventory.SplitInfos InventoryLabel objs = (invInfo, resources, None)
       /\ infos = [invInfo]
       /\ In invInfo objs
       /\ isMarkerInfo InventoryLabel invInfo = true.
Proof.
  intros s Hin. pose proof (Run_runInv InventoryLabel d schedule) as Hinv. fold s in Hinv.
  destruct Hinv as [Hs|[(e0 & He0 & Hinv)|(objs & invInfo & rs & evs & err & H1 & H2 & H3 & Hinv)]].
  - rewrite Hs in Hin. destruct Hin.
  - destruct Hinv as (_ & _ & _ & _ & Hcl & _). rewrite Hcl in Hin.
    cbn in Hin. intuition discriminate.
  - destruct Hinv as (done & fwd & _ & _ & _ & Hm & _). unfold mainFacts in Hm.
    assert (Hcalls : calls s = pruneCalls d invInfo \/ calls s = deleteCalls d invInfo).
    { destruct (main s); try contradiction; tauto. }
    assert (Hcall : CallPrune infos o = CallPrune [invInfo] (runOptions d)).
    { destruct Hcalls as [Hc|Hc]; rewrite Hc in Hin;
        unfold deleteCalls, pruneCalls, firstCalls in Hin; cbn in Hin;
        intuition (try discriminate; congruence). }
    injection Hcall as -> ->. split; [reflexivity|].
    exists objs, invInfo, rs. split; [exact H1|]. split; [exact H2|]. split; [reflexivity|].
    rewrite SplitInfos_filter in H2.
    destruct (List.filter (isMarkerInfo InventoryLabel) objs) as [|m [|m' ms]] eqn:Hf;
      try discriminate H2.
    injection H2 as <- _.
    assert (Hm' : In m (List.filter (isMarkerInfo InventoryLabel) objs))
      by (rewrite Hf; now left).
    apply filter_In in Hm'. exact Hm'.
Qed.

(** X16. A message of [Prune] whose operation is outside the enum stops the
    forwarding: of the messages of [Prune], only those before it are ever
    relabelled and sent, and the event transformer never comes to its
    regular end. *)
Theorem undeclared_operation_stops_the_forwarding
    (schedule : list Goroutine) (objs resources : list (option Info))
    (invInfo : option Info) (before after : list Event) (bad : Event) (err : option error)
    (Hget : GetObjects d = (objs, None))
    (Hsplit : Inventory.SplitInfos InventoryLabel objs = (invInfo, resources, None))
    (Hprune : Prune d [invInfo] (runOptions d) = (before ++ bad :: after, err))
    (Hbad : declaredPruneOp (peOperation (ePruneEvent bad)) = false) :
  let s := Run InventoryLabel d schedule in
  trans s <> TDone
  /\ exists fwd last,
       chEvents s = fwd ++ last
       /\ (length fwd <= length before)%nat
       /\ Forall (fun e => eType e = DeleteType) fwd
       /\ (last = [] \/ last = [lastEvent err]).
Proof.
  intros s. pose proof (Run_runInv InventoryLabel d schedule) as Hinv. fold s in Hinv.
  destruct Hinv as [Hs|[(e0 & He0 & Hinv)|(objs' & invInfo' & rs' & evs & err' & H1 & H2 & H3 & Hinv)]].
  - rewrite Hs. split; [discriminate|]. exists [], [].
    split; [reflexivity|]. split; [cbn; lia|]. split; [constructor|]. now left.
  - rewrite (earlyError_none InventoryLabel d _ _ _ Hget Hsplit) in He0. discriminate He0.
  - rewrite Hget in H1. injection H1 as <-.
    rewrite Hsplit in H2. injection H2 as <- <-.
    rewrite Hprune in H3. injection H3 as <- <-.
    destruct Hinv as (done & fwd & HF & Hch & Ht & _ & _).
    assert (Hdone : forall rest, before ++ bad :: after = done ++ rest ->
                                 (length done <= length before)%nat).
    { intros rest Heq.
      destruct (Nat.le_gt_cases (length done) (length before)) as [Hle|Hgt]; [exact Hle|].
      exfalso.
      assert (Hlook : done !! length before = Some bad).
      { rewrite <- (lookup_app_l done rest) by exact Hgt.
        rewrite <- Heq. apply list_lookup_middle. reflexivity. }
      destruct (Forall2_lookup_l _ _ _ _ _ HF Hlook) as (e' & _ & He').
      unfold transformsTo, transformEvent, transformPruneOperation in He'.
      destruct (peOperation (ePruneEvent bad)); discriminate. }
    unfold transFacts in Ht. split.
    + intros Htd. rewrite Htd in Ht. destruct Ht as (Hevs & _).
      specialize (Hdone [] ltac:(now rewrite app_nil_r)).
      rewrite <- Hevs in Hdone. rewrite length_app in Hdone. cbn in Hdone. lia.
    + exists fwd, (if hasSent (main s) then [lastEvent err] else []).
      split; [exact Hch|]. split.
      * rewrite <- (Forall2_length _ _ _ HF).
        destruct (trans s) as [| |msg|pm|]; try contradiction.
        -- destruct Ht as [Hevs _]. now apply (Hdone _ Hevs).
        -- destruct Ht as [Hevs _]. now apply (Hdone _ Hevs).
        -- destruct Ht as [(msg & Hevs & _) _]. now apply (Hdone _ Hevs).
        -- destruct Ht as (Hevs & _). apply (Hdone []). now rewrite app_nil_r.
      * split; [now apply forwarded_are_deletes with (done := done)|].
        destruct (hasSent (main s)); tauto.
Qed.

End DestroyMore.

(** ** The printer on the events of a destroy run *)

Section DestroyThenPrint.
Import GoStrings Objects Event Printer Destroy.

Variable InventoryLabel : string.
Variable d : Destroyer.

(** A message of [Prune] with the operation [op]. *)
Definition hasPruneOp (op : PruneEventOperation) (msg : Event) : bool :=
  match op, peOperation (ePruneEvent msg) with
  | Pruned, Pruned => true
  | PruneSkipped, PruneSkipped => true
  | _, _ => false
  end.

(** What the printer writes for the delete event made of a message of
    [Prune]. *)
Definition deleteLine (s : DryRunStrategy) (msg : Event) : output :=
  match peObject (ePruneEvent msg) with
  | Some obj =>
      getPrintFunc s "%s %s"
        [ArgStr (resourceIDToString (uGroup obj) (uKind obj) (getName (Some obj)));
         ArgStr (match peOperation (ePruneEvent msg) with
                 | Pruned => "deleted"
                 | _ => "delete skipped"
                 end)] []
  | None => []
  end.

(** The events of a completed run whose messages all carry a declared
    operation. *)
Lemma completed_run_events (schedule : list Goroutine)
    (objs resources : list (option Info)) (invInfo : option Info)
    (evs : list Event) (err : option error) :
  GetObjects d = (objs, None) ->
  Inventory.SplitInfos InventoryLabel objs = (invInfo, resources, None) ->
  Prune d [invInfo] (runOptions d) = (evs, err) ->
  Forall (fun msg => declaredPruneOp (peOperation (ePruneEvent msg)) = true) evs ->
  main (Run InventoryLabel d schedule) = MDone ->
  exists fwd,
    Forall2 transformsTo evs fwd
    /\ chEvents (Run InventoryLabel d schedule) = fwd ++ [lastEvent err].
Proof.
  intros Hget Hsplit Hprune Hdecl Hdone.
  pose proof (Run_runInv InventoryLabel d schedule) as Hinv.
  set (s := Run InventoryLabel d schedule) in *.
  destruct Hinv as [Hs|[(e0 & He0 & Hinv)|(objs' & invInfo' & rs' & evs' & err' & H1 & H2 & H3 & Hinv)]].
  - rewrite Hs in Hdone. discriminate Hdone.
  - rewrite (earlyError_none InventoryLabel d _ _ _ Hget Hsplit) in He0. discriminate He0.
  - rewrite Hget in H1. injection H1 as <-.
    rewrite Hsplit in H2. injection H2 as <- <-.
    rewrite Hprune in H3. injection H3 as <- <-.
    destruct Hinv as (done & fwd & HF & Hch & Ht & Hm & _).
    unfold mainFacts in Hm. unfold transFacts in Ht. rewrite Hdone in *.
    destruct Hm as (_ & Hcc & _). cbn in Hch.
    exists fwd. split; [|exact Hch].
    destruct (trans s) as [| |msg|pm|]; try contradiction.
    + destruct Ht as [_ Hc]. congruence.
    + destruct Ht as [_ Hc]. congruence.
    + destruct Ht as [(msg & Hevs & Hp) _]. exfalso.
      apply transformEvent_panics in Hp.
      rewrite Hevs in Hdecl. apply Forall_app in Hdecl as [_ Hdecl].
      inversion Hdecl as [|? ? Hd' _]; subst. congruence.
    + destruct Ht as (-> & _). exact HF.
Qed.

(** The relabelled events of messages with an object are events that the
    printer takes, and it counts and prints them by their operation. *)
Lemma printLoop_relabelled (strategy : DryRunStrategy) (evs fwd : list Event) :
  Forall2 transformsTo evs fwd ->
  Forall (fun msg => peObject (ePruneEvent msg) <> None) evs ->
  Forall (fun e => eType e <> ErrorType) fwd
  /\ Forall (fun e => printable e = true) fwd
  /\ countEvents isDeletedUpdate fwd = countEvents (hasPruneOp Pruned) evs
  /\ countEvents isDeleteSkippedUpdate fwd = countEvents (hasPruneOp PruneSkipped) evs
  /\ forall st,
       stOut (final (printLoop (getPrintFunc strategy) st fwd))
       = stOut st ++ flat_map (deleteLine strategy) evs.
Proof.
  induction 1 as [|msg e evs fwd Hmsg _ IH]; intros Hobj.
  - repeat split; try constructor. intros st. cbn. now rewrite app_nil_r.
  - inversion Hobj as [|? ? Ho Hobj']; subst.
    destruct (IH Hobj') as (IH1 & IH2 & IH3 & IH4 & IH5).
    unfold transformsTo, transformEvent in Hmsg.
    destruct (peObject (ePruneEvent msg)) as [obj|] eqn:Eobj; [|contradiction].
    assert (Hcase :
      (peOperation (ePruneEvent msg) = Pruned
       /\ e = mkDeleteEvent {| deType := DeleteEventResourceUpdate;
                               deOperation := Deleted; deObject := Some obj |})
      \/ (peOperation (ePruneEvent msg) = PruneSkipped
          /\ e = mkDeleteEvent {| deType := DeleteEventResourceUpdate;
                                  deOperation := DeleteSkipped; deObject := Some obj |})).
    { unfold transformPruneOperation in Hmsg.
      destruct (peOperation (ePruneEvent msg)); cbn in Hmsg; try discriminate Hmsg;
        injection Hmsg as <-; [left|right]; split; reflexivity. }
    split; [constructor; [|exact IH1]; destruct Hcase as [[_ ->]|[_ ->]]; discriminate|].
    split; [constructor; [|exact IH2]; destruct Hcase as [[_ ->]|[_ ->]]; reflexivity|].
    rewrite !countEvents_cons, IH3, IH4.
    split; [|split].
    + unfold hasPruneOp. destruct Hcase as [[-> ->]|[-> ->]]; reflexivity.
    + unfold hasPruneOp. destruct Hcase as [[-> ->]|[-> ->]]; reflexivity.
    + intros st. cbn [flat_map]. unfold deleteLine at 1. rewrite Eobj.
      destruct Hcase as [[-> ->]|[-> ->]]; cbn [printLoop eType mkDeleteEvent];
        unfold processEvent; cbn [eType mkDeleteEvent eDeleteEvent];
        unfold processDeleteEvent; cbn [deType deObject deOperation bindR fst snd];
        rewrite IH5; cbn [stOut]; rewrite getPrintFunc_appends, <- app_assoc; reflexivity.
Qed.

(** X15. A destroy run and the printer together: when the run is over,
    every message of [Prune] carries an object and the operation Pruned or
    PruneSkipped, then [Print] over the channel of the run returns the
    wrapped error of [Prune] if there is one; if there is none it returns
    nil, having written one line for each message, in order, and then the
    summary with the numbers of the Pruned and the PruneSkipped messages. *)
Theorem Print_of_a_destroy_run
    (schedule : list Goroutine) (strategy : DryRunStrategy)
    (objs resources : list (option Info)) (invInfo : option Info)
    (evs : list Event) (err : option error)
    (Hget : GetObjects d = (objs, None))
    (Hsplit : Inventory.SplitInfos InventoryLabel objs = (invInfo, resources, None))
    (Hprune : Prune d [invInfo] (runOptions d) = (evs, err))
    (Hdeclared : Forall (fun msg => declaredPruneOp (peOperation (ePruneEvent msg)) = true) evs)
    (Hobjects : Forall (fun msg => peObject (ePruneEvent msg) <> None) evs)
    (Hdone : main (Run InventoryLabel d schedule) = MDone) :
  let out := Print (chEvents (Run InventoryLabel d schedule)) strategy in
  let nd := countEvents (hasPruneOp Pruned) evs in
  let ns := countEvents (hasPruneOp PruneSkipped) evs in
  unconsumed out = []
  /\ match err with
     | Some e =>
         returned out = Ok (Some (WrapPrefix e "error pruning resources"))
         /\ stOut (final out) = flat_map (deleteLine strategy) evs
     | None =>
         returned out = Ok None
         /\ stOut (final out)
            = flat_map (deleteLine strategy) evs
              ++ getPrintFunc strategy "%d resource(s) deleted, %d skipped"
                   [ArgInt (wrapInt nd); ArgInt (wrapInt ns)] []
     end.
Proof.
  intros out nd ns.
  destruct (completed_run_events schedule objs resources invInfo evs err
              Hget Hsplit Hprune Hdeclared Hdone) as (fwd & HF & Hch).
  destruct (printLoop_relabelled strategy evs fwd HF Hobjects)
    as (Hne & Hok & Hnd & Hns & Hout).
  unfold out, Print. rewrite Hch.
  destruct (printLoop_runs (getPrintFunc strategy) fwd Hne Hok initialState [lastEvent err]
              collected_initial) as (-> & _ & _ & _).
  destruct (printLoop_delete_tally (getPrintFunc strategy) fwd Hne Hok
              initialState 0 0 collected_initial eq_refl eq_refl) as [Hd Hs].
  rewrite !Z.add_0_l in Hd, Hs. rewrite Hnd in Hd. rewrite Hns in Hs.
  fold nd in Hd. fold ns in Hs.
  specialize (Hout initialState). cbn [stOut initialState app] in Hout.
  set (st := final (printLoop (getPrintFunc strategy) initialState fwd)) in *.
  destruct err as [e|]; cbn [lastEvent printLoop mkErrorEvent mkDeleteEvent eType].
  - cbn. split; [reflexivity|]. split; [reflexivity|exact Hout].
  - unfold processEvent. cbn [eType mkDeleteEvent eDeleteEvent].
    unfold processDeleteEvent. cbn [deType bindR fst snd printLoop unconsumed returned final stOut].
    split; [reflexivity|]. split; [reflexivity|].
    rewrite getPrintFunc_appends, Hd, Hs, Hout. reflexivity.
Qed.

(** X17. The event transformer relabels a message whatever it carries: a
    message of [Prune] without an object becomes a delete resource update
    without an object, at which [Print] panics with a nil dereference. *)
Theorem message_without_object_makes_Print_panic
    (schedule : list Goroutine) (strategy : DryRunStrategy)
    (objs resources : list (option Info)) (invInfo : option Info)
    (before after : list Event) (bad : Event) (err : option error)
    (Hget : GetObjects d = (objs, None))
    (Hsplit : Inventory.SplitInfos InventoryLabel objs = (invInfo, resources, None))
    (Hprune : Prune d [invInfo] (runOptions d) = (before ++ bad :: after, err))
    (Hdeclared : Forall (fun msg => declaredPruneOp (peOperation (ePruneEvent msg)) = true)
                        (before ++ bad :: after))
    (Hobjects : Forall (fun msg => peObject (ePruneEvent msg) <> None) before)
    (Hbad : peObject (ePruneEvent bad) = None)
    (Hdone : main (Run InventoryLabel d schedule) = MDone) :
  let out := Print (chEvents (Run InventoryLabel d schedule)) strategy in
  returned out = Panic nilDereference
  /\ stOut (final out) = flat_map (deleteLine strategy) before.
Proof.
  intros out.
  destruct (completed_run_events schedule objs resources invInfo _ err
              Hget Hsplit Hprune Hdeclared Hdone) as (fwd & HF & Hch).
  apply Forall2_app_inv_l in HF as (fwd1 & fwd2 & HF1 & HF2 & ->).
  inversion HF2 as [|? e ? fwd3 Hbad' HF3]; subst.
  destruct (printLoop_relabelled strategy before fwd1 HF1 Hobjects)
    as (Hne & Hok & _ & _ & Hout).
  unfold out, Print. rewrite Hch, <- app_assoc.
  destruct (printLoop_runs (getPrintFunc strategy) fwd1 Hne Hok initialState
              ((e :: fwd3) ++ [lastEvent err]) collected_initial) as (-> & _ & _ & _).
  specialize (Hout initialState). cbn [stOut initialState app] in Hout.
  set (st := final (printLoop (getPrintFunc strategy) initialState fwd1)) in *.
  unfold transformsTo, transformEvent in Hbad'. rewrite Hbad in Hbad'.
  assert (He : exists op, e = mkDeleteEvent {| deType := DeleteEventResourceUpdate;
                                               deOperation := op; deObject := None |}).
  { destruct (transformPruneOperation _) as [op|]; [|discriminate Hbad'].
    injection Hbad' as <-. now exists op. }
  destruct He as [op ->].
  cbn [app printLoop eType mkDeleteEvent]. unfold processEvent.
  cbn [eType mkDeleteEvent eDeleteEvent]. unfold processDeleteEvent.
  cbn [deType deObject bindR returned final]. split; [reflexivity|exact Hout].
Qed.

End DestroyThenPrint.

(** ** Every run can be brought to its end *)

Section DestroyFinish.
Import GoStrings Objects Event Destroy.

Variable InventoryLabel : string.
Variable d : Destroyer.

(** X12. However the goroutines have been scheduled so far, a run of the
    Destroyer comes to its end once they take turns: after at most two rounds
    for each message of [Prune] and nine more, the goroutine of [Run] has
    closed the channel and is done, unless the event transformer has panicked
    on an operation that is not declared. *)
Theorem Destroyer_run_can_always_finish (before : list Goroutine) :
  let rounds := (2 * length (plannedEvents InventoryLabel d) + 9)%nat in
  let s := Run InventoryLabel d (before ++ roundRobin rounds) in
  terminal s
  /\ (Forall (fun msg => declaredPruneOp (peOperation (ePruneEvent msg)) = true)
             (plannedEvents InventoryLabel d) ->
      main s = MDone /\ chClosed s = true /\ crashed s = None).
Proof.
  intros rounds s.
  assert (Hinv : runInv InventoryLabel d s) by apply Run_runInv.
  assert (Hterm : terminal s).
  { unfold s, Run. rewrite exec_app.
    apply roundRobin_terminal; [apply exec_runInv; now left|].
    etransitivity; [apply (exec_rank InventoryLabel d); now left|].
    unfold rank, rounds. cbn. lia. }
  split; [exact Hterm|].
  intros Hall. now apply (terminal_closed InventoryLabel d).
Qed.

End DestroyFinish.

(** ** The providers of resource configs *)

Module WireConfig.
Import Objects.

Section Providers.

(** [clik8s.ResourceConfigs] and [clik8s.ResourcePruneConfigs], two names of
    one slice type, and its nil value. *)
Variable Configs : Type.
Variable nilConfigs : Configs.

(** [resourceconfig.ConfigProvider]: what the two methods of the interface
    return for a path, in a file system that does not change. *)
Record ConfigProvider : Type := {
  IsSupported : string -> bool;
  GetConfig : string -> Configs * option error
}.

(** [NewResourceConfig]; the provider is an interface value, nil when it is
    [None]. *)
Definition NewResourceConfig (rcp : string) (cp : option ConfigProvider)
  : result (Configs * option error) :=
  match cp with
  | None => Panic Printer.nilDereference
  | Some cp =>
      let p := rcp in
      if IsSupported cp p then Ok (GetConfig cp p) else Ok (nilConfigs, None)
  end.

(** [NewResourcePruneConfig]. *)
Definition NewResourcePruneConfig (rcp : string) (cp : option ConfigProvider)
  : result (Configs * option error) :=
  match cp with
  | None => Panic Printer.nilDereference
  | Some cp =>
      let p := rcp in
      if IsSupported cp p then Ok (GetConfig cp p) else Ok (nilConfigs, None)
  end.

(** [NewConfigProvider], for the kustomize provider [kcf] and the provider of
    raw config files [rcf]. *)
Definition NewConfigProvider (rcp : string) (kcf rcf : ConfigProvider)
  : option ConfigProvider :=
  let p := rcp in
  if IsSupported kcf p then Some kcf
  else if IsSupported rcf p then Some rcf
  else None.

End Providers.

End WireConfig.

Section ProviderFacts.
Import Objects WireConfig.

Variable Configs : Type.
Variable nilConfigs : Configs.

(** X18. The configs come from the kustomize provider when it supports the
    path, whatever the provider of raw files says, and from the provider of
    raw files when only that one supports it.  When neither supports the path
    the provider is nil, and [NewResourceConfig] and [NewResourcePruneConfig]
    panic on it: behind [NewConfigProvider] they never come to return nil
    configs without an error. *)
Theorem configs_come_from_the_first_supporting_provider
    (rcp : string) (kcf rcf : ConfigProvider Configs) :
  let cp := NewConfigProvider Configs rcp kcf rcf in
  NewResourceConfig Configs nilConfigs rcp cp
  = (if IsSupported Configs kcf rcp then Ok (GetConfig Configs kcf rcp)
     else if IsSupported Configs rcf rcp then Ok (GetConfig Configs rcf rcp)
     else Panic Printer.nilDereference)
  /\ NewResourcePruneConfig Configs nilConfigs rcp cp
     = NewResourceConfig Configs nilConfigs rcp cp
  /\ (cp = None <-> IsSupported Configs kcf rcp = false
                    /\ IsSupported Configs rcf rcp = false)
  /\ forall cp', cp = Some cp' -> IsSupported Configs cp' rcp = true.
Proof.
  intros cp. unfold cp, NewConfigProvider, NewResourceConfig, NewResourcePruneConfig.
  destruct (IsSupported Configs kcf rcp) eqn:Hk.
  - rewrite Hk. split; [reflexivity|]. split; [reflexivity|]. split.
    + split; [discriminate|]. intros [H _]; discriminate H.
    + intros cp' [= <-]. exact Hk.
  - destruct (IsSupported Configs rcf rcp) eqn:Hr.
    + rewrite Hr. split; [reflexivity|]. split; [reflexivity|]. split.
      * split; [discriminate|]. intros [_ H]; discriminate H.
      * intros cp' [= <-]. exact Hr.
    + split; [reflexivity|]. split; [reflexivity|]. split.
      * split; [intros _; split; reflexivity | reflexivity].
      * intros cp' H. discriminate H.
Qed.

End ProviderFacts.

(** ** Samples for the further properties *)

(** An info whose object has another name than the info itself. *)
Definition sampleMismatched : Objects.Info :=
  {| Objects.Namespace := "default"; Objects.Name := "inventory";
     Objects.Source := "cm.yaml";
     Objects.Object := Some (sampleConfigMap "inventory-old" ∅) |}.

Lemma addSuffixToName_success_witness :
  exists err,
    Inventory.addSuffixToName (Some (sampleInfo "inventory-1f2e-x7k2" {[ sampleLabel := "test-app" ]}))
                              " x7k2"
    = Ok (Some (sampleInfo "inventory-1f2e-x7k2" {[ sampleLabel := "test-app" ]}), Some err).
Proof.
  destruct (addSuffixToName_success
              (Some sampleInventory)
              (Some (sampleInfo "inventory-1f2e-x7k2" {[ sampleLabel := "test-app" ]}))
              " x7k2") as (i & obj & _ & _ & _ & _ & _ & _ & H).
  - vm_compute. reflexivity.
  - exact H.
Defined.

Lemma legacy_name_mismatch_is_an_error_witness :
  Inventory.fixLegacyInventoryName "40861806" (Some sampleMismatched)
  = Ok (Some sampleMismatched,
        Some (Objects.Errorf
                "inventory object (inventory-old) and resource.Info (inventory) have different names")).
Proof.
  apply (legacy_name_mismatch_is_an_error "40861806" sampleMismatched
           (sampleConfigMap "inventory-old" ∅) eq_refl).
  - left. reflexivity.
  - vm_compute. discriminate.
Defined.

Definition deleteCompleted : Event.Event := Destroy.lastEvent None.

Definition applyCompleted : Event.Event :=
  Event.mkApplyEvent {| Event.aeType := Event.ApplyEventCompleted;
                        Event.aeOperation := Event.ServersideApplied;
                        Event.aeObject := None |}.

Definition sampleApplied : list Event.Event :=
  [ applyUpdate Event.Created (sampleConfigMap "a" ∅);
    applyUpdate Event.Unchanged (sampleDeployment "c");
    applyUpdate Event.Created (sampleDeployment "d");
    pruneUpdate Event.Pruned (sampleConfigMap "b" ∅) ].

Lemma sampleDeleted_no_error :
  Forall (fun e => Event.eType e <> Event.ErrorType) sampleDeleted.
Proof. repeat constructor; discriminate. Qed.

Lemma sampleDeleted_printable : Forall (fun e => printable e = true) sampleDeleted.
Proof. repeat constructor. Qed.

Lemma delete_summary_counts_the_events_witness :
  exists more,
    Printer.stOut (Printer.final
      (Printer.Print (sampleDeleted ++ deleteCompleted :: []) Event.DryRunServer))
    = Printer.stOut (Printer.final (Printer.Print sampleDeleted Event.DryRunServer))
      ++ ["1 resource(s) deleted, 1 skipped (preview-server)" +:+ Printer.newline] ++ more.
Proof.
  destruct (delete_summary_counts_the_events Event.DryRunServer sampleDeleted
              deleteCompleted [] sampleDeleted_no_error sampleDeleted_printable
              eq_refl eq_refl) as [_ H].
  apply H; vm_compute; reflexivity.
Defined.

Lemma apply_summary_counts_the_events_witness :
  exists more,
    Printer.stOut (Printer.final
      (Printer.Print (sampleApplied ++ applyCompleted :: []) Event.DryRunNone))
    = Printer.stOut (Printer.final (Printer.Print sampleApplied Event.DryRunNone))
      ++ ["3 resource(s) applied. 2 created, 1 unchanged, 0 configured" +:+ Printer.newline]
      ++ more.
Proof.
  apply (apply_summary_counts_the_events Event.DryRunNone sampleApplied applyCompleted []).
  - repeat constructor; discriminate.
  - repeat constructor.
  - vm_compute. reflexivity.
  - reflexivity.
  - reflexivity.
Defined.

Definition sampleId (name : string) : Event.ObjMetadata :=
  {| Event.idGroup := "apps"; Event.idKind := "Deployment";
     Event.idNamespace := "default"; Event.idName := name |}.

Definition sampleStatus (name : string) (st : Event.Status) (msg : string)
  : Event.ResourceStatus :=
  {| Event.Identifier := sampleId name; Event.rsStatus := st; Event.Message := msg |}.

Definition statusUpdate (name : string) (st : Event.Status) (msg : string)
  : Event.StatusEvent :=
  {| Event.seEventType := Event.ResourceUpdateEvent;
     Event.seResource := Some (sampleStatus name st msg);
     Event.seError := None |}.

Definition sampleUpdates : list Event.StatusEvent :=
  [ statusUpdate "c" Event.InProgress "Replicas: 0/1";
    statusUpdate "d" Event.Current "Deployment is available";
    statusUpdate "c" Event.Current "Deployment is available" ].

Lemma status_updates_are_replayed_after_the_summary_witness :
  Printer.stOut (Printer.final
    (Printer.Print (map Event.mkStatusEvent sampleUpdates) Event.DryRunNone)) = []
  /\ exists lines,
       Printer.stOut (Printer.final
         (Printer.Print (map Event.mkStatusEvent sampleUpdates ++ [applyCompleted])
                        Event.DryRunNone))
       = ["0 resource(s) applied. 0 created, 0 unchanged, 0 configured" +:+ Printer.newline]
         ++ lines
       /\ In ("deployment.apps/c is Current: Deployment is available" +:+ Printer.newline) lines
       /\ length lines = 2%nat.
Proof.
  destruct (status_updates_are_replayed_after_the_summary Event.DryRunNone sampleUpdates
              applyCompleted) as (H1 & lines & H2 & H3 & H4).
  - repeat constructor; discriminate.
  - reflexivity.
  - reflexivity.
  - split; [exact H1|]. exists lines. split; [exact H2|]. split.
    + apply (H3 (sampleId "c") (statusUpdate "c" Event.Current "Deployment is available")
                (sampleStatus "c" Event.Current "Deployment is available")).
      * vm_compute. reflexivity.
      * reflexivity.
    + rewrite H4. vm_compute. reflexivity.
Defined.

(** A Destroyer that cannot read its objects. *)
Definition sampleUnreadable : Destroy.Destroyer :=
  {| Destroy.DryRunStrategy_ := Event.DryRunNone;
     Destroy.GetObjects := ([], Some (Objects.Errorf "no such file"));
     Destroy.Prune := fun _ _ => (samplePruned, None);
     Destroy.DeleteInventoryObj := fun _ => None |}.

Lemma early_failure_prunes_nothing_witness :
  let s := Destroy.Run sampleLabel sampleUnreadable (roundRobin 4) in
  Destroy.trans s = Destroy.TNotStarted
  /\ Destroy.chEvents s
     = [Event.mkErrorEvent
          (Some (Objects.WrapPrefix (Objects.Errorf "no such file")
                                    "error reading resource manifests"))]
  /\ Destroy.chClosed s = true.
Proof.
  intros s.
  destruct (early_failure_prunes_nothing sampleLabel sampleUnreadable (roundRobin 4)
              (Objects.WrapPrefix (Objects.Errorf "no such file")
                                  "error reading resource manifests")
              eq_refl) as (_ & Ht & _ & Hdone).
  split; [exact Ht|]. apply Hdone. vm_compute. reflexivity.
Defined.

Lemma Prune_gets_the_inventory_object_alone_witness :
  exists objs invInfo resources,
    Destroy.GetObjects (sampleDestroyer None) = (objs, None)
    /\ Inventory.SplitInfos sampleLabel objs = (invInfo, resources, None)
    /\ [Some sampleInventory] = [invInfo]
    /\ In invInfo objs
    /\ isMarkerInfo sampleLabel invInfo = true.
Proof.
  destruct (Prune_gets_the_inventory_object_alone sampleLabel (sampleDestroyer None)
              (roundRobin 2) [Some sampleInventory]
              {| Destroy.optDryRunStrategy := Event.DryRunNone;
                 Destroy.PropagationPolicy := Destroy.DeletePropagationBackground |})
    as [_ H].
  - vm_compute. do 2 right. left. reflexivity.
  - exact H.
Defined.

(** A Destroyer whose pruning sends a message with an operation outside the
    enum. *)
Definition sampleUndeclared : list Event.Event :=
  [ pruneUpdate Event.Pruned (sampleConfigMap "b" ∅);
    pruneUpdate (Event.PruneOpUndeclared 5) (sampleDeployment "c");
    pruneUpdate Event.Pruned (sampleDeployment "d") ].

Definition sampleBadDestroyer : Destroy.Destroyer :=
  {| Destroy.DryRunStrategy_ := Event.DryRunNone;
     Destroy.GetObjects := (sampleInfos, None);
     Destroy.Prune := fun _ _ => (sampleUndeclared, None);
     Destroy.DeleteInventoryObj := fun _ => None |}.

Lemma undeclared_operation_stops_the_forwarding_witness :
  let s := Destroy.Run sampleLabel sampleBadDestroyer (roundRobin 15) in
  Destroy.trans s <> Destroy.TDone
  /\ exists fwd last,
       Destroy.chEvents s = fwd ++ last
       /\ (length fwd <= 1)%nat
       /\ Forall (fun e => Event.eType e = Event.DeleteType) fwd
       /\ (last = [] \/ last = [Destroy.lastEvent None]).
Proof.
  apply (undeclared_operation_stops_the_forwarding sampleLabel sampleBadDestroyer
           (roundRobin 15) sampleInfos [Some (sampleInfo "b" ∅)] (Some sampleInventory)
           [pruneUpdate Event.Pruned (sampleConfigMap "b" ∅)]
           [pruneUpdate Event.Pruned (sampleDeployment "d")]
           (pruneUpdate (Event.PruneOpUndeclared 5) (sampleDeployment "c")) None).
  - reflexivity.
  - vm_compute. reflexivity.
  - reflexivity.
  - reflexivity.
Defined.

Lemma Print_of_a_destroy_run_witness :
  let out := Printer.Print
               (Destroy.chEvents (Destroy.Run sampleLabel (sampleDestroyer None) (roundRobin 9)))
               Event.DryRunNone in
  Printer.returned out = Ok None
  /\ Printer.stOut (Printer.final out)
     = [ "configmap/b deleted" +:+ Printer.newline;
         "deployment.apps/c delete skipped" +:+ Printer.newline;
         "1 resource(s) deleted, 1 skipped" +:+ Printer.newline ].
Proof.
  intros out.
  destruct (Print_of_a_destroy_run sampleLabel (sampleDestroyer None) (roundRobin 9)
              Event.DryRunNone sampleInfos [Some (sampleInfo "b" ∅)] (Some sampleInventory)
              samplePruned None) as (_ & Hr & Hout).
  - reflexivity.
  - vm_compute. reflexivity.
  - reflexivity.
  - repeat constructor.
  - repeat constructor; discriminate.
  - vm_compute. reflexivity.
  - split; [exact Hr|]. unfold out. rewrite Hout. vm_compute. reflexivity.
Defined.

(** A Destroyer whose pruning sends a message without an object. *)
Definition sampleBare : list Event.Event :=
  [ pruneUpdate Event.Pruned (sampleConfigMap "b" ∅); pruneCompleted ].

Definition sampleBareDestroyer : Destroy.Destroyer :=
  {| Destroy.DryRunStrategy_ := Event.DryRunNone;
     Destroy.GetObjects := (sampleInfos, None);
     Destroy.Prune := fun _ _ => (sampleBare, None);
     Destroy.DeleteInventoryObj := fun _ => None |}.

Lemma message_without_object_makes_Print_panic_witness :
  let out := Printer.Print
               (Destroy.chEvents (Destroy.Run sampleLabel sampleBareDestroyer (roundRobin 9)))
               Event.DryRunNone in
  Printer.returned out = Panic Printer.nilDereference
  /\ Printer.stOut (Printer.final out) = [ "configmap/b deleted" +:+ Printer.newline ].
Proof.
  intros out.
  destruct (message_without_object_makes_Print_panic sampleLabel sampleBareDestroyer
              (roundRobin 9) Event.DryRunNone sampleInfos [Some (sampleInfo "b" ∅)]
              (Some sampleInventory)
              [pruneUpdate Event.Pruned (sampleConfigMap "b" ∅)] [] pruneCompleted None)
    as (Hr & Hout).
  - reflexivity.
  - vm_compute. reflexivity.
  - reflexivity.
  - repeat constructor.
  - repeat constructor; discriminate.
  - reflexivity.
  - vm_compute. reflexivity.
  - split; [exact Hr|]. unfold out. rewrite Hout. vm_compute. reflexivity.
Defined.
